(** * VPP renderer: endpoint-group rendering and uplink management

    A shallow embedding of [EndPointGroupManager] (get_fwd_info,
    mk_mcast_tunnel, mk_bvi, mk_group, handle_update) and of [Uplink]
    (mk_interface, configure_tap, handle_dhcp_event, handle_dhcp_event_i,
    configure, set), together with the object model (OM) they write to;
    and of [VPPRenderer] (agentLevelToVom, setProperties, start, stop) and
    of the command queue of the unit tests, [MockCmdQ].

    Conventions.
    - The OM database, the ID generator, the log and the lease the dataplane
      reports are threaded through a state-and-exception monad [M].
    - A C++ exception is the outcome [Throw]; dereferencing an empty
      [std::shared_ptr] is the outcome [Crash].
    - Calls into libraries whose bodies are outside the repository (boost
      address parsing, VOM prefix arithmetic, the task queue) are taken as
      total functions, gathered in the record [Library]. *)

From stdpp Require Import gmap strings list pretty.

Local Open Scope Z_scope.
Local Open Scope string_scope.
Local Open Scope list_scope.

(** ** Addresses *)

Definition URI := string.
Definition key_t := string.
Definition mac_address_t := Z.
Definition address_v4 := Z.

Inductive ip_address :=
| V4 (a : Z)
| V6 (a : Z).

Record prefix_t := mk_prefix { pfx_address : ip_address; pfx_len : Z }.

Global Instance ip_address_eq_dec : EqDecision ip_address.
Proof. solve_decision. Defined.
Global Instance prefix_t_eq_dec : EqDecision prefix_t.
Proof. solve_decision. Defined.

(** ** VOM object types, with the constructor arguments the renderer passes *)

Inductive learning_mode_t := learning_ON | learning_OFF.
Record bridge_domain := mk_bridge_domain
  { bd_id : Z; bd_learning_mode : learning_mode_t }.
Record route_domain := mk_route_domain { rd_table_id : Z }.

Inductive interface_type_t :=
| type_UNKNOWN | type_BVI | type_VXLAN | type_ETHERNET
| type_AFPACKET | type_TAP | type_BOND.
Inductive admin_state_t := admin_DOWN | admin_UP.
Inductive vxlan_mode_t := mode_STANDARD | mode_GBP.
Inductive bond_mode_t := bond_LACP.
Inductive bond_lb_t := lb_L2.

(** [interface] and the subclasses the renderer builds.  A sub-interface
    keeps its parent, a multicast VXLAN tunnel the interface it joins on. *)
Inductive interface :=
| Interface (name : string) (type : interface_type_t) (state : admin_state_t)
            (rd : option route_domain) (l2 : option mac_address_t)
| SubInterface (parent : interface) (state : admin_state_t) (vlan : Z)
| VxlanTunnel (src dst : ip_address) (vni : Z) (mode : vxlan_mode_t)
| VxlanTunnelMcast (src dst : ip_address) (vni : Z)
                   (mcast_itf : interface) (mode : vxlan_mode_t)
| TapInterface (name : string) (type : interface_type_t)
               (state : admin_state_t) (pfx : prefix_t)
| BondInterface (name : string) (state : admin_state_t)
                (mode : bond_mode_t) (lb : bond_lb_t).

(** interface::type(): a sub-interface has its parent's type, a tunnel is
    of type VXLAN. *)
Fixpoint type (i : interface) : interface_type_t :=
  match i with
  | Interface _ t _ _ _ => t
  | SubInterface p _ _ => type p
  | VxlanTunnel _ _ _ _ => type_VXLAN
  | VxlanTunnelMcast _ _ _ _ _ => type_VXLAN
  | TapInterface _ t _ _ => t
  | BondInterface _ _ _ _ => type_BOND
  end.

(** interface::l2_address().to_mac(); an address never set reads as zero. *)
Definition l2_address (i : interface) : option mac_address_t :=
  match i with
  | Interface _ _ _ _ l2 => l2
  | _ => None
  end.
Definition to_mac (l2 : option mac_address_t) : mac_address_t := default 0 l2.

(** interface::set(mac) *)
Definition set_l2_address (i : interface) (mac : mac_address_t) : interface :=
  match i with
  | Interface n t s rd _ => Interface n t s rd (Some mac)
  | _ => i
  end.

Inductive l2_vtr_op_t := L2_VTR_DISABLED | L2_VTR_POP_1.
Record l2_binding := mk_l2_binding
  { l2b_itf : interface; l2b_bd : bridge_domain;
    l2b_vtr_op : l2_vtr_op_t; l2b_vtr_tag : Z }.

(** l2_binding(itf, bd): no tag rewrite until [set] is called. *)
Definition l2_binding_new (itf : interface) (bd : bridge_domain) : l2_binding :=
  mk_l2_binding itf bd L2_VTR_DISABLED 0.
Definition l2_binding_set (b : l2_binding) (op : l2_vtr_op_t) (tag : Z)
  : l2_binding :=
  mk_l2_binding (l2b_itf b) (l2b_bd b) op tag.

Record bridge_domain_entry := mk_bridge_domain_entry
  { bde_bd : bridge_domain; bde_mac : mac_address_t; bde_itf : interface }.

Record gbp_route_domain := mk_gbp_route_domain
  { grd_rd : route_domain;
    grd_ip4_uu_fwd : option interface; grd_ip6_uu_fwd : option interface }.
Record gbp_bridge_domain := mk_gbp_bridge_domain
  { gbd_bd : bridge_domain; gbd_bvi : interface;
    gbd_uu_fwd : option interface; gbd_bm_flood : option interface }.

Inductive gbp_vxlan :=
| gbp_vxlan_bd (vni : Z) (gbd : gbp_bridge_domain)
| gbp_vxlan_rd (vni : Z) (grd : gbp_route_domain).

Record gbp_endpoint_group := mk_gbp_endpoint_group
  { gepg_epg_id : Z; gepg_itf : option interface;
    gepg_rd : gbp_route_domain; gepg_bd : gbp_bridge_domain }.

Inductive itf_flags_t := itf_ACCEPT | itf_FORWARD.
Inductive nh_proto_t := nh_IPV4 | nh_IPV6.
Inductive path_t :=
| path_via (itf : interface) (proto : nh_proto_t)
| path_LOCAL.
Record ip_mroute := mk_ip_mroute
  { mr_grp : address_v4; mr_len : Z; mr_paths : list (path_t * itf_flags_t) }.
Record igmp_binding := mk_igmp_binding { igmp_itf : interface }.
Record igmp_listen := mk_igmp_listen
  { igl_binding : igmp_binding; igl_gaddr : address_v4 }.

Inductive direction_t := dir_INPUT | dir_OUTPUT.
Inductive l3_proto_t := IPV4 | IPV6.
Inductive zone_t := zone_INSIDE | zone_OUTSIDE.
Record nat_binding := mk_nat_binding
  { nb_itf : interface; nb_dir : direction_t;
    nb_proto : l3_proto_t; nb_zone : zone_t }.

Record l3_binding := mk_l3_binding { l3b_itf : interface; l3b_pfx : prefix_t }.
Record bridge_domain_arp_entry := mk_bridge_domain_arp_entry
  { bae_bd : bridge_domain; bae_ip : ip_address; bae_mac : mac_address_t }.

Inductive gbp_subnet_type_t :=
| STITCHED_INTERNAL | STITCHED_EXTERNAL | TRANSPORT.
Record gbp_subnet := mk_gbp_subnet
  { gs_rd : route_domain; gs_prefix : prefix_t; gs_type : gbp_subnet_type_t }.

Record ip_unnumbered := mk_ip_unnumbered
  { ipu_itf : interface; ipu_l3_itf : interface }.
Record arp_proxy_config := mk_arp_proxy_config
  { apc_low : address_v4; apc_high : address_v4 }.
Record arp_proxy_binding := mk_arp_proxy_binding { apb_itf : interface }.

Inductive bond_member_mode_t := member_ACTIVE.
Inductive bond_member_rate_t := rate_SLOW.
Record bond_member := mk_bond_member
  { bm_itf : interface; bm_mode : bond_member_mode_t;
    bm_rate : bond_member_rate_t }.
Record bond_group_binding := mk_bond_group_binding
  { bgb_itf : interface; bgb_members : list bond_member }.

Record lldp_global := mk_lldp_global
  { lg_system_name : string; lg_tx_hold : Z; lg_tx_interval : Z }.
Record lldp_binding := mk_lldp_binding
  { lb_itf : interface; lb_port_desc : string }.

Record dhcp_client := mk_dhcp_client
  { dc_itf : interface; dc_hostname : string;
    dc_client_id : option mac_address_t; dc_set_broadcast_flag : bool }.

Inductive dhcp_state_t := DISCOVER | REQUEST | BOUND.
Record lease_t := mk_lease
  { lease_state : dhcp_state_t; host_prefix : prefix_t }.

(** Everything that can be handed to [OM::write]. *)
Inductive om_object :=
| O_bridge_domain (o : bridge_domain)
| O_route_domain (o : route_domain)
| O_interface (o : interface)
| O_l2_binding (o : l2_binding)
| O_bridge_domain_entry (o : bridge_domain_entry)
| O_gbp_route_domain (o : gbp_route_domain)
| O_gbp_bridge_domain (o : gbp_bridge_domain)
| O_gbp_vxlan (o : gbp_vxlan)
| O_gbp_endpoint_group (o : gbp_endpoint_group)
| O_ip_mroute (o : ip_mroute)
| O_igmp_binding (o : igmp_binding)
| O_igmp_listen (o : igmp_listen)
| O_nat_binding (o : nat_binding)
| O_l3_binding (o : l3_binding)
| O_bridge_domain_arp_entry (o : bridge_domain_arp_entry)
| O_gbp_subnet (o : gbp_subnet)
| O_ip_unnumbered (o : ip_unnumbered)
| O_arp_proxy_config (o : arp_proxy_config)
| O_arp_proxy_binding (o : arp_proxy_binding)
| O_bond_group_binding (o : bond_group_binding)
| O_lldp_global (o : lldp_global)
| O_lldp_binding (o : lldp_binding)
| O_dhcp_client (o : dhcp_client).

(** Decidable equality: the OM finds an object by comparing it with the
    ones it already holds. *)
Global Instance learning_mode_t_eq_dec : EqDecision learning_mode_t.
Proof. solve_decision. Defined.
Global Instance bridge_domain_eq_dec : EqDecision bridge_domain.
Proof. solve_decision. Defined.
Global Instance route_domain_eq_dec : EqDecision route_domain.
Proof. solve_decision. Defined.
Global Instance interface_type_t_eq_dec : EqDecision interface_type_t.
Proof. solve_decision. Defined.
Global Instance admin_state_t_eq_dec : EqDecision admin_state_t.
Proof. solve_decision. Defined.
Global Instance vxlan_mode_t_eq_dec : EqDecision vxlan_mode_t.
Proof. solve_decision. Defined.
Global Instance bond_mode_t_eq_dec : EqDecision bond_mode_t.
Proof. solve_decision. Defined.
Global Instance bond_lb_t_eq_dec : EqDecision bond_lb_t.
Proof. solve_decision. Defined.

Fixpoint interface_beq (x y : interface) : bool :=
  match x, y with
  | Interface n t s r l, Interface n' t' s' r' l' =>
      bool_decide (n = n') && bool_decide (t = t') && bool_decide (s = s')
      && bool_decide (r = r') && bool_decide (l = l')
  | SubInterface p s v, SubInterface p' s' v' =>
      interface_beq p p' && bool_decide (s = s') && bool_decide (v = v')
  | VxlanTunnel a b v m, VxlanTunnel a' b' v' m' =>
      bool_decide (a = a') && bool_decide (b = b') && bool_decide (v = v')
      && bool_decide (m = m')
  | VxlanTunnelMcast a b v i m, VxlanTunnelMcast a' b' v' i' m' =>
      bool_decide (a = a') && bool_decide (b = b') && bool_decide (v = v')
      && interface_beq i i' && bool_decide (m = m')
  | TapInterface n t s p, TapInterface n' t' s' p' =>
      bool_decide (n = n') && bool_decide (t = t') && bool_decide (s = s')
      && bool_decide (p = p')
  | BondInterface n s m l, BondInterface n' s' m' l' =>
      bool_decide (n = n') && bool_decide (s = s') && bool_decide (m = m')
      && bool_decide (l = l')
  | _, _ => false
  end.

Global Instance interface_eq_dec : EqDecision interface.
Proof.
  intros x y. destruct (interface_beq x y) eqn:Hbeq; [left|right].
  - abstract
      (revert y Hbeq; induction x; intros []; simpl; try discriminate;
       rewrite ?andb_true_iff, ?bool_decide_eq_true; intros; destruct_and?;
       f_equal; auto).
  - abstract
      (intros ->;
       assert (∀ z, interface_beq z z = true) as Hrefl
         by (intros z; induction z; simpl;
             rewrite ?andb_true_iff, ?bool_decide_eq_true; auto);
       specialize (Hrefl y); congruence).
Defined.

Global Instance l2_vtr_op_t_eq_dec : EqDecision l2_vtr_op_t.
Proof. solve_decision. Defined.
Global Instance l2_binding_eq_dec : EqDecision l2_binding.
Proof. solve_decision. Defined.
Global Instance bridge_domain_entry_eq_dec : EqDecision bridge_domain_entry.
Proof. solve_decision. Defined.
Global Instance gbp_route_domain_eq_dec : EqDecision gbp_route_domain.
Proof. solve_decision. Defined.
Global Instance gbp_bridge_domain_eq_dec : EqDecision gbp_bridge_domain.
Proof. solve_decision. Defined.
Global Instance gbp_vxlan_eq_dec : EqDecision gbp_vxlan.
Proof. solve_decision. Defined.
Global Instance gbp_endpoint_group_eq_dec : EqDecision gbp_endpoint_group.
Proof. solve_decision. Defined.
Global Instance itf_flags_t_eq_dec : EqDecision itf_flags_t.
Proof. solve_decision. Defined.
Global Instance nh_proto_t_eq_dec : EqDecision nh_proto_t.
Proof. solve_decision. Defined.
Global Instance path_t_eq_dec : EqDecision path_t.
Proof. solve_decision. Defined.
Global Instance ip_mroute_eq_dec : EqDecision ip_mroute.
Proof. solve_decision. Defined.
Global Instance igmp_binding_eq_dec : EqDecision igmp_binding.
Proof. solve_decision. Defined.
Global Instance igmp_listen_eq_dec : EqDecision igmp_listen.
Proof. solve_decision. Defined.
Global Instance direction_t_eq_dec : EqDecision direction_t.
Proof. solve_decision. Defined.
Global Instance l3_proto_t_eq_dec : EqDecision l3_proto_t.
Proof. solve_decision. Defined.
Global Instance zone_t_eq_dec : EqDecision zone_t.
Proof. solve_decision. Defined.
Global Instance nat_binding_eq_dec : EqDecision nat_binding.
Proof. solve_decision. Defined.
Global Instance l3_binding_eq_dec : EqDecision l3_binding.
Proof. solve_decision. Defined.
Global Instance bridge_domain_arp_entry_eq_dec
  : EqDecision bridge_domain_arp_entry.
Proof. solve_decision. Defined.
Global Instance gbp_subnet_type_t_eq_dec : EqDecision gbp_subnet_type_t.
Proof. solve_decision. Defined.
Global Instance gbp_subnet_eq_dec : EqDecision gbp_subnet.
Proof. solve_decision. Defined.
Global Instance ip_unnumbered_eq_dec : EqDecision ip_unnumbered.
Proof. solve_decision. Defined.
Global Instance arp_proxy_config_eq_dec : EqDecision arp_proxy_config.
Proof. solve_decision. Defined.
Global Instance arp_proxy_binding_eq_dec : EqDecision arp_proxy_binding.
Proof. solve_decision. Defined.
Global Instance bond_member_mode_t_eq_dec : EqDecision bond_member_mode_t.
Proof. solve_decision. Defined.
Global Instance bond_member_rate_t_eq_dec : EqDecision bond_member_rate_t.
Proof. solve_decision. Defined.
Global Instance bond_member_eq_dec : EqDecision bond_member.
Proof. solve_decision. Defined.
Global Instance bond_group_binding_eq_dec : EqDecision bond_group_binding.
Proof. solve_decision. Defined.
Global Instance lldp_global_eq_dec : EqDecision lldp_global.
Proof. solve_decision. Defined.
Global Instance lldp_binding_eq_dec : EqDecision lldp_binding.
Proof. solve_decision. Defined.
Global Instance dhcp_client_eq_dec : EqDecision dhcp_client.
Proof. solve_decision. Defined.
Global Instance dhcp_state_t_eq_dec : EqDecision dhcp_state_t.
Proof. solve_decision. Defined.
Global Instance om_object_eq_dec : EqDecision om_object.
Proof. solve_decision. Defined.

(** ** The object model database (VOM's OM and its client database)

    VOM is a library outside the repository; what the renderer relies on is
    the Reconciler of section 4.2 of the specification. *)

(** Modelled from the spec: per owner key the database holds the objects
    asserted under that key, each with a stale flag. *)
Record object_ref := mk_ref { ref_obj : om_object; ref_stale : bool }.

Definition om_db := gmap key_t (list object_ref).

Definition om_find (key : key_t) (db : gmap key_t (list object_ref))
  : list object_ref :=
  default [] (db !! key).

Definition clear_stale (o : om_object) (r : object_ref) : object_ref :=
  if decide (ref_obj r = o) then mk_ref o false else r.

(** Modelled from the spec: asserting an object under a key adds it to the
    key's set or, when it is already there, clears its stale flag. *)
Definition om_insert (key : key_t) (o : om_object)
    (db : gmap key_t (list object_ref)) : gmap key_t (list object_ref) :=
  let objs := om_find key db in
  if decide (o ∈ ref_obj <$> objs)
  then <[key := clear_stale o <$> objs]> db
  else <[key := objs ++ [mk_ref o false]]> db.

(** Modelled from the spec: opening a scope marks every object of the key
    stale. *)
Definition om_mark (key : key_t) (db : gmap key_t (list object_ref))
  : gmap key_t (list object_ref) :=
  <[key := (λ r, mk_ref (ref_obj r) true) <$> om_find key db]> db.

(** Modelled from the spec: closing the scope removes the objects of the
    key that are still stale. *)
Definition om_sweep (key : key_t) (db : gmap key_t (list object_ref))
  : gmap key_t (list object_ref) :=
  <[key := filter (λ r, ref_stale r = false) (om_find key db)]> db.

(** The objects a key holds, and the objects asserted under it since the
    scope was opened (the ones whose stale flag is clear). *)
Definition om_owned (key : key_t) (db : gmap key_t (list object_ref))
  : list om_object :=
  ref_obj <$> om_find key db.
Definition om_asserted (key : key_t) (db : gmap key_t (list object_ref))
  : list om_object :=
  ref_obj <$> filter (λ r, ref_stale r = false) (om_find key db).
(** Modelled from the spec: an object shared by several keys is torn down
    only when no key holds it any more. *)
Definition om_live (db : gmap key_t (list object_ref)) (o : om_object) : Prop :=
  ∃ key, o ∈ om_owned key db.

(** ** The ID generator (IdGenerator is declared outside the repository) *)

Inductive class_id_t := RoutingDomain_CLASS_ID | BridgeDomain_CLASS_ID.
Global Instance class_id_t_eq_dec : EqDecision class_id_t.
Proof. solve_decision. Defined.

Definition IdGenerator := list (class_id_t * URI * Z).

(** Modelled from the spec: the ID Allocator of section 4.1.  The first
    call for a (class, URI) pair allocates the next unused ID of the class;
    later calls return the same ID. *)
Definition id_next (cid : class_id_t) (g : IdGenerator) : Z :=
  1 + Z.of_nat (length (filter (λ e : class_id_t * URI * Z, e.1.1 = cid) g)).
(** Modelled from the spec: getId(class, uri) of section 4.1. *)
Definition id_get (cid : class_id_t) (uri : URI) (g : IdGenerator)
  : Z * IdGenerator :=
  match list_find (λ e : class_id_t * URI * Z, e.1 = (cid, uri)) g with
  | Some (_, (_, id)) => (id, g)
  | None => let id := id_next cid g in (id, g ++ [(cid, uri, id)])
  end.

(** ** Program state and the monad of the renderer *)

(** The work items the uplink hands to the task queue: the bound member
    function and its argument. *)
Inductive task :=
| bind_handle_dhcp_event_i (lease : lease_t).

Record state := mk_state
  { st_om : gmap key_t (list object_ref);
    st_ids : IdGenerator;
    st_log : list string;
    (** the lease the DHCP client of the uplink holds in the dataplane *)
    st_lease : option lease_t;
    (** the manager's task queue: pending work, with its task id *)
    st_taskQueue : list (string * task) }.

Inductive exn := NoFowardInfoException.

Inductive outcome (A : Type) :=
| Ret (a : A)
| Throw (e : exn)
| Crash.
Arguments Ret {A} a.
Arguments Throw {A} e.
Arguments Crash {A}.

Definition M (A : Type) : Type := state → outcome A * state.

Definition ret {A} (a : A) : M A := λ s, (Ret a, s).
Definition bind {A B} (c : M A) (k : A → M B) : M B :=
  λ s, match c s with
       | (Ret a, s') => k a s'
       | (Throw e, s') => (Throw e, s')
       | (Crash, s') => (Crash, s')
       end.
Definition throw {A} (e : exn) : M A := λ s, (Throw e, s).

(** [*p] on a shared pointer. *)
Definition deref {A} (p : option A) : M A :=
  match p with
  | Some a => ret a
  | None => λ s, (Crash, s)
  end.

(** try { c } catch (NoFowardInfoException&) { h } *)
Definition try_catch {A} (c : M A) (h : exn → M A) : M A :=
  λ s, match c s with
       | (Throw e, s') => h e s'
       | r => r
       end.

(** A destructor run when the scope is left, by return or by exception.
    After a crash there is no process left to run it. *)
Definition scoped {A} (c : M A) (dtor : state → state) : M A :=
  λ s, match c s with
       | (Ret a, s') => (Ret a, dtor s')
       | (Throw e, s') => (Throw e, dtor s')
       | (Crash, s') => (Crash, s')
       end.

Notation "x <- c ;; k" := (bind c (λ x, k))
  (at level 20, c at level 99, k at level 200, only parsing).
Notation "c ;;; k" := (bind c (λ _, k))
  (at level 99, k at level 200, only parsing, right associativity).

Definition modify_om
    (f : gmap key_t (list object_ref) → gmap key_t (list object_ref))
    (s : state) : state :=
  mk_state (f (st_om s)) (st_ids s) (st_log s) (st_lease s) (st_taskQueue s).

(** OM::commit and OM::write.  [write] also flushes the command queue to
    the hardware channel, which is outside this development. *)
Definition OM_commit (key : key_t) (o : om_object) : M unit :=
  λ s, (Ret (), modify_om (om_insert key o) s).
Definition OM_write (key : key_t) (o : om_object) : M unit :=
  OM_commit key o.
Definition OM_mark (key : key_t) : state → state := modify_om (om_mark key).
Definition OM_sweep (key : key_t) : state → state := modify_om (om_sweep key).

(** OM::mark_n_sweep ms(key); body *)
Definition mark_n_sweep {A} (key : key_t) (body : M A) : M A :=
  λ s, scoped body (OM_sweep key) (OM_mark key s).

Definition set_ids (g : IdGenerator) (s : state) : state :=
  mk_state (st_om s) g (st_log s) (st_lease s) (st_taskQueue s).
Definition id_gen_get (cid : class_id_t) (uri : URI) : M Z :=
  λ s, (Ret (id_get cid uri (st_ids s)).1,
        set_ids (id_get cid uri (st_ids s)).2 s).

Definition add_log (msg : string) (s : state) : state :=
  mk_state (st_om s) (st_ids s) (st_log s ++ [msg]) (st_lease s)
           (st_taskQueue s).
Definition LOG (msg : string) : M unit := λ s, (Ret (), add_log msg s).

Definition set_taskQueue (q : list (string * task)) (s : state) : state :=
  mk_state (st_om s) (st_ids s) (st_log s) (st_lease s) q.

Definition get_lease : M (option lease_t) := λ s, (Ret (st_lease s), s).

Fixpoint for_each {A} (l : list A) (body : A → M unit) : M unit :=
  match l with
  | [] => ret ()
  | x :: l' => body x ;;; for_each l' body
  end.

(** ** Library calls

    Functions of boost, VOM and the agent's task queue that the renderer
    calls and whose bodies are outside the repository. *)
Record Library := mk_library
  { (** boost::asio::ip::address::from_string *)
    from_string : string → ip_address;
    (** boost::asio::ip::address::to_v4 *)
    to_v4 : ip_address → address_v4;
    (** route::prefix_t(address): the host prefix of an address *)
    prefix_of : ip_address → prefix_t;
    (** route::prefix_t::low and route::prefix_t::high *)
    low : prefix_t → prefix_t;
    high : prefix_t → prefix_t;
    (** TaskQueue::dispatch(taskId, work) *)
    dispatch : string → task → list (string * task) → list (string * task) }.

(** ** Uplink *)

Module Uplink.

Inductive uplink_type_t := VXLAN | VLAN.

Record t := mk
  { m_type : uplink_type_t;
    m_vxlan_src : ip_address;
    m_vxlan_dst : ip_address;
    m_iface : string;
    m_vlan : Z;
    m_uplink : option interface;
    slave_ifaces : list string;
    dhcp_options : list string }.

Definition UPLINK_KEY : key_t := "__uplink__".

Definition set_m_uplink (u : t) (p : option interface) : t :=
  mk (m_type u) (m_vxlan_src u) (m_vxlan_dst u) (m_iface u) (m_vlan u) p
     (slave_ifaces u) (dhcp_options u).
Definition set_m_vxlan_src (u : t) (a : ip_address) : t :=
  mk (m_type u) a (m_vxlan_dst u) (m_iface u) (m_vlan u) (m_uplink u)
     (slave_ifaces u) (dhcp_options u).

(** std::string::find(sub) != npos *)
Fixpoint contains (sub s : string) : bool :=
  if String.prefix sub s then true
  else match s with
       | EmptyString => false
       | String _ s' => contains sub s'
       end.

(** hostname.substr(0, hostname.find(".")), the whole string when there is
    no dot *)
Fixpoint strip_domain (s : string) : string :=
  match s with
  | EmptyString => EmptyString
  | String c s' => if Ascii.eqb c (Ascii.ascii_of_nat 46) then EmptyString
                   else String c (strip_domain s')
  end.

Definition getIntfTypeFromName (name : string) : interface_type_t :=
  if contains "Bond" name then type_BOND
  else if contains "Ethernet" name then type_ETHERNET
  else if contains "tap" name then type_TAP
  else type_AFPACKET.

Section Uplink.
Variable lib : Library.

Definition mk_interface (u : t) (uuid : key_t) (vnid : Z)
  : M (option interface) :=
  match m_type u with
  | VXLAN =>
      let vt := VxlanTunnel (m_vxlan_src u) (m_vxlan_dst u) vnid mode_STANDARD in
      OM_write uuid (O_interface vt) ;;;
      ret (Some vt)
  | VLAN =>
      uplink <- deref (m_uplink u) ;;
      let sb := SubInterface uplink admin_UP vnid in
      OM_write uuid (O_interface sb) ;;;
      ret (Some sb)
  end.

Definition configure_tap (u : t) (pfx : prefix_t) : M unit :=
  let itf := TapInterface "tuntap-0" type_TAP admin_UP pfx in
  OM_write UPLINK_KEY (O_interface itf) ;;;
  uplink <- deref (m_uplink u) ;;
  let subitf := SubInterface uplink admin_UP (m_vlan u) in
  let l3 := mk_l3_binding subitf pfx in
  OM_commit UPLINK_KEY (O_l3_binding l3) ;;;
  let ipUnnumber := mk_ip_unnumbered itf subitf in
  OM_write UPLINK_KEY (O_ip_unnumbered ipUnnumber) ;;;
  let arpProxyConfig :=
    mk_arp_proxy_config (to_v4 lib (pfx_address (low lib pfx)))
                        (to_v4 lib (pfx_address (high lib pfx))) in
  OM_write UPLINK_KEY (O_arp_proxy_config arpProxyConfig) ;;;
  let arpProxyBinding := mk_arp_proxy_binding itf in
  OM_write UPLINK_KEY (O_arp_proxy_binding arpProxyBinding).

(** The queued half of the DHCP event; returns the uplink as it leaves it. *)
Definition handle_dhcp_event_i (u : t) (lease : lease_t) : M t :=
  LOG "DHCP Event: " ;;;
  configure_tap u (host_prefix lease) ;;;
  ret (set_m_vxlan_src u (pfx_address (host_prefix lease))).

(** The listener half: it only hands the work to the task queue. *)
Definition handle_dhcp_event (u : t) (lease : lease_t) : M t :=
  λ s, (Ret u,
        set_taskQueue
          (dispatch lib "dhcp-config-event" (bind_handle_dhcp_event_i lease)
                    (st_taskQueue s)) s).

(** What the task queue does with a work item when its turn comes. *)
Definition run_task (w : task) (u : t) : M t :=
  match w with
  | bind_handle_dhcp_event_i lease => handle_dhcp_event_i u lease
  end.

(** The loop over the slave interfaces of a bond: each is written and
    joins the set of bond members. *)
Fixpoint enslave (sifs : list string) (slave_itfs : list bond_member)
  : M (list bond_member) :=
  match sifs with
  | [] => ret slave_itfs
  | sif :: rest =>
      let sitf := Interface sif (getIntfTypeFromName sif) admin_UP None None in
      OM_write UPLINK_KEY (O_interface sitf) ;;;
      let bm := mk_bond_member sitf member_ACTIVE rate_SLOW in
      enslave rest
        (if decide (bm ∈ slave_itfs) then slave_itfs else slave_itfs ++ [bm])
  end.

Definition configure (u : t) (fqdn : string) : M t :=
  let type := getIntfTypeFromName (m_iface u) in
  u <- (if decide (type_BOND = type) then
          let bitf := BondInterface (m_iface u) admin_UP bond_LACP lb_L2 in
          OM_write UPLINK_KEY (O_interface bitf) ;;;
          slave_itfs <- enslave (slave_ifaces u) [] ;;
          (if decide (slave_itfs = []) then ret ()
           else OM_write UPLINK_KEY
                  (O_bond_group_binding (mk_bond_group_binding bitf slave_itfs))) ;;;
          ret (set_m_uplink u (Some bitf))
        else
          let itf := Interface (m_iface u) type admin_UP None None in
          OM_write UPLINK_KEY (O_interface itf) ;;;
          ret (set_m_uplink u (Some itf))) ;;
  let v4_gbl := mk_route_domain 0 in
  OM_write UPLINK_KEY (O_route_domain v4_gbl) ;;;
  let v6_gbl := mk_route_domain 0 in
  OM_write UPLINK_KEY (O_route_domain v6_gbl) ;;;
  let lg := mk_lldp_global fqdn 5 2 in
  OM_write UPLINK_KEY (O_lldp_global lg) ;;;
  uplink <- deref (m_uplink u) ;;
  let lb := mk_lldp_binding uplink "uplink-interface" in
  OM_write UPLINK_KEY (O_lldp_binding lb) ;;;
  let subitf := SubInterface uplink admin_UP (m_vlan u) in
  OM_write UPLINK_KEY (O_interface subitf) ;;;
  let hostname := strip_domain fqdn in
  let dc := mk_dhcp_client subitf hostname (l2_address uplink) true in
  OM_write UPLINK_KEY (O_dhcp_client dc) ;;;
  lease <- get_lease ;;
  match lease with
  | Some l =>
      if decide (lease_state l ≠ DISCOVER) then
        LOG "DHCP present: " ;;;
        configure_tap u (host_prefix l) ;;;
        ret (set_m_vxlan_src u (pfx_address (host_prefix l)))
      else
        LOG "DHCP awaiting lease" ;;; ret u
  | None =>
      LOG "DHCP awaiting lease" ;;; ret u
  end.

(** Uplink::set(uplink, uplink_vlan, encap_name, remote_ip, port) *)
Definition set_vxlan (u : t) (uplink : string) (uplink_vlan : Z)
    (encap_name : string) (remote_ip : ip_address) (port : Z) : t :=
  mk VXLAN (m_vxlan_src u) remote_ip uplink uplink_vlan (m_uplink u)
     (slave_ifaces u) (dhcp_options u).

(** Uplink::set(uplink, uplink_vlan, encap_name) *)
Definition set_vlan (u : t) (uplink : string) (uplink_vlan : Z)
    (encap_name : string) : t :=
  mk VLAN (m_vxlan_src u) (m_vxlan_dst u) uplink uplink_vlan (m_uplink u)
     (slave_ifaces u) (dhcp_options u).

Definition insert_slave_ifaces (u : t) (name : string) : t :=
  mk (m_type u) (m_vxlan_src u) (m_vxlan_dst u) (m_iface u) (m_vlan u)
     (m_uplink u)
     (if decide (name ∈ slave_ifaces u) then slave_ifaces u
      else slave_ifaces u ++ [name])
     (dhcp_options u).

Definition insert_dhcp_options (u : t) (name : string) : t :=
  mk (m_type u) (m_vxlan_src u) (m_vxlan_dst u) (m_iface u) (m_vlan u)
     (m_uplink u) (slave_ifaces u)
     (if decide (name ∈ dhcp_options u) then dhcp_options u
      else dhcp_options u ++ [name]).

End Uplink.
End Uplink.

(** ** The policy model as the renderer reads it *)

Record RoutingDomain := mk_RoutingDomain { RoutingDomain_getURI : URI }.
Record BridgeDomain := mk_BridgeDomain { BridgeDomain_getURI : URI }.

Record Subnet := mk_Subnet
  { getAddress : option string;
    getPrefixLen : option Z;
    getVirtualRouterIp : option string }.

Record PolicyManager := mk_PolicyManager
  { groupExists : URI → bool;
    getVnidForGroup : URI → option Z;
    getRDForGroup : URI → option RoutingDomain;
    getBDForGroup : URI → option BridgeDomain;
    getBDVnidForGroup : URI → option Z;
    getRDVnidForGroup : URI → option Z;
    getBDMulticastIPForGroup : URI → option string;
    getSubnetsForGroup : URI → list Subnet;
    getRouterIpForSubnet : Subnet → option ip_address }.

Record VirtualRouter := mk_VirtualRouter { vr_mac : mac_address_t }.

(** A spine proxy for a vnid (VppSpineProxy is not among the sources): the
    local tunnel source and the three proxy destinations. *)
Record SpineProxy := mk_SpineProxy
  { sp_local : ip_address;
    sp_remote_v4 : ip_address;
    sp_remote_v6 : ip_address;
    sp_remote_mac : ip_address;
    sp_vnid : Z }.

(** Modelled from the spec: the transport path of section 4.4 builds
    overlay tunnels keyed off the group vnid.  Each mk_ call of the spine
    proxy asserts the tunnel to one of its destinations under the caller's
    key and returns it. *)
Definition spine_tunnel (sp : SpineProxy) (remote : ip_address) (key : key_t)
  : M interface :=
  let vt := VxlanTunnel (sp_local sp) remote (sp_vnid sp) mode_GBP in
  OM_write key (O_interface vt) ;;;
  ret vt.
Definition mk_v4 (sp : SpineProxy) := spine_tunnel sp (sp_remote_v4 sp).
Definition mk_v6 (sp : SpineProxy) := spine_tunnel sp (sp_remote_v6 sp).
Definition mk_mac (sp : SpineProxy) := spine_tunnel sp (sp_remote_mac sp).

(** Accessors of Uplink that the group renderer calls and whose bodies are
    not among the sources. *)
Record UplinkAccessors := mk_UplinkAccessors
  { spine_proxy : Uplink.t → Z → option SpineProxy;
    local_address : Uplink.t → ip_address;
    local_interface : Uplink.t → option interface }.

Record Runtime := mk_Runtime
  { policy_manager : PolicyManager;
    uplink : Uplink.t;
    vr : option VirtualRouter }.

(** ** EndPointGroupManager *)

Module EndPointGroupManager.

Record ForwardInfo := mk_ForwardInfo
  { vnid : Z;
    rdURI : option URI;
    rdId : Z;
    bdURI : option URI;
    bdId : Z }.

Definition set_vnid (f : ForwardInfo) (v : Z) : ForwardInfo :=
  mk_ForwardInfo v (rdURI f) (rdId f) (bdURI f) (bdId f).
Definition set_rdURI (f : ForwardInfo) (u : option URI) : ForwardInfo :=
  mk_ForwardInfo (vnid f) u (rdId f) (bdURI f) (bdId f).
Definition set_rdId (f : ForwardInfo) (i : Z) : ForwardInfo :=
  mk_ForwardInfo (vnid f) (rdURI f) i (bdURI f) (bdId f).
Definition set_bdURI (f : ForwardInfo) (u : option URI) : ForwardInfo :=
  mk_ForwardInfo (vnid f) (rdURI f) (rdId f) u (bdId f).
Definition set_bdId (f : ForwardInfo) (i : Z) : ForwardInfo :=
  mk_ForwardInfo (vnid f) (rdURI f) (rdId f) (bdURI f) i.

Section EndPointGroupManager.
Variable lib : Library.
Variable upl : UplinkAccessors.
(** A default-constructed ForwardInfo (the struct is declared in a header
    that is not among the sources). *)
Variable ForwardInfo_new : ForwardInfo.

Definition get_fwd_info (runtime : Runtime) (uri : URI) : M ForwardInfo :=
  let fwd := ForwardInfo_new in
  let polMgr := policy_manager runtime in
  let epgVnid := getVnidForGroup polMgr uri in
  match epgVnid with
  | None => throw NoFowardInfoException
  | Some v =>
      let fwd := set_vnid fwd v in
      let epgRd := getRDForGroup polMgr uri in
      let epgBd := getBDForGroup polMgr uri in
      match epgBd with
      | None => throw NoFowardInfoException
      | Some bd =>
          fwd <- match epgRd with
                 | Some rd =>
                     let fwd := set_rdURI fwd (Some (RoutingDomain_getURI rd)) in
                     match rdURI fwd with
                     | Some u =>
                         id <- id_gen_get RoutingDomain_CLASS_ID u ;;
                         ret (set_rdId fwd id)
                     | None => ret fwd
                     end
                 | None => ret fwd
                 end ;;
          let fwd := set_bdURI fwd (Some (BridgeDomain_getURI bd)) in
          u <- deref (bdURI fwd) ;;
          id <- id_gen_get BridgeDomain_CLASS_ID u ;;
          ret (set_bdId fwd id)
      end
  end.

Definition mk_mcast_tunnel (r : Runtime) (key : key_t) (vni : Z)
    (maddr : string) : M interface :=
  let dst := from_string lib maddr in
  itf <- deref (local_interface upl (uplink r)) ;;
  let vt := VxlanTunnelMcast (local_address upl (uplink r)) dst vni itf
                             mode_GBP in
  OM_write key (O_interface vt) ;;;
  itf <- deref (local_interface upl (uplink r)) ;;
  let via_uplink := path_via itf nh_IPV4 in
  let mroute :=
    mk_ip_mroute (to_v4 lib dst) 32
      [(via_uplink, itf_ACCEPT); (path_LOCAL, itf_FORWARD)] in
  OM_write key (O_ip_mroute mroute) ;;;
  itf <- deref (local_interface upl (uplink r)) ;;
  let igmp_b := mk_igmp_binding itf in
  OM_write key (O_igmp_binding igmp_b) ;;;
  let igmp_l := mk_igmp_listen igmp_b (to_v4 lib dst) in
  OM_write key (O_igmp_listen igmp_l) ;;;
  ret vt.

Definition mk_bvi (r : Runtime) (key : key_t) (bd : bridge_domain)
    (rd : route_domain) (mac : option mac_address_t) : M interface :=
  let bvi := Interface ("bvi-" +:+ pretty (bd_id bd)) type_BVI admin_UP
                       (Some rd) None in
  let bvi := match mac with
             | Some m => set_l2_address bvi m
             | None => match vr r with
                       | Some v => set_l2_address bvi (vr_mac v)
                       | None => bvi
                       end
             end in
  OM_write key (O_interface bvi) ;;;
  let l2_bvi := l2_binding_new bvi bd in
  OM_write key (O_l2_binding l2_bvi) ;;;
  let be := mk_bridge_domain_entry bd (to_mac (l2_address bvi)) bvi in
  OM_write key (O_bridge_domain_entry be) ;;;
  ret bvi.

(** The body of the try block of mk_group; its value is [gepg] as the
    block leaves it. *)
Definition mk_group_try (runtime : Runtime) (key : key_t) (uri : URI)
  : M (option gbp_endpoint_group) :=
  fwd <- get_fwd_info runtime uri ;;
  let bd := mk_bridge_domain (bdId fwd) learning_OFF in
  OM_write key (O_bridge_domain bd) ;;;
  let rd := mk_route_domain (rdId fwd) in
  OM_write key (O_route_domain rd) ;;;
  (* mk_bvi(runtime, key, bd, rd): the mac argument is left out *)
  bvi <- mk_bvi runtime key bd rd None ;;
  let spine_proxy := spine_proxy upl (uplink runtime) (vnid fwd) in
  gepg <-
    match spine_proxy with
    | Some sp =>
        (* TRANSPORT mode; the two tunnels are arguments of one
           constructor call, written here left to right *)
        v4 <- mk_v4 sp key ;;
        v6 <- mk_v6 sp key ;;
        let grd := mk_gbp_route_domain rd (Some v4) (Some v6) in
        OM_write key (O_gbp_route_domain grd) ;;;
        let bd_vnid := getBDVnidForGroup (policy_manager runtime) uri in
        let rd_vnid := getRDVnidForGroup (policy_manager runtime) uri in
        let bd_mcast := getBDMulticastIPForGroup (policy_manager runtime) uri in
        gepg <-
          match bd_vnid, bd_mcast with
          | Some bd_vnid, Some bd_mcast =>
              vt_mc <- mk_mcast_tunnel runtime key bd_vnid bd_mcast ;;
              let l2_vxbd := l2_binding_new vt_mc bd in
              OM_write key (O_l2_binding l2_vxbd) ;;;
              mac <- mk_mac sp key ;;
              let gbd := mk_gbp_bridge_domain bd bvi (Some mac) (Some vt_mc) in
              OM_write key (O_gbp_bridge_domain gbd) ;;;
              let gvx_bd := gbp_vxlan_bd bd_vnid gbd in
              OM_write key (O_gbp_vxlan gvx_bd) ;;;
              ret (Some (mk_gbp_endpoint_group (vnid fwd) None grd gbd))
          | _, _ => ret None
          end ;;
        match rd_vnid with
        | Some rd_vnid =>
            let gvx_rd := gbp_vxlan_rd rd_vnid grd in
            OM_write key (O_gbp_vxlan gvx_rd)
        | None => ret ()
        end ;;;
        ret gepg
    | None =>
        (* STITCHED mode *)
        encap_link <- Uplink.mk_interface (uplink runtime) key (vnid fwd) ;;
        link <- deref encap_link ;;
        let l2_upl := l2_binding_new link bd in
        let l2_upl := if decide (type_VXLAN ≠ type link)
                      then l2_binding_set l2_upl L2_VTR_POP_1 (vnid fwd)
                      else l2_upl in
        OM_write key (O_l2_binding l2_upl) ;;;
        let gbd := mk_gbp_bridge_domain bd bvi None None in
        OM_write key (O_gbp_bridge_domain gbd) ;;;
        let grd := mk_gbp_route_domain rd None None in
        OM_write key (O_gbp_route_domain grd) ;;;
        ret (Some (mk_gbp_endpoint_group (vnid fwd) (Some link) grd gbd))
    end ;;
  (* OM::write(key, *gepg) *)
  g <- deref gepg ;;
  OM_write key (O_gbp_endpoint_group g) ;;;
  ret gepg.

(** [gepg] is assigned only after get_fwd_info has returned, so it is
    still empty whenever the handler runs. *)
Definition mk_group (runtime : Runtime) (key : key_t) (uri : URI)
  : M (option gbp_endpoint_group) :=
  try_catch (mk_group_try runtime key uri)
    (λ nofwd, LOG ("NOT Updating endpoint-group:" +:+ uri) ;;; ret None).

(** One turn of the loop over the subnets of the group. *)
Definition render_subnet (epg_uuid : key_t) (bvi : interface)
    (bd : bridge_domain) (rd : route_domain) (pm : PolicyManager) (sn : Subnet)
  : M unit :=
  let routerIp := getRouterIpForSubnet pm sn in
  match getPrefixLen sn, getAddress sn with
  | Some len, Some addr =>
      match routerIp with
      | Some raddr =>
          let l3 := mk_l3_binding bvi (prefix_of lib raddr) in
          OM_write epg_uuid (O_l3_binding l3) ;;;
          let bae := mk_bridge_domain_arp_entry bd raddr
                       (to_mac (l2_address bvi)) in
          OM_write epg_uuid (O_bridge_domain_arp_entry bae)
      | None => ret ()
      end ;;;
      let pfx := mk_prefix (from_string lib addr) len in
      let gs := mk_gbp_subnet rd (low lib pfx) STITCHED_INTERNAL in
      OM_write epg_uuid (O_gbp_subnet gs)
  | _, _ => ret () (* continue *)
  end.

(** What handle_update does inside the mark-and-sweep scope. *)
Definition handle_update_body (m_runtime : Runtime) (epg_uuid : key_t)
    (epgURI : URI) : M unit :=
  LOG ("Updating endpoint-group:" +:+ epgURI) ;;;
  let pm := policy_manager m_runtime in
  if negb (groupExists pm epgURI) then
    LOG ("Deleting endpoint-group:" +:+ epgURI)
  else
    gepg <- mk_group m_runtime epg_uuid epgURI ;;
    match gepg with
    | Some gepg =>
        let bvi := gbd_bvi (gepg_bd gepg) in
        let bd := gbd_bd (gepg_bd gepg) in
        let rd := grd_rd (gepg_rd gepg) in
        let nb6 := mk_nat_binding bvi dir_INPUT IPV6 zone_INSIDE in
        let nb4 := mk_nat_binding bvi dir_INPUT IPV4 zone_INSIDE in
        OM_write epg_uuid (O_nat_binding nb4) ;;;
        OM_write epg_uuid (O_nat_binding nb6) ;;;
        let subnets := getSubnetsForGroup pm epgURI in
        for_each subnets (render_subnet epg_uuid bvi bd rd pm)
    | None => ret ()
    end.

Definition handle_update (m_runtime : Runtime) (epgURI : URI) : M unit :=
  let epg_uuid := epgURI in
  mark_n_sweep epg_uuid (handle_update_body m_runtime epg_uuid epgURI).

End EndPointGroupManager.
End EndPointGroupManager.

(** ** The property tree of the agent configuration

    boost::property_tree::ptree: a node holds a datum and an ordered list
    of keyed children.  A path is a dot-separated list of keys; it is
    followed from a node through the first child with each key. *)

#[warnings="-register-all"]
Inductive ptree := PTree (data : string) (children : list (string * ptree)).

Definition data (t : ptree) : string := let 'PTree d _ := t in d.
Definition children (t : ptree) : list (string * ptree) :=
  let 'PTree _ c := t in c.

(** The keys of a path: "a.b" is a then b; the empty path has none. *)
Fixpoint path_keys_from (cur s : string) : list string :=
  match s with
  | EmptyString => [cur]
  | String c s' =>
      if Ascii.eqb c (Ascii.ascii_of_nat 46) then cur :: path_keys_from EmptyString s'
      else path_keys_from (cur +:+ String c EmptyString) s'
  end.
Definition path_keys (path : string) : list string :=
  if decide (path = EmptyString) then [] else path_keys_from EmptyString path.

Fixpoint find_child (key : string) (cs : list (string * ptree))
  : option ptree :=
  match cs with
  | [] => None
  | (k, c) :: cs' => if decide (k = key) then Some c else find_child key cs'
  end.

Fixpoint walk_path (keys : list string) (t : ptree) : option ptree :=
  match keys with
  | [] => Some t
  | k :: keys' =>
      match find_child k (children t) with
      | Some c => walk_path keys' c
      | None => None
      end
  end.

Definition get_child_optional (path : string) (t : ptree) : option ptree :=
  walk_path (path_keys path) t.

(** The conversions get<uint16_t> and get<bool> apply to the datum of a
    node; they are boost's stream translators. *)
Record Translators := mk_translators
  { to_uint16 : string → option Z;
    to_bool : string → option bool }.

(** ** VPPRenderer *)

Module VPPRenderer.

Inductive LogLevel := DEBUG | INFO | WARNING | ERROR | FATAL.
Inductive log_level_t :=
| vom_CRITICAL | vom_ERROR | vom_WARNING | vom_INFO | vom_DEBUG.

(** The return after the switch is reached by no level. *)
Definition agentLevelToVom (level : LogLevel) : log_level_t :=
  match level with
  | DEBUG => vom_DEBUG
  | INFO => vom_INFO
  | WARNING => vom_WARNING
  | ERROR => vom_ERROR
  | FATAL => vom_CRITICAL
  end.

(** CrossConnect::xconnect_t(iface, vlan, ip) *)
Record xconnect_t := mk_xconnect
  { xc_iface : string; xc_vlan : Z; xc_ip : string }.

(** The calls the renderer makes into the manager, its cross-connect and
    the inspector, whose bodies are not among the sources. *)
Inductive call :=
| setVirtualRouter (virtualRouterEnabled routerAdv : bool) (mac : string)
| insert_xconnect (east west : xconnect_t)
| VppManager_start
| VppManager_registerModbListeners
| VppManager_stop
| inspector_reset (name : string).

Record t := mk
  { started : bool;
    (** vppManager->uplink() *)
    uplink : Uplink.t;
    calls : list call;
    log : list string }.

Definition set_started (b : bool) (r : t) : t :=
  mk b (uplink r) (calls r) (log r).
Definition with_uplink (f : Uplink.t → Uplink.t) (r : t) : t :=
  mk (started r) (f (uplink r)) (calls r) (log r).
Definition do_call (c : call) (r : t) : t :=
  mk (started r) (uplink r) (calls r ++ [c]) (log r).
Definition LOG (msg : string) (r : t) : t :=
  mk (started r) (uplink r) (calls r) (log r ++ [msg]).

Definition ENCAP_VXLAN := "encap.vxlan".
Definition ENCAP_VLAN := "encap.vlan".
Definition UPLINK_IFACE := "uplink-iface".
Definition UPLINK_SLAVES := "uplink-slaves".
Definition UPLINK_VLAN := "uplink-vlan".
Definition DHCP_OPTIONS := "dhcp-opt".
Definition ENCAP_IFACE := "encap-iface".
Definition REMOTE_IP := "remote-ip".
Definition REMOTE_PORT := "remote-port".
Definition VIRTUAL_ROUTER := "forwarding.virtual-router.enabled".
Definition VIRTUAL_ROUTER_MAC := "forwarding.virtual-router.mac".
Definition VIRTUAL_ROUTER_RA :=
  "forwarding.virtual-router.ipv6.router-advertisement".
Definition CROSS_CONNECT := "x-connect".
Definition EAST := "east".
Definition WEST := "west".
Definition IFACE := "iface".
Definition VLAN := "vlan".
Definition IP := "ip-address".

Section VPPRenderer.
Variable lib : Library.
Variable tr : Translators.
(** xconnect_t::to_string *)
Variable xconnect_to_string : xconnect_t → string.

(** get<T>(path, default): the default when the path leads nowhere or the
    datum does not convert. *)
Definition get_string (path dflt : string) (t : ptree) : string :=
  match get_child_optional path t with
  | Some c => data c
  | None => dflt
  end.
Definition get_uint16 (path : string) (dflt : Z) (t : ptree) : Z :=
  match get_child_optional path t with
  | Some c => default dflt (to_uint16 tr (data c))
  | None => dflt
  end.
Definition get_bool (path : string) (dflt : bool) (t : ptree) : bool :=
  match get_child_optional path t with
  | Some c => default dflt (to_bool tr (data c))
  | None => dflt
  end.

Definition setProperties (properties : ptree) (r : t) : t :=
  let r := LOG "Setting configuration for vpp renderer" r in
  let vxlan := get_child_optional ENCAP_VXLAN properties in
  let vlan := get_child_optional ENCAP_VLAN properties in
  let vr := get_child_optional VIRTUAL_ROUTER properties in
  let x_connect := get_child_optional CROSS_CONNECT properties in
  let r :=
    match vlan with
    | Some vlan =>
        let r := with_uplink
                   (λ u, Uplink.set_vlan u (get_string UPLINK_IFACE EmptyString vlan)
                                         (get_uint16 UPLINK_VLAN 0 vlan)
                                         (get_string ENCAP_IFACE EmptyString vlan)) r in
        let slaves := get_child_optional UPLINK_SLAVES vlan in
        let r :=
          match slaves with
          | Some slaves =>
              foldl (λ r s,
                       LOG (data s.2)
                         (with_uplink
                            (λ u, Uplink.insert_slave_ifaces u (data s.2)) r))
                    r (children slaves)
          | None => r
          end in
        let dhcp_options := get_child_optional DHCP_OPTIONS vlan in
        match dhcp_options with
        | Some dhcp_options =>
            foldl (λ r d,
                     LOG (data d.2)
                       (with_uplink
                          (λ u, Uplink.insert_dhcp_options u (data d.2)) r))
                  r (children dhcp_options)
        | None => r
        end
    | None =>
        match vxlan with
        | Some vxlan =>
            let remote_ip := from_string lib (get_string REMOTE_IP EmptyString vxlan) in
            (* boost::system::error_code ec; nothing assigns it *)
            let ec := false in
            if ec then
              LOG ("Invalid tunnel destination IP: "
                   +:+ get_string REMOTE_IP EmptyString vxlan +:+ ": ") r
            else
              let r :=
                with_uplink
                  (λ u, Uplink.set_vxlan u
                          (get_string UPLINK_IFACE EmptyString vxlan)
                          (get_uint16 UPLINK_VLAN 0 vxlan)
                          (get_string ENCAP_IFACE EmptyString vxlan)
                          remote_ip
                          (get_uint16 REMOTE_PORT 4789 vxlan)) r in
              (* read and not used *)
              let slaves := get_child_optional UPLINK_SLAVES properties in
              r
        | None => r
        end
    end in
  let r :=
    match vr with
    | Some vr =>
        do_call (setVirtualRouter
                   (get_bool VIRTUAL_ROUTER true vr)
                   (get_bool VIRTUAL_ROUTER_RA true vr)
                   (get_string VIRTUAL_ROUTER_MAC "00:22:bd:f8:19:ff" vr)) r
    | None => r
    end in
  let r :=
    match x_connect with
    | Some x_connect =>
        foldl (λ r x,
                 let east := get_child_optional EAST x.2 in
                 let west := get_child_optional WEST x.2 in
                 match east, west with
                 | Some east, Some west =>
                     let xcon_east :=
                       mk_xconnect (get_string IFACE EmptyString east)
                                   (get_uint16 VLAN 0 east)
                                   (get_string IP EmptyString east) in
                     let xcon_west :=
                       mk_xconnect (get_string IFACE EmptyString west)
                                   (get_uint16 VLAN 0 west)
                                   (get_string IP EmptyString west) in
                     LOG (xconnect_to_string xcon_west)
                       (LOG (xconnect_to_string xcon_east)
                          (do_call (insert_xconnect xcon_east xcon_west) r))
                 | _, _ => r
                 end)
              r (children x_connect)
    | None => r
    end in
  let inspect := get_string "inspect-socket" EmptyString properties in
  if decide (String.length inspect ≠ 0%nat)
  then do_call (inspector_reset inspect) r
  else r.

End VPPRenderer.

Definition start (r : t) : t :=
  if started r then r
  else
    let r := set_started true r in
    let r := do_call VppManager_start r in
    let r := do_call VppManager_registerModbListeners r in
    LOG "Starting vpp renderer plugin" r.

Definition stop (r : t) : t :=
  if negb (started r) then r
  else
    let r := set_started false r in
    let r := LOG "Stopping vpp renderer plugin" r in
    do_call VppManager_stop r.

End VPPRenderer.

(** ** MockCmdQ, the command queue of the unit tests *)

Module MockCmdQ.

(** The dynamic type of a command, as far as handle_cmd tells them
    apart. *)
Inductive cmd_kind :=
| Af_packet_create
| Create_vlan_subif
| other_cmd.

Inductive rc_t := rc_UNSET | rc_OK.

(** A command: its HW::item (a handle and a return code), set by the
    queue for the two create commands, and whether succeeded() has been
    called on it. *)
Record cmd := mk_cmd
  { kind : cmd_kind;
    item : option (Z * rc_t);
    succeeded : bool }.

(** Commands are held through shared pointers: the queue holds their
    addresses, the heap the commands. *)
Record t := mk
  { handle : Z;
    m_cmds : list nat }.

Definition MockCmdQ_new : t := mk 0 [].

(** enqueue of one command, by pointer or by shared pointer *)
Definition enqueue (c : nat) (q : t) : t := mk (handle q) (m_cmds q ++ [c]).

(** enqueue(std::queue<cmd*>&): the argument is drained into the queue;
    the result is the queue and what is left of the argument. *)
Fixpoint enqueue_all (cmds : list nat) (q : t) : t * list nat :=
  match cmds with
  | [] => (q, [])
  | c :: cmds' => enqueue_all cmds' (mk (handle q) (m_cmds q ++ [c]))
  end.

Definition dequeue (c : nat) (q : t) : t := q.

(** ++handle on a uint32_t *)
Definition next_handle (h : Z) : Z := (h + 1) mod 2 ^ 32.

Definition set_item (i : Z * rc_t) (c : cmd) : cmd :=
  mk_cmd (kind c) (Some i) (succeeded c).
Definition set_succeeded (c : cmd) : cmd := mk_cmd (kind c) (item c) true.

Definition handle_cmd (c : nat) (st : Z * gmap nat cmd) : Z * gmap nat cmd :=
  let '(handle, heap) := st in
  let '(handle, heap) :=
    match kind <$> heap !! c with
    | Some Af_packet_create =>
        let handle := next_handle handle in
        (handle, alter (set_item (handle, rc_OK)) c heap)
    | _ => (handle, heap)
    end in
  let '(handle, heap) :=
    match kind <$> heap !! c with
    | Some Create_vlan_subif =>
        let handle := next_handle handle in
        (handle, alter (set_item (handle, rc_OK)) c heap)
    | _ => (handle, heap)
    end in
  (handle, alter set_succeeded c heap).

(** The loop of write(), over what the queue holds. *)
Fixpoint write_loop (cmds : list nat) (st : Z * gmap nat cmd)
  : Z * gmap nat cmd :=
  match cmds with
  | [] => st
  | c :: cmds' => write_loop cmds' (handle_cmd c st)
  end.

Definition write (q : t) (heap : gmap nat cmd) : rc_t * t * gmap nat cmd :=
  let '(handle, heap) := write_loop (m_cmds q) (handle q, heap) in
  (rc_OK, mk handle [], heap).

Definition connect (q : t) : bool := true.
Definition disconnect (q : t) : t := q.

End MockCmdQ.

(** ** Vocabulary of the statements *)

(** [c] run in [s] returns normally, with a value and a state that
    satisfy [Q]. *)
Definition returns {A} (c : M A) (s : state) (Q : A → state → Prop) : Prop :=
  ∃ a s', c s = (Ret a, s') ∧ Q a s'.

(** From [s] to [s'] nothing asserted was withdrawn, and the lease and the
    task queue are the same. *)
Record om_step (s s' : state) : Prop := mk_om_step
  { step_asserted : ∀ k o,
      o ∈ om_asserted k (st_om s) → o ∈ om_asserted k (st_om s');
    step_lease : st_lease s' = st_lease s;
    step_queue : st_taskQueue s' = st_taskQueue s }.

(** [c] never lets an exception out. *)
Definition nothrow {A} (c : M A) : Prop := ∀ s e, (c s).1 ≠ Throw e.

(** The generator holds [id] for the pair: asking again returns [id] and
    allocates nothing. *)
Definition id_allocated (cid : class_id_t) (uri : URI) (id : Z)
    (g : IdGenerator) : Prop :=
  id_get cid uri g = (id, g).

(** [c] run in [s] dereferences an empty pointer. *)
Definition crashes {A} (c : M A) (s : state) : Prop := (c s).1 = Crash.

(** What the render of a group asserts for one of its subnets, when the
    subnet has a prefix length and an address: the stitched-internal entry
    for its prefix in the routing domain and, when it has a router address,
    the binding of that address on the BVI and the ARP entry that maps it
    to the BVI's link address. *)
Definition subnet_asserted (lib : Library) (bvi : interface)
    (bd : bridge_domain) (rd : route_domain) (pm : PolicyManager)
    (sn : Subnet) (objs : list om_object) : Prop :=
  ∀ len addr,
    getPrefixLen sn = Some len → getAddress sn = Some addr →
    O_gbp_subnet
      (mk_gbp_subnet rd (low lib (mk_prefix (from_string lib addr) len))
                     STITCHED_INTERNAL) ∈ objs
    ∧ ∀ raddr, getRouterIpForSubnet pm sn = Some raddr →
        O_l3_binding (mk_l3_binding bvi (prefix_of lib raddr)) ∈ objs
        ∧ O_bridge_domain_arp_entry
            (mk_bridge_domain_arp_entry bd raddr (to_mac (l2_address bvi)))
          ∈ objs.

(** The state in which handle_update calls mk_group: the scope is open and
    the first log line is written. *)
Definition pass_entry (epgURI : URI) (s : state) : state :=
  add_log ("Updating endpoint-group:" +:+ epgURI) (OM_mark epgURI s).

(** The forwarding information of a group is unresolved: the group was
    deleted, or its vnid or its bridge domain is absent. *)
Definition unresolved (pm : PolicyManager) (uri : URI) : Prop :=
  groupExists pm uri = false ∨ getVnidForGroup pm uri = None
  ∨ getBDForGroup pm uri = None.

(** ** Vocabulary of the further statements *)

(** A run of assertions under one key, in order. *)
Definition om_inserts (key : key_t) (ws : list om_object)
    (db : gmap key_t (list object_ref)) : gmap key_t (list object_ref) :=
  foldl (λ db o, om_insert key o db) db ws.

(** From [s] to [s'] no key other than [key] changed what it holds. *)
Definition om_frame (key : key_t) (s s' : state) : Prop :=
  ∀ k, k ≠ key → st_om s' !! k = st_om s !! k.

(** Every ID the generator [g] has given out, [g'] gives out too. *)
Definition ids_le (g g' : IdGenerator) : Prop :=
  ∀ cid uri id, id_allocated cid uri id g → id_allocated cid uri id g'.

(** The state after asserting [ws] under [key], logging [logs] and leaving
    the ID generator as [g']. *)
Definition wrote (key : key_t) (ws : list om_object) (logs : list string)
    (g' : IdGenerator) (s : state) : state :=
  mk_state (om_inserts key ws (st_om s)) g' (st_log s ++ logs) (st_lease s)
           (st_taskQueue s).

(** [c] reads nothing of the state but the ID generator, and all it does
    to the state is assert objects under [key], log, and allocate IDs; run
    again once its IDs are allocated, it returns the same value and asserts
    the same objects without allocating. *)
Definition stable_writer {A} (key : key_t) (c : M A) : Prop :=
  ∀ g, ∃ r ws logs g',
    ids_le g g'
    ∧ (∀ s, st_ids s = g → c s = (r, wrote key ws logs g' s))
    ∧ (∀ g2 s, ids_le g' g2 → st_ids s = g2 →
               c s = (r, wrote key ws logs g2 s)).

(** The state in which a mark-and-sweep scope leaves [s] when its body
    ended with [r]: swept, unless the process died inside the scope. *)
Definition scope_exit {A} (key : key_t) (r : outcome A) (s : state) : state :=
  match r with
  | Crash => s
  | _ => OM_sweep key s
  end.

(** The states differ in their logs at most, [s'] having [logs] more. *)
Definition logged (logs : list string) (s s' : state) : Prop :=
  s' = mk_state (st_om s) (st_ids s) (st_log s ++ logs) (st_lease s)
                (st_taskQueue s).

(** [c] keeps to [key]: it changes what no other key holds, withdraws
    nothing, leaves the lease and the task queue alone, and allocates no
    ID. *)
Definition confined {A} (key : key_t) (c : M A) : Prop :=
  ∀ s, om_frame key s (c s).2 ∧ om_step s (c s).2
       ∧ st_ids (c s).2 = st_ids s.

(** [sub] occurs in [s]. *)
Definition substring (sub s : string) : Prop :=
  ∃ pre post, s = pre +:+ sub +:+ post.

(** The interface configure builds for the uplink: a bond when the name
    says so, else an interface of the type the name says; and the interface
    it builds for a slave of the bond. *)
Definition uplink_interface (u : Uplink.t) : interface :=
  if decide (type_BOND = Uplink.getIntfTypeFromName (Uplink.m_iface u))
  then BondInterface (Uplink.m_iface u) admin_UP bond_LACP lb_L2
  else Interface (Uplink.m_iface u)
                 (Uplink.getIntfTypeFromName (Uplink.m_iface u)) admin_UP
                 None None.
Definition slave_interface (sif : string) : interface :=
  Interface sif (Uplink.getIntfTypeFromName sif) admin_UP None None.

(** The objects that only configure_tap asserts: the TAP interface and the
    addressing that hangs off it. *)
Definition tap_object (o : om_object) : bool :=
  match o with
  | O_interface (TapInterface _ _ _ _) => true
  | O_l3_binding _ | O_ip_unnumbered _ => true
  | O_arp_proxy_config _ | O_arp_proxy_binding _ => true
  | _ => false
  end.

(** What the agent does with a renderer over its life: it starts it, stops
    it, and hands it configuration, in any order and any number of
    times. *)
Inductive renderer_op :=
| op_start
| op_stop
| op_setProperties (properties : ptree).

Definition run_op (lib : Library) (tr : Translators)
    (xconnect_to_string : VPPRenderer.xconnect_t → string)
    (r : VPPRenderer.t) (o : renderer_op) : VPPRenderer.t :=
  match o with
  | op_start => VPPRenderer.start r
  | op_stop => VPPRenderer.stop r
  | op_setProperties p =>
      VPPRenderer.setProperties lib tr xconnect_to_string p r
  end.

(** The calls that start and stop the manager, among the calls made. *)
Definition is_lifecycle (c : VPPRenderer.call) : bool :=
  match c with
  | VPPRenderer.VppManager_start
  | VPPRenderer.VppManager_registerModbListeners
  | VPPRenderer.VppManager_stop => true
  | _ => false
  end.
Definition lifecycle (cs : list VPPRenderer.call) : list VPPRenderer.call :=
  filter (λ c, is_lifecycle c = true) cs.

(** From [r] to [r'] the renderer was neither started nor stopped. *)
Record config_step (r r' : VPPRenderer.t) : Prop := mk_config_step
  { cs_started : VPPRenderer.started r' = VPPRenderer.started r;
    cs_lifecycle :
      lifecycle (VPPRenderer.calls r') = lifecycle (VPPRenderer.calls r) }.


(** The data of the children of the node at [path], in order. *)
Definition child_data (path : string) (t : ptree) : list string :=
  match get_child_optional path t with
  | Some c => (λ kv : string * ptree, data kv.2) <$> children c
  | None => []
  end.

(** The create commands, which the mock queue gives a handle, among the
    commands at the addresses [cmds]. *)
Definition is_create (heap : gmap nat MockCmdQ.cmd) (c : nat) : bool :=
  match MockCmdQ.kind <$> heap !! c with
  | Some MockCmdQ.Af_packet_create | Some MockCmdQ.Create_vlan_subif => true
  | _ => false
  end.
Definition creates (heap : gmap nat MockCmdQ.cmd) (cmds : list nat) : Z :=
  Z.of_nat (length (filter (λ c, is_create heap c = true) cmds)).

(** [n] complete runs of the manager: started, listening, stopped. *)
Fixpoint manager_runs (n : nat) : list VPPRenderer.call :=
  match n with
  | O => []
  | S n' =>
      manager_runs n'
      ++ [VPPRenderer.VppManager_start;
          VPPRenderer.VppManager_registerModbListeners;
          VPPRenderer.VppManager_stop]
  end.

(** Adding to a set kept in insertion order, as the uplink does for its
    slaves and its DHCP options. *)
Definition set_inserts (l names : list string) : list string :=
  foldl (λ l n, if decide (n ∈ l) then l else l ++ [n]) l names.

(** Whatever [c] leaves asserted that was not asserted before, it asserted
    under [key], and it satisfies [P]. *)
Definition writes_only {A} (key : key_t) (P : om_object → Prop) (c : M A)
  : Prop :=
  ∀ s k o, o ∈ om_asserted k (st_om (c s).2) →
           o ∈ om_asserted k (st_om s) ∨ (k = key ∧ P o).

(** An encapsulation link on the uplink as it is now: a VXLAN tunnel from
    the uplink's source to its remote, or a sub-interface of the uplink's
    interface.  Objects of other kinds are not concerned. *)
Definition on_uplink (u : Uplink.t) (o : om_object) : Prop :=
  match o with
  | O_interface (VxlanTunnel src dst _ mode_STANDARD) =>
      src = Uplink.m_vxlan_src u ∧ dst = Uplink.m_vxlan_dst u
  | O_interface (SubInterface parent _ _) => Uplink.m_uplink u = Some parent
  | _ => True
  end.

(** ** A concrete policy model

    The objects of the repository's test fixture (VppManagerFixture): the
    uplink set("opflex-itf", 4093, "opflex-host"), a virtual router with MAC
    00:11:22:33:44:55, group epg0 with encap id 0xA0A in bridge domain bd0
    and routing domain rd0. *)

Module Fixture.

Definition mask (width len : Z) : Z :=
  Z.shiftl (Z.ones len) (width - len).

Definition lib0 : Library :=
  {| from_string := λ s,
       if decide (s = "10.20.44.1") then V4 0x0A142C01
       else if decide (s = "10.20.45.0") then V4 0x0A142D00
       else if decide (s = "224.1.1.1") then V4 0xE0010101
       else if decide (s = "2001:db8::") then
              V6 0x20010db8000000000000000000000000
       else V4 0;
     to_v4 := λ a, match a with V4 x => x | V6 _ => 0 end;
     prefix_of := λ a, mk_prefix a (match a with V4 _ => 32 | V6 _ => 128 end);
     low := λ p,
       match pfx_address p with
       | V4 x => mk_prefix (V4 (Z.land x (mask 32 (pfx_len p)))) (pfx_len p)
       | V6 x => mk_prefix (V6 (Z.land x (mask 128 (pfx_len p)))) (pfx_len p)
       end;
     high := λ p,
       match pfx_address p with
       | V4 x => mk_prefix (V4 (Z.lor x (Z.ones (32 - pfx_len p)))) (pfx_len p)
       | V6 x => mk_prefix (V6 (Z.lor x (Z.ones (128 - pfx_len p)))) (pfx_len p)
       end;
     dispatch := λ id w q, q ++ [(id, w)] |}.

Definition vMac : mac_address_t := 0x001122334455.

Definition epg0 : URI := "/PolicyUniverse/PolicySpace/test/GbpEpGroup/epg0/".
Definition epg1 : URI := "/PolicyUniverse/PolicySpace/test/GbpEpGroup/epg1/".
Definition epg2 : URI := "/PolicyUniverse/PolicySpace/test/GbpEpGroup/epg2/".
Definition bd0 : URI := "/PolicyUniverse/PolicySpace/test/GbpBridgeDomain/bd0/".
Definition rd0 : URI := "/PolicyUniverse/PolicySpace/test/GbpRoutingDomain/rd0/".

Definition subnetsfd0_1 : Subnet :=
  mk_Subnet (Some "10.20.44.1") (Some 24) (Some "10.20.44.1").
Definition subnetsfd0_2 : Subnet :=
  mk_Subnet (Some "2001:db8::") (Some 32) None.
(** a subnet that has an address and a router address but no prefix length *)
Definition subnet_no_len : Subnet :=
  mk_Subnet (Some "10.20.45.0") None (Some "10.20.45.1").

Definition router_ip (sn : Subnet) : option ip_address :=
  match getVirtualRouterIp sn with
  | Some s => Some (from_string lib0 s)
  | None => None
  end.

(** epg0 is fully specified, epg1 has an encap id but no bridge domain,
    epg2 no longer exists. *)
Definition pm0 (subnets : list Subnet) : PolicyManager :=
  {| groupExists := λ u, bool_decide (u = epg0) || bool_decide (u = epg1);
     getVnidForGroup := λ u,
       if decide (u = epg0) then Some 0xA0A
       else if decide (u = epg1) then Some 0xA0B else None;
     getRDForGroup := λ u,
       if decide (u = epg0) then Some (mk_RoutingDomain rd0) else None;
     getBDForGroup := λ u,
       if decide (u = epg0) then Some (mk_BridgeDomain bd0) else None;
     getBDVnidForGroup := λ _, None;
     getRDVnidForGroup := λ _, None;
     getBDMulticastIPForGroup := λ _, Some "224.1.1.1";
     getSubnetsForGroup := λ u, if decide (u = epg0) then subnets else [];
     getRouterIpForSubnet := router_ip |}.

Definition v_phy : interface :=
  Interface "opflex-itf" type_AFPACKET admin_UP None None.

Definition uplink_vlan : Uplink.t :=
  Uplink.mk Uplink.VLAN (V4 0) (V4 0) "opflex-itf" 4093 (Some v_phy) [] [].
Definition uplink_vxlan : Uplink.t :=
  Uplink.mk Uplink.VXLAN (V4 0x0A000001) (V4 0x0A000002) "opflex-itf" 4093
            (Some v_phy) [] [].
(** an uplink set up from the configuration but not configured yet *)
Definition uplink_fresh : Uplink.t :=
  Uplink.mk Uplink.VLAN (V4 0) (V4 0) "opflex-itf" 4093 None [] [].

(** no spine proxy: stitched mode *)
Definition upl_stitched : UplinkAccessors :=
  {| spine_proxy := λ _ _, None;
     local_address := Uplink.m_vxlan_src;
     local_interface := Uplink.m_uplink |}.
(** a spine proxy for every vnid: transport mode *)
Definition upl_transport : UplinkAccessors :=
  {| spine_proxy := λ u vnid,
       Some (mk_SpineProxy (Uplink.m_vxlan_src u) (V4 0x0A000064)
                           (V4 0x0A000065) (V4 0x0A000066) vnid);
     local_address := Uplink.m_vxlan_src;
     local_interface := Uplink.m_uplink |}.

Definition fwd0 : EndPointGroupManager.ForwardInfo :=
  EndPointGroupManager.mk_ForwardInfo 0 None 0 None 0.

Definition rt0 (subnets : list Subnet) : Runtime :=
  mk_Runtime (pm0 subnets) uplink_vlan (Some (mk_VirtualRouter vMac)).
Definition rt_vxlan : Runtime :=
  mk_Runtime (pm0 []) uplink_vxlan (Some (mk_VirtualRouter vMac)).

Definition s0 : state := mk_state ∅ [] [] None [].

(** the state after a first render of epg0 *)
Definition s1 : state :=
  snd (EndPointGroupManager.handle_update lib0 upl_stitched fwd0
         (rt0 [subnetsfd0_1]) epg0 s0).

Definition lease0 : lease_t :=
  mk_lease BOUND (mk_prefix (V4 0xC0A80105) 24).

Definition v_rd : route_domain := mk_route_domain 1.
Definition v_bd_epg0 : bridge_domain := mk_bridge_domain 1 learning_OFF.
Definition v_bvi_epg0 : interface :=
  Interface "bvi-1" type_BVI admin_UP (Some v_rd) (Some vMac).
Definition v_upl_epg0 : interface := SubInterface v_phy admin_UP 0xA0A.

Definition v_epg0 : gbp_endpoint_group :=
  mk_gbp_endpoint_group 0xA0A (Some v_upl_epg0)
    (mk_gbp_route_domain v_rd None None)
    (mk_gbp_bridge_domain v_bd_epg0 v_bvi_epg0 None None).

(** the forwarding information of epg0 *)
Definition fwd_epg0 : EndPointGroupManager.ForwardInfo :=
  EndPointGroupManager.mk_ForwardInfo 0xA0A (Some rd0) 1 (Some bd0) 1.

(** the policy model once every group has been removed *)
Definition pm_gone : PolicyManager :=
  {| groupExists := λ _, false;
     getVnidForGroup := λ _, None;
     getRDForGroup := λ _, None;
     getBDForGroup := λ _, None;
     getBDVnidForGroup := λ _, None;
     getRDVnidForGroup := λ _, None;
     getBDMulticastIPForGroup := λ _, None;
     getSubnetsForGroup := λ _, [];
     getRouterIpForSubnet := router_ip |}.
Definition rt_gone : Runtime :=
  mk_Runtime pm_gone uplink_vlan (Some (mk_VirtualRouter vMac)).

(** a database in which the key of epg0 holds an object that no render of
    epg0 asserts *)
Definition s_left_over : state :=
  mk_state {[ epg0 := [mk_ref (O_route_domain (mk_route_domain 77)) false] ]}
           [] [] None [].

(** the runtime of an agent whose uplink has not been configured *)
Definition rt_fresh : Runtime :=
  mk_Runtime (pm0 []) uplink_fresh (Some (mk_VirtualRouter vMac)).

(** An agent configuration for the renderer: both encapsulations, a
    virtual router that is switched off and has a MAC of its own, and an
    inspection socket. *)
Definition leaf (d : string) : ptree := PTree d [].
Definition config0 : ptree :=
  PTree EmptyString
    [ ("encap",
       PTree EmptyString
         [ ("vxlan",
            PTree EmptyString
              [ ("uplink-iface", leaf "eth9");
                ("uplink-vlan", leaf "4000");
                ("remote-ip", leaf "224.1.1.1") ]);
           ("vlan",
            PTree EmptyString
              [ ("uplink-iface", leaf "opflex-itf");
                ("uplink-vlan", leaf "4093");
                ("encap-iface", leaf "opflex-host");
                ("uplink-slaves",
                 PTree EmptyString [(EmptyString, leaf "eth0"); (EmptyString, leaf "eth1");
                           (EmptyString, leaf "eth0")]) ]) ]);
      ("forwarding",
       PTree EmptyString
         [ ("virtual-router",
            PTree EmptyString
              [ ("enabled", leaf "false");
                ("mac", leaf "aa:bb:cc:dd:ee:ff") ]) ]);
      ("inspect-socket", leaf "/var/run/vpp-inspect.sock") ].

Definition tr0 : Translators :=
  {| to_uint16 := λ s,
       if decide (s = "4093") then Some 4093
       else if decide (s = "4000") then Some 4000 else None;
     to_bool := λ s,
       if decide (s = "true") then Some true
       else if decide (s = "false") then Some false else None |}.

Definition xconnect_to_string0 (x : VPPRenderer.xconnect_t) : string :=
  VPPRenderer.xc_iface x.

(** a renderer as its constructor leaves it *)
Definition renderer0 : VPPRenderer.t :=
  VPPRenderer.mk false uplink_fresh [] [].

(** a mock queue whose handle counter is at its last value, holding an
    af-packet create, some other command and a sub-interface create *)
Definition mock_heap : gmap nat MockCmdQ.cmd :=
  {[ 0%nat := MockCmdQ.mk_cmd MockCmdQ.Af_packet_create None false;
     1%nat := MockCmdQ.mk_cmd MockCmdQ.other_cmd None false;
     2%nat := MockCmdQ.mk_cmd MockCmdQ.Create_vlan_subif None false ]}.
Definition mock_q : MockCmdQ.t := MockCmdQ.mk (2 ^ 32 - 1) [0; 1; 2]%nat.

(** the VXLAN uplink after a lease with another address has arrived *)
Definition rt_vxlan_moved : Runtime :=
  mk_Runtime (pm0 [])
    (Uplink.set_m_vxlan_src uplink_vxlan (V4 0x0A000009))
    (Some (mk_VirtualRouter vMac)).
(** the state after a render of epg0 over the VXLAN uplink *)
Definition s_vxlan : state :=
  snd (EndPointGroupManager.handle_update lib0 upl_stitched fwd0 rt_vxlan
         epg0 s0).


Definition is_gbp_subnet (o : om_object) : bool :=
  match o with O_gbp_subnet _ => true | _ => false end.
Definition is_l3_binding (o : om_object) : bool :=
  match o with O_l3_binding _ => true | _ => false end.

End Fixture.

(** * Properties *)

(** ** The object model database *)

Section om_facts.
Implicit Types (db : gmap key_t (list object_ref)) (key k : key_t)
               (o : om_object).

Lemma om_find_insert key db l : om_find key (<[key := l]> db) = l.
Proof. unfold om_find. by rewrite lookup_insert_eq. Qed.

Lemma om_find_insert_ne key k db l :
  k ≠ key → om_find k (<[key := l]> db) = om_find k db.
Proof. intros. unfold om_find. by rewrite lookup_insert_ne. Qed.

Lemma om_find_om_insert_ne key k o db :
  k ≠ key → om_find k (om_insert key o db) = om_find k db.
Proof.
  intros. unfold om_insert. case_decide; by apply om_find_insert_ne.
Qed.

Lemma om_find_om_mark_ne key k db :
  k ≠ key → om_find k (om_mark key db) = om_find k db.
Proof. intros. by apply om_find_insert_ne. Qed.

Lemma om_find_om_sweep_ne key k db :
  k ≠ key → om_find k (om_sweep key db) = om_find k db.
Proof. intros. by apply om_find_insert_ne. Qed.

(** Opening the scope leaves nothing asserted under the key. *)
Lemma om_asserted_mark key db : om_asserted key (om_mark key db) = [].
Proof.
  unfold om_asserted, om_mark. rewrite om_find_insert.
  induction (om_find key db) as [|r l IH]; [done|].
  rewrite fmap_cons, filter_cons_False; [done|]. by simpl.
Qed.

(** Opening the scope keeps the objects of the key, all of them stale. *)
Lemma om_owned_mark key db : om_owned key (om_mark key db) = om_owned key db.
Proof.
  unfold om_owned, om_mark. rewrite om_find_insert.
  rewrite <-list_fmap_compose. by apply list_fmap_ext.
Qed.

(** Closing the scope leaves the key with what was asserted in the pass. *)
Lemma om_owned_sweep key db : om_owned key (om_sweep key db) = om_asserted key db.
Proof. unfold om_owned, om_sweep, om_asserted. by rewrite om_find_insert. Qed.

Lemma om_asserted_sweep key db :
  om_asserted key (om_sweep key db) = om_asserted key db.
Proof.
  unfold om_sweep, om_asserted. rewrite om_find_insert.
  by rewrite list_filter_filter_l.
Qed.

Lemma om_asserted_owned key db o :
  o ∈ om_asserted key db → o ∈ om_owned key db.
Proof.
  unfold om_asserted, om_owned. rewrite !list_elem_of_fmap.
  intros (r & -> & Hr). apply list_elem_of_filter in Hr as [_ Hr].
  exists r. by split.
Qed.

(** An object just asserted is asserted. *)
Lemma om_asserted_insert key o db : o ∈ om_asserted key (om_insert key o db).
Proof.
  unfold om_asserted, om_insert. case_decide as Hin; rewrite om_find_insert.
  - apply list_elem_of_fmap in Hin as (r & -> & Hr).
    apply list_elem_of_fmap. exists (mk_ref (ref_obj r) false). split; [done|].
    apply list_elem_of_filter. split; [done|].
    apply list_elem_of_fmap. exists r. split; [|done].
    unfold clear_stale. by rewrite decide_True.
  - apply list_elem_of_fmap. exists (mk_ref o false). split; [done|].
    apply list_elem_of_filter. split; [done|].
    apply elem_of_app. right. by apply list_elem_of_singleton.
Qed.

(** Asserting an object never withdraws another one, under any key. *)
Lemma om_asserted_insert_mono key k o o' db :
  o' ∈ om_asserted k db → o' ∈ om_asserted k (om_insert key o db).
Proof.
  destruct (decide (k = key)) as [->|Hne].
  2:{ unfold om_asserted. by rewrite om_find_om_insert_ne. }
  unfold om_asserted, om_insert. rewrite !list_elem_of_fmap.
  intros (r & -> & Hr'). apply list_elem_of_filter in Hr' as [Hst Hr].
  case_decide; rewrite om_find_insert.
  - exists (clear_stale o r). unfold clear_stale. case_decide as Heq.
    + split; [by simpl|]. apply list_elem_of_filter. split; [done|].
      apply list_elem_of_fmap. exists r. by rewrite decide_True.
    + split; [done|]. apply list_elem_of_filter. split; [done|].
      apply list_elem_of_fmap. exists r. by rewrite decide_False.
  - exists r. split; [done|]. apply list_elem_of_filter. split; [done|].
    apply elem_of_app. by left.
Qed.

(** Asserting adds at most the asserted object to what a key holds. *)
Lemma om_owned_insert key k o o' db :
  o' ∈ om_owned k (om_insert key o db) →
  o' ∈ om_owned k db ∨ (k = key ∧ o' = o).
Proof.
  destruct (decide (k = key)) as [->|Hne].
  2:{ unfold om_owned. rewrite om_find_om_insert_ne by done. by left. }
  unfold om_owned, om_insert. case_decide as Hin; rewrite om_find_insert.
  - rewrite <-list_fmap_compose. intros Ho. left.
    apply list_elem_of_fmap in Ho as (r & -> & Hr). simpl.
    unfold clear_stale. case_decide as Heq; simpl.
    + by rewrite <-Heq at 1; apply list_elem_of_fmap_2.
    + by apply list_elem_of_fmap_2.
  - rewrite fmap_app, elem_of_app. simpl. rewrite list_elem_of_singleton.
    intros [Ho| ->]; [by left|by right].
Qed.

(** What is asserted under a key after asserting [o] was asserted before,
    or is [o]. *)
Lemma om_asserted_insert_inv key k o o' db :
  o' ∈ om_asserted k (om_insert key o db) →
  o' ∈ om_asserted k db ∨ (k = key ∧ o' = o).
Proof.
  destruct (decide (k = key)) as [->|Hne].
  2:{ unfold om_asserted. rewrite om_find_om_insert_ne by done. by left. }
  unfold om_asserted, om_insert. case_decide as Hin; rewrite om_find_insert.
  - intros Ho. apply list_elem_of_fmap in Ho as (r & -> & Hr).
    apply list_elem_of_filter in Hr as [Hfresh Hr'].
    apply list_elem_of_fmap in Hr' as (r0 & -> & Hr0).
    unfold clear_stale in *. case_decide as Heq; simpl in *.
    + by right.
    + left. apply list_elem_of_fmap_2. by apply list_elem_of_filter.
  - rewrite filter_app, fmap_app, elem_of_app.
    rewrite filter_cons_True by done. simpl. rewrite list_elem_of_singleton.
    intros [Ho| ->]; [by left|by right].
Qed.

End om_facts.

(** ** The monad *)

Section monad_facts.
Context {A B : Type}.

Lemma returns_ret (a : A) s Q : Q a s → returns (ret a) s Q.
Proof. intros. by exists a, s. Qed.

Lemma returns_bind (c : M A) (k : A → M B) s Q :
  returns c s (λ a s', returns (k a) s' Q) → returns (bind c k) s Q.
Proof.
  intros (a & s' & Hc & b & s'' & Hk & HQ). exists b, s''.
  unfold bind. by rewrite Hc.
Qed.

Lemma returns_conseq (c : M A) s (Q Q' : A → state → Prop) :
  returns c s Q → (∀ a s', Q a s' → Q' a s') → returns c s Q'.
Proof. intros (a & s' & Hc & HQ) HQQ'. exists a, s'. auto. Qed.

Lemma returns_deref (a : A) s Q : Q a s → returns (deref (Some a)) s Q.
Proof. intros. by exists a, s. Qed.

Lemma returns_eq (c : M A) s a s' Q :
  c s = (Ret a, s') → Q a s' → returns c s Q.
Proof. intros. by exists a, s'. Qed.

End monad_facts.

Lemma returns_OM_write key o s Q :
  Q () (modify_om (om_insert key o) s) → returns (OM_write key o) s Q.
Proof. intros. by eexists _, _. Qed.

Lemma returns_OM_commit key o s Q :
  Q () (modify_om (om_insert key o) s) → returns (OM_commit key o) s Q.
Proof. intros. by eexists _, _. Qed.

Lemma returns_LOG msg s Q : Q () (add_log msg s) → returns (LOG msg) s Q.
Proof. intros. by eexists _, _. Qed.

Lemma returns_id_gen_get cid uri s Q :
  Q (id_get cid uri (st_ids s)).1 (set_ids (id_get cid uri (st_ids s)).2 s) →
  returns (id_gen_get cid uri) s Q.
Proof. intros. by eexists _, _. Qed.

Lemma returns_get_lease s Q : Q (st_lease s) s → returns get_lease s Q.
Proof. intros. by eexists _, _. Qed.

Global Instance om_step_preorder : PreOrder om_step.
Proof.
  split.
  - intros s. by split.
  - intros s1 s2 s3 [H1 L1 Q1] [H2 L2 Q2]. split; [auto|congruence..].
Qed.

Lemma om_step_write key o s : om_step s (modify_om (om_insert key o) s).
Proof. split; [|done..]. intros k o'. apply om_asserted_insert_mono. Qed.

Lemma om_step_log msg s : om_step s (add_log msg s).
Proof. by split. Qed.

Lemma om_step_ids g s : om_step s (set_ids g s).
Proof. by split. Qed.

Lemma asserted_write key o s :
  o ∈ om_asserted key (st_om (modify_om (om_insert key o) s)).
Proof. apply om_asserted_insert. Qed.

Lemma asserted_write_inv key k o o' s :
  o' ∈ om_asserted k (st_om (modify_om (om_insert key o) s)) →
  o' ∈ om_asserted k (st_om s) ∨ (k = key ∧ o' = o).
Proof. apply om_asserted_insert_inv. Qed.

Lemma asserted_step s s' k o :
  om_step s s' → o ∈ om_asserted k (st_om s) → o ∈ om_asserted k (st_om s').
Proof. intros []. auto. Qed.

(** Symbolic execution of straight-line code, one statement at a time.
    The statement is recognised by its syntax, so that a step never
    re-reads a state as the result of a write that is already in it. *)
Ltac mstep :=
  cbv beta iota zeta;
  lazymatch goal with
  | |- returns (bind _ _) _ _ => apply returns_bind
  | |- returns (OM_write _ _) _ _ => apply returns_OM_write
  | |- returns (OM_commit _ _) _ _ => apply returns_OM_commit
  | |- returns (LOG _) _ _ => apply returns_LOG
  | |- returns (id_gen_get _ _) _ _ => apply returns_id_gen_get
  | |- returns get_lease _ _ => apply returns_get_lease
  | |- returns (deref (Some _)) _ _ => apply returns_deref
  | |- returns (ret _) _ _ => apply returns_ret
  end.

(** The objects written so far are asserted in the state reached. *)
Ltac asserted :=
  repeat first
    [ apply asserted_write
    | apply (asserted_step _ _ _ _ (om_step_write _ _ _))
    | apply (asserted_step _ _ _ _ (om_step_log _ _))
    | apply (asserted_step _ _ _ _ (om_step_ids _ _))
    | eassumption ].

Ltac stepped :=
  repeat first
    [ reflexivity
    | eassumption
    | etransitivity; [|apply om_step_write]
    | etransitivity; [|apply om_step_log]
    | etransitivity; [|apply om_step_ids] ].

(** ** Uplink *)

Section uplink_facts.
Variable lib : Library.

Lemma enslave_returns sifs acc s :
  returns (Uplink.enslave sifs acc) s (λ _ s', om_step s s').
Proof.
  revert acc s. induction sifs as [|sif rest IH]; intros acc s; simpl.
  - by apply returns_ret.
  - do 2 mstep. eapply returns_conseq; [apply IH|].
    intros ? s' Hs'. etransitivity; [apply om_step_write|exact Hs'].
Qed.

(** The first statement of configure: the uplink interface is written and
    recorded, whatever its kind. *)
Lemma configure_owns_uplink (u : Uplink.t) s (k : Uplink.t → M Uplink.t) Q :
  (∀ itf s', om_step s s' →
     returns (k (Uplink.set_m_uplink u (Some itf))) s' Q) →
  returns
    (u' <- (if decide (type_BOND = Uplink.getIntfTypeFromName (Uplink.m_iface u))
            then
              let bitf := BondInterface (Uplink.m_iface u) admin_UP bond_LACP
                                        lb_L2 in
              OM_write Uplink.UPLINK_KEY (O_interface bitf) ;;;
              slave_itfs <- Uplink.enslave (Uplink.slave_ifaces u) [] ;;
              (if decide (slave_itfs = []) then ret ()
               else OM_write Uplink.UPLINK_KEY
                      (O_bond_group_binding
                         (mk_bond_group_binding bitf slave_itfs))) ;;;
              ret (Uplink.set_m_uplink u (Some bitf))
            else
              let itf := Interface (Uplink.m_iface u)
                           (Uplink.getIntfTypeFromName (Uplink.m_iface u))
                           admin_UP None None in
              OM_write Uplink.UPLINK_KEY (O_interface itf) ;;;
              ret (Uplink.set_m_uplink u (Some itf))) ;;
     k u') s Q.
Proof.
  intros Hk. mstep. case_decide.
  - do 3 mstep. eapply returns_conseq; [apply enslave_returns|].
    intros slave_itfs s' Hs'. cbv beta in Hs' |- *. mstep. case_decide.
    + do 2 mstep. apply Hk. etransitivity; [apply om_step_write|done].
    + do 2 mstep. apply Hk.
      etransitivity; [|apply om_step_write].
      etransitivity; [apply om_step_write|done].
  - do 3 mstep. apply Hk. apply om_step_write.
Qed.

(** configure_tap asserts the TAP interface and what hangs off it. *)
Lemma configure_tap_returns (u : Uplink.t) uplink pfx s :
  Uplink.m_uplink u = Some uplink →
  returns (Uplink.configure_tap lib u pfx) s (λ _ s',
    om_step s s' ∧
    let itf := TapInterface "tuntap-0" type_TAP admin_UP pfx in
    let subitf := SubInterface uplink admin_UP (Uplink.m_vlan u) in
    Forall (λ o, o ∈ om_asserted Uplink.UPLINK_KEY (st_om s'))
      [ O_interface itf;
        O_l3_binding (mk_l3_binding subitf pfx);
        O_ip_unnumbered (mk_ip_unnumbered itf subitf);
        O_arp_proxy_config
          (mk_arp_proxy_config (to_v4 lib (pfx_address (low lib pfx)))
                               (to_v4 lib (pfx_address (high lib pfx))));
        O_arp_proxy_binding (mk_arp_proxy_binding itf) ]).
Proof.
  intros Hup. unfold Uplink.configure_tap. rewrite Hup.
  repeat mstep. split; [stepped|].
  repeat (apply Forall_cons; split; [asserted|]). constructor.
Qed.

(** C6. Uplink::mk_interface(uuid, vnid) picks the encapsulation link by the
    encapsulation mode alone.  In VXLAN mode it asserts under [uuid], and
    returns, the VXLAN tunnel from the recorded source to the configured
    remote with vni [vnid]; in VLAN mode it asserts and returns the
    sub-interface of the uplink interface tagged [vnid]. *)
Theorem mk_interface_by_mode (u : Uplink.t) (uuid : key_t) (vnid : Z) s :
  (Uplink.m_type u = Uplink.VXLAN →
   let vt := VxlanTunnel (Uplink.m_vxlan_src u) (Uplink.m_vxlan_dst u) vnid
                         mode_STANDARD in
   Uplink.mk_interface u uuid vnid s
   = (Ret (Some vt), modify_om (om_insert uuid (O_interface vt)) s))
  ∧ (Uplink.m_type u = Uplink.VLAN →
     ∀ itf, Uplink.m_uplink u = Some itf →
     let sb := SubInterface itf admin_UP vnid in
     Uplink.mk_interface u uuid vnid s
     = (Ret (Some sb), modify_om (om_insert uuid (O_interface sb)) s)).
Proof.
  unfold Uplink.mk_interface. split.
  - by intros ->.
  - by intros -> itf ->.
Qed.

(** C8. When the DHCP client already holds a lease whose state is not
    DISCOVER at the time configure runs, configure itself applies it: it
    returns with the TAP interface and its addressing asserted from the
    lease's host prefix, with the lease address recorded as the VXLAN
    tunnel source, and with nothing handed to the task queue. *)
Theorem configure_applies_existing_lease (u : Uplink.t) (fqdn : string) s l :
  st_lease s = Some l →
  lease_state l ≠ DISCOVER →
  returns (Uplink.configure lib u fqdn) s (λ u' s',
    Uplink.m_vxlan_src u' = pfx_address (host_prefix l)
    ∧ st_taskQueue s' = st_taskQueue s
    ∧ ∃ uplink, Uplink.m_uplink u' = Some uplink ∧
        let itf := TapInterface "tuntap-0" type_TAP admin_UP (host_prefix l) in
        let subitf := SubInterface uplink admin_UP (Uplink.m_vlan u) in
        Forall (λ o, o ∈ om_asserted Uplink.UPLINK_KEY (st_om s'))
          [ O_interface itf;
            O_l3_binding (mk_l3_binding subitf (host_prefix l));
            O_ip_unnumbered (mk_ip_unnumbered itf subitf);
            O_arp_proxy_config
              (mk_arp_proxy_config
                 (to_v4 lib (pfx_address (low lib (host_prefix l))))
                 (to_v4 lib (pfx_address (high lib (host_prefix l)))));
            O_arp_proxy_binding (mk_arp_proxy_binding itf) ]).
Proof.
  intros Hlease Hstate. unfold Uplink.configure.
  apply configure_owns_uplink. intros itf s1 Hs1.
  repeat mstep. cbn [Uplink.m_uplink Uplink.set_m_uplink]. repeat mstep.
  cbn [st_lease modify_om].
  rewrite (step_lease _ _ Hs1), Hlease. rewrite decide_True by done.
  do 3 mstep.
  eapply returns_conseq;
    [apply (configure_tap_returns _ itf); reflexivity|].
  intros ? s' [Hs' Hobjs]. cbv beta in Hs', Hobjs. mstep. split; [done|]. split.
  - rewrite (step_queue _ _ Hs'). cbn. apply (step_queue _ _ Hs1).
  - exists itf. split; [done|]. exact Hobjs.
Qed.

(** C9. handle_dhcp_event changes nothing but the task queue: the uplink,
    the object model, the ID generator, the log and the lease are as
    before, and the queue is the result of dispatching the work item
    "dhcp-config-event".  That work item is handle_dhcp_event_i, and it is
    handle_dhcp_event_i that configures the TAP interface and records the
    lease address as the tunnel source. *)
Theorem handle_dhcp_event_only_dispatches (u : Uplink.t) (lease : lease_t) s :
  (let r := Uplink.handle_dhcp_event lib u lease s in
   r.1 = Ret u
   ∧ st_om r.2 = st_om s ∧ st_ids r.2 = st_ids s ∧ st_log r.2 = st_log s
   ∧ st_lease r.2 = st_lease s
   ∧ st_taskQueue r.2
     = dispatch lib "dhcp-config-event" (bind_handle_dhcp_event_i lease)
                (st_taskQueue s))
  ∧ (∀ u1 s1, Uplink.run_task lib (bind_handle_dhcp_event_i lease) u1 s1
              = Uplink.handle_dhcp_event_i lib u1 lease s1)
  ∧ (∀ u1 s1 uplink, Uplink.m_uplink u1 = Some uplink →
       returns (Uplink.handle_dhcp_event_i lib u1 lease) s1 (λ u2 s2,
         u2 = Uplink.set_m_vxlan_src u1 (pfx_address (host_prefix lease))
         ∧ O_interface (TapInterface "tuntap-0" type_TAP admin_UP
                                     (host_prefix lease))
           ∈ om_asserted Uplink.UPLINK_KEY (st_om s2))).
Proof.
  split; [done|]. split; [done|].
  intros u1 s1 uplink Hup. unfold Uplink.handle_dhcp_event_i.
  do 3 mstep.
  eapply returns_conseq; [by apply (configure_tap_returns _ uplink)|].
  intros ? s2 [_ Hobjs]. cbv beta in Hobjs. mstep. split; [done|].
  by apply Forall_cons in Hobjs as [? _].
Qed.

End uplink_facts.

Lemma mk_interface_by_mode_witness :
  Uplink.mk_interface Fixture.uplink_vxlan Fixture.epg0 0xA0A Fixture.s0
  = (Ret (Some (VxlanTunnel (V4 0x0A000001) (V4 0x0A000002) 0xA0A mode_STANDARD)),
     modify_om
       (om_insert Fixture.epg0
          (O_interface
             (VxlanTunnel (V4 0x0A000001) (V4 0x0A000002) 0xA0A mode_STANDARD)))
       Fixture.s0)
  ∧ Uplink.mk_interface Fixture.uplink_vlan Fixture.epg0 0xA0A Fixture.s0
    = (Ret (Some Fixture.v_upl_epg0),
       modify_om (om_insert Fixture.epg0 (O_interface Fixture.v_upl_epg0))
                 Fixture.s0).
Proof.
  split.
  - apply (proj1 (mk_interface_by_mode Fixture.uplink_vxlan Fixture.epg0 0xA0A
                    Fixture.s0)).
    reflexivity.
  - apply (proj2 (mk_interface_by_mode Fixture.uplink_vlan Fixture.epg0 0xA0A
                    Fixture.s0)
             eq_refl Fixture.v_phy).
    reflexivity.
Defined.

Lemma configure_applies_existing_lease_witness :
  returns (Uplink.configure Fixture.lib0 Fixture.uplink_fresh "host.example.com")
    (mk_state ∅ [] [] (Some Fixture.lease0) [])
    (λ u' s',
       Uplink.m_vxlan_src u' = V4 0xC0A80105
       ∧ O_interface (TapInterface "tuntap-0" type_TAP admin_UP
                                   (mk_prefix (V4 0xC0A80105) 24))
         ∈ om_asserted Uplink.UPLINK_KEY (st_om s')).
Proof.
  eapply returns_conseq.
  - apply (configure_applies_existing_lease Fixture.lib0 Fixture.uplink_fresh
             "host.example.com" (mk_state ∅ [] [] (Some Fixture.lease0) [])
             Fixture.lease0).
    + reflexivity.
    + discriminate.
  - intros u' s' (Hsrc & _ & uplink & _ & Hobjs). split; [exact Hsrc|].
    apply Forall_cons in Hobjs as [Htap _]. exact Htap.
Defined.

Lemma handle_dhcp_event_only_dispatches_witness :
  st_taskQueue
    (Uplink.handle_dhcp_event Fixture.lib0 Fixture.uplink_vlan Fixture.lease0
       Fixture.s0).2
  = [("dhcp-config-event", bind_handle_dhcp_event_i Fixture.lease0)]
  ∧ returns (Uplink.handle_dhcp_event_i Fixture.lib0 Fixture.uplink_vlan
               Fixture.lease0) Fixture.s0
      (λ u2 _, Uplink.m_vxlan_src u2 = V4 0xC0A80105).
Proof.
  destruct (handle_dhcp_event_only_dispatches Fixture.lib0 Fixture.uplink_vlan
              Fixture.lease0 Fixture.s0) as [Hq [_ Hi]].
  split.
  - apply Hq.
  - eapply returns_conseq.
    + apply (Hi Fixture.uplink_vlan Fixture.s0 Fixture.v_phy). reflexivity.
    + intros u2 s2 [-> _]. reflexivity.
Defined.

(** ** Exceptions *)

Section nothrow_facts.
Context {A B : Type}.

Lemma nothrow_ret (a : A) : nothrow (ret a).
Proof. by intros s e. Qed.

Lemma nothrow_bind (c : M A) (k : A → M B) :
  nothrow c → (∀ a, nothrow (k a)) → nothrow (bind c k).
Proof.
  intros Hc Hk s e. unfold bind. specialize (Hc s).
  destruct (c s) as [[a|e'|] s']; simpl in *;
    [apply Hk|by destruct (Hc e')|done].
Qed.

Lemma nothrow_deref (p : option A) : nothrow (deref p).
Proof. by destruct p. Qed.

(** A handler that does not throw makes the whole try block safe, whatever
    its body does. *)
Lemma nothrow_try_catch (c : M A) (h : exn → M A) :
  (∀ e, nothrow (h e)) → nothrow (try_catch c h).
Proof.
  intros Hh s e. unfold try_catch.
  destruct (c s) as [[a|e'|] s']; simpl; [done|apply Hh|done].
Qed.

Lemma nothrow_scoped (c : M A) dtor : nothrow c → nothrow (scoped c dtor).
Proof.
  intros Hc s e. unfold scoped. specialize (Hc s).
  destruct (c s) as [[a|e'|] s']; simpl in *; [done|by destruct (Hc e')|done].
Qed.

Lemma try_catch_returns (c : M A) (h : exn → M A) s Q :
  returns c s Q → returns (try_catch c h) s Q.
Proof.
  intros (a & s' & Hc & HQ). exists a, s'. unfold try_catch. by rewrite Hc.
Qed.

End nothrow_facts.

Lemma nothrow_OM_write key o : nothrow (OM_write key o).
Proof. by intros s e. Qed.

Lemma nothrow_LOG msg : nothrow (LOG msg).
Proof. by intros s e. Qed.

Lemma nothrow_for_each {A} (l : list A) (body : A → M unit) :
  (∀ a, nothrow (body a)) → nothrow (for_each l body).
Proof.
  intros Hbody. induction l as [|a l IH]; simpl.
  - apply nothrow_ret.
  - apply nothrow_bind; [apply Hbody|done].
Qed.

(** ** The ID generator *)

Lemma id_get_allocates cid uri g :
  id_allocated cid uri (id_get cid uri g).1 (id_get cid uri g).2.
Proof.
  unfold id_allocated, id_get.
  destruct (list_find _ g) as [[i [[c u] id]]|] eqn:Hfind; simpl.
  - by rewrite Hfind.
  - erewrite list_find_app_r by done. simpl.
    by rewrite decide_True.
Qed.

Lemma id_get_snd cid uri g :
  (id_get cid uri g).2 = g
  ∨ (id_get cid uri g).2 = g ++ [(cid, uri, id_next cid g)].
Proof.
  unfold id_get. destruct (list_find _ g) as [[i [[c u] id]]|]; auto.
Qed.

(** An allocation for another pair leaves the IDs already given in place. *)
Lemma id_allocated_get cid uri id g cid' uri' :
  id_allocated cid uri id g → id_allocated cid uri id (id_get cid' uri' g).2.
Proof.
  unfold id_allocated. intros Hid.
  destruct (id_get_snd cid' uri' g) as [->| ->]; [done|].
  unfold id_get in *.
  destruct (list_find (λ e, e.1 = (cid, uri)) g) as [[i [[c u] x]]|] eqn:Hfind.
  - erewrite list_find_app_l by done. by simplify_eq.
  - simplify_eq. exfalso.
    match goal with
    | H : _ ++ [_] = _ |- _ => apply (f_equal length) in H;
        rewrite length_app in H; simpl in H; lia
    end.
Qed.

(** ** EndPointGroupManager *)

Section epg_facts.
Variable lib : Library.
Variable upl : UplinkAccessors.
Variable fwd_new : EndPointGroupManager.ForwardInfo.

Local Abbreviation get_fwd_info :=
  (EndPointGroupManager.get_fwd_info fwd_new).
Local Abbreviation mk_group :=
  (EndPointGroupManager.mk_group lib upl fwd_new).
Local Abbreviation mk_group_try :=
  (EndPointGroupManager.mk_group_try lib upl fwd_new).
Local Abbreviation render_subnet := (EndPointGroupManager.render_subnet lib).
Local Abbreviation handle_update_body :=
  (EndPointGroupManager.handle_update_body lib upl fwd_new).
Local Abbreviation handle_update :=
  (EndPointGroupManager.handle_update lib upl fwd_new).

Lemma get_fwd_info_throws (rt : Runtime) (uri : URI) s :
  getVnidForGroup (policy_manager rt) uri = None
  ∨ getBDForGroup (policy_manager rt) uri = None →
  get_fwd_info rt uri s = (Throw NoFowardInfoException, s).
Proof.
  unfold EndPointGroupManager.get_fwd_info. intros [Hv|Hbd].
  - by rewrite Hv.
  - rewrite Hbd. by destruct (getVnidForGroup _ _).
Qed.

Lemma get_fwd_info_returns (rt : Runtime) (uri : URI) s v bd :
  getVnidForGroup (policy_manager rt) uri = Some v →
  getBDForGroup (policy_manager rt) uri = Some bd →
  returns (get_fwd_info rt uri) s (λ fwd s',
    EndPointGroupManager.vnid fwd = v
    ∧ EndPointGroupManager.bdURI fwd = Some (BridgeDomain_getURI bd)
    ∧ id_allocated BridgeDomain_CLASS_ID (BridgeDomain_getURI bd)
                   (EndPointGroupManager.bdId fwd) (st_ids s')
    ∧ match getRDForGroup (policy_manager rt) uri with
      | Some rd =>
          EndPointGroupManager.rdURI fwd = Some (RoutingDomain_getURI rd)
          ∧ id_allocated RoutingDomain_CLASS_ID (RoutingDomain_getURI rd)
                         (EndPointGroupManager.rdId fwd) (st_ids s')
      | None =>
          EndPointGroupManager.rdURI fwd = EndPointGroupManager.rdURI fwd_new
          ∧ EndPointGroupManager.rdId fwd = EndPointGroupManager.rdId fwd_new
      end
    ∧ st_om s' = st_om s ∧ st_log s' = st_log s ∧ om_step s s').
Proof.
  intros Hv Hbd. unfold EndPointGroupManager.get_fwd_info. rewrite Hv, Hbd.
  destruct (getRDForGroup _ _) as [rd|]; simpl; repeat mstep; simpl.
  - repeat split; try done.
    + apply id_get_allocates.
    + apply id_allocated_get, id_get_allocates.
  - repeat split; try done. apply id_get_allocates.
Qed.

(** C3. get_fwd_info raises NoFowardInfoException exactly when the policy
    manager has no vnid or no bridge domain for the group; a missing
    routing domain is not a failure.  On success the result carries the
    vnid, the URI of the bridge domain and the ID allocated for it, and the
    URI and allocated ID of the routing domain when there is one. *)
Theorem get_fwd_info_raises_iff (rt : Runtime) (uri : URI) s :
  ((∃ s', get_fwd_info rt uri s = (Throw NoFowardInfoException, s'))
   ↔ getVnidForGroup (policy_manager rt) uri = None
     ∨ getBDForGroup (policy_manager rt) uri = None)
  ∧ (∀ v bd,
       getVnidForGroup (policy_manager rt) uri = Some v →
       getBDForGroup (policy_manager rt) uri = Some bd →
       returns (get_fwd_info rt uri) s (λ fwd s',
         EndPointGroupManager.vnid fwd = v
         ∧ EndPointGroupManager.bdURI fwd = Some (BridgeDomain_getURI bd)
         ∧ id_allocated BridgeDomain_CLASS_ID (BridgeDomain_getURI bd)
                        (EndPointGroupManager.bdId fwd) (st_ids s')
         ∧ match getRDForGroup (policy_manager rt) uri with
           | Some rd =>
               EndPointGroupManager.rdURI fwd = Some (RoutingDomain_getURI rd)
               ∧ id_allocated RoutingDomain_CLASS_ID (RoutingDomain_getURI rd)
                              (EndPointGroupManager.rdId fwd) (st_ids s')
           | None =>
               EndPointGroupManager.rdURI fwd
               = EndPointGroupManager.rdURI fwd_new
               ∧ EndPointGroupManager.rdId fwd
                 = EndPointGroupManager.rdId fwd_new
           end)).
Proof.
  split.
  - split.
    + intros [s' Hthrow].
      destruct (getVnidForGroup _ _) as [v|] eqn:Hv; [|by left].
      destruct (getBDForGroup _ _) as [bd|] eqn:Hbd; [|by right].
      destruct (get_fwd_info_returns rt uri s v bd Hv Hbd)
        as (fwd & s'' & Hret & _).
      congruence.
    + intros H. exists s. by apply get_fwd_info_throws.
  - intros v bd Hv Hbd.
    eapply returns_conseq; [by apply get_fwd_info_returns|].
    intros fwd s' (Hvnid & Huri & Hid & Hrd & _). by repeat split.
Qed.

Lemma mk_group_unresolved (rt : Runtime) (key : key_t) (uri : URI) s :
  getVnidForGroup (policy_manager rt) uri = None
  ∨ getBDForGroup (policy_manager rt) uri = None →
  mk_group rt key uri s
  = (Ret None, add_log ("NOT Updating endpoint-group:" +:+ uri) s).
Proof.
  intros H. unfold EndPointGroupManager.mk_group, try_catch,
    EndPointGroupManager.mk_group_try, bind.
  by rewrite get_fwd_info_throws.
Qed.

(** With unresolved forwarding information the pass writes to the log and
    to nothing else. *)
Lemma handle_update_body_unresolved (rt : Runtime) (key : key_t) (uri : URI) s :
  unresolved (policy_manager rt) uri →
  ∃ s1, handle_update_body rt key uri s = (Ret (), s1)
        ∧ st_om s1 = st_om s ∧ st_ids s1 = st_ids s.
Proof.
  intros Hun. unfold EndPointGroupManager.handle_update_body, bind.
  cbn [LOG]. destruct (groupExists _ _) eqn:Hex; simpl.
  - destruct Hun as [Hun|Hun]; [congruence|].
    rewrite mk_group_unresolved by done. by eexists.
  - by eexists.
Qed.

Lemma handle_update_scope (rt : Runtime) (uri : URI) s s1 :
  handle_update_body rt uri uri (OM_mark uri s) = (Ret (), s1) →
  handle_update rt uri s = (Ret (), OM_sweep uri s1).
Proof.
  intros Hbody. unfold EndPointGroupManager.handle_update, mark_n_sweep, scoped.
  by rewrite Hbody.
Qed.

(** C1. When the forwarding information of the group is unresolved (the
    group was deleted, or its vnid or bridge domain is absent),
    handle_update opens the scope of the group's key and returns without
    asserting anything: between opening and closing the scope the object
    model is untouched.  After the closing sweep the key holds no object,
    the other keys hold what they held, and every object that only this key
    held is gone from the dataplane. *)
Theorem handle_update_unresolved_is_deletion (rt : Runtime) (uri : URI) s :
  unresolved (policy_manager rt) uri →
  ∃ s1 s',
    handle_update_body rt uri uri (OM_mark uri s) = (Ret (), s1)
    ∧ st_om s1 = st_om (OM_mark uri s)
    ∧ om_asserted uri (st_om s1) = []
    ∧ handle_update rt uri s = (Ret (), s')
    ∧ om_owned uri (st_om s') = []
    ∧ (∀ k, k ≠ uri → om_find k (st_om s') = om_find k (st_om s))
    ∧ (∀ o, o ∈ om_owned uri (st_om s) →
            (∀ k, k ≠ uri → o ∉ om_owned k (st_om s)) →
            ¬ om_live (st_om s') o).
Proof.
  intros Hun.
  destruct (handle_update_body_unresolved rt uri uri (OM_mark uri s) Hun)
    as (s1 & Hbody & Hom & _).
  assert (Hnone : om_asserted uri (st_om s1) = []).
  { rewrite Hom. apply om_asserted_mark. }
  assert (Howned : om_owned uri (st_om (OM_sweep uri s1)) = []).
  { cbn. by rewrite om_owned_sweep. }
  assert (Hframe : ∀ k, k ≠ uri →
            om_find k (st_om (OM_sweep uri s1)) = om_find k (st_om s)).
  { intros k Hk. cbn. rewrite om_find_om_sweep_ne, Hom by done.
    cbn. by rewrite om_find_om_mark_ne. }
  exists s1, (OM_sweep uri s1).
  split; [done|]. split; [done|]. split; [done|].
  split; [by apply handle_update_scope|]. split; [done|]. split; [done|].
  intros o _ Hother [k Hk]. destruct (decide (k = uri)) as [->|Hne].
  - rewrite Howned in Hk. by apply elem_of_nil in Hk.
  - apply (Hother k Hne). unfold om_owned in *. by rewrite <-Hframe.
Qed.

Lemma nothrow_mk_group (rt : Runtime) (key : key_t) (uri : URI) :
  nothrow (mk_group rt key uri).
Proof.
  apply nothrow_try_catch. intros e.
  apply nothrow_bind; [apply nothrow_LOG|intros; apply nothrow_ret].
Qed.

Lemma nothrow_render_subnet key bvi bd rd pm sn :
  nothrow (render_subnet key bvi bd rd pm sn).
Proof.
  unfold EndPointGroupManager.render_subnet.
  destruct (getPrefixLen sn), (getAddress sn); try apply nothrow_ret.
  apply nothrow_bind; [|intros; apply nothrow_OM_write].
  destruct (getRouterIpForSubnet pm sn); [|apply nothrow_ret].
  apply nothrow_bind; intros; apply nothrow_OM_write.
Qed.

Lemma nothrow_handle_update (rt : Runtime) (uri : URI) :
  nothrow (handle_update rt uri).
Proof.
  intros s. unfold EndPointGroupManager.handle_update, mark_n_sweep.
  apply nothrow_scoped.
  unfold EndPointGroupManager.handle_update_body.
  apply nothrow_bind; [apply nothrow_LOG|intros _].
  destruct (negb _); [apply nothrow_LOG|].
  apply nothrow_bind; [apply nothrow_mk_group|intros [g|]].
  - apply nothrow_bind; [apply nothrow_OM_write|intros _].
    apply nothrow_bind; [apply nothrow_OM_write|intros _].
    apply nothrow_for_each. intros sn. apply nothrow_render_subnet.
  - apply nothrow_ret.
Qed.

(** C2. No exception leaves mk_group or handle_update.  When get_fwd_info
    fails, mk_group catches NoFowardInfoException, writes the log line and
    returns an empty group pointer; handle_update then returns normally and
    the sweep leaves the key with no object. *)
Theorem no_forward_info_never_propagates (rt : Runtime) (uri : URI) :
  (∀ key, nothrow (mk_group rt key uri))
  ∧ nothrow (handle_update rt uri)
  ∧ (getVnidForGroup (policy_manager rt) uri = None
     ∨ getBDForGroup (policy_manager rt) uri = None →
     (∀ s, get_fwd_info rt uri s = (Throw NoFowardInfoException, s))
     ∧ (∀ key s,
          mk_group rt key uri s
          = (Ret None, add_log ("NOT Updating endpoint-group:" +:+ uri) s))
     ∧ (∀ s, ∃ s', handle_update rt uri s = (Ret (), s')
                    ∧ om_owned uri (st_om s') = [])).
Proof.
  split; [intros; apply nothrow_mk_group|].
  split; [apply nothrow_handle_update|].
  intros Hfail. split; [intros; by apply get_fwd_info_throws|].
  split; [intros; by apply mk_group_unresolved|].
  intros s.
  destruct (handle_update_body_unresolved rt uri uri (OM_mark uri s))
    as (s1 & Hbody & Hom & _); [unfold unresolved; tauto|].
  exists (OM_sweep uri s1). split; [by apply handle_update_scope|].
  cbn. rewrite om_owned_sweep, Hom. apply om_asserted_mark.
Qed.

Lemma crashes_bind {A B} (c : M A) (k : A → M B) s :
  returns c s (λ a s', crashes (k a) s') → crashes (bind c k) s.
Proof.
  intros (a & s' & Hc & Hk). unfold crashes, bind in *. by rewrite Hc.
Qed.

Lemma crashes_deref_None {A} s : crashes (deref (@None A)) s.
Proof. done. Qed.

Lemma subnet_asserted_step bvi bd rd pm sn key s s' :
  om_step s s' →
  subnet_asserted lib bvi bd rd pm sn (om_asserted key (st_om s)) →
  subnet_asserted lib bvi bd rd pm sn (om_asserted key (st_om s')).
Proof.
  intros Hstep Hsn len addr Hlen Haddr.
  destruct (Hsn len addr Hlen Haddr) as [Hgs Hrouter].
  split; [by eapply asserted_step|].
  intros raddr Hraddr. destruct (Hrouter raddr Hraddr).
  split; by eapply asserted_step.
Qed.

Lemma render_subnet_returns key bvi bd rd pm sn s :
  returns (render_subnet key bvi bd rd pm sn) s (λ _ s',
    om_step s s'
    ∧ subnet_asserted lib bvi bd rd pm sn (om_asserted key (st_om s'))).
Proof.
  unfold EndPointGroupManager.render_subnet, subnet_asserted.
  destruct (getPrefixLen sn) as [len|], (getAddress sn) as [addr|];
    try (mstep; split; [done|]; intros; discriminate).
  destruct (getRouterIpForSubnet pm sn) as [raddr|]; repeat mstep.
  - split; [stepped|]. intros ?? [= <-] [= <-]. split; [asserted|].
    intros ? [= <-]. split; asserted.
  - split; [stepped|]. intros ?? [= <-] [= <-]. split; [asserted|].
    intros; discriminate.
Qed.

(** A subnet that lacks the prefix length or the address is passed over. *)
Lemma render_subnet_skip key bvi bd rd pm sn s :
  getPrefixLen sn = None ∨ getAddress sn = None →
  render_subnet key bvi bd rd pm sn s = (Ret (), s).
Proof.
  unfold EndPointGroupManager.render_subnet. intros [-> | ->]; [done|].
  by destruct (getPrefixLen sn).
Qed.

Lemma for_each_render_subnet key bvi bd rd pm subnets s :
  returns (for_each subnets (render_subnet key bvi bd rd pm)) s (λ _ s',
    om_step s s'
    ∧ ∀ sn, sn ∈ subnets →
        subnet_asserted lib bvi bd rd pm sn (om_asserted key (st_om s'))).
Proof.
  revert s. induction subnets as [|sn subnets IH]; intros s; simpl.
  - mstep. split; [done|]. intros sn Hsn. by apply elem_of_nil in Hsn.
  - mstep. eapply returns_conseq; [apply render_subnet_returns|].
    intros ? s1 [Hs1 Hsn]. cbv beta in Hs1, Hsn.
    eapply returns_conseq; [apply IH|].
    intros ? s' [Hs' Hrest]. cbv beta in Hs', Hrest.
    split; [by etransitivity|].
    intros sn' [->|Hin]%elem_of_cons; [|by apply Hrest].
    by eapply subnet_asserted_step.
Qed.

(** A pass that builds the group object: what is asserted when the scope
    closes. *)
Lemma handle_update_renders (rt : Runtime) (uri : URI) s g s2 :
  groupExists (policy_manager rt) uri = true →
  mk_group rt uri uri (pass_entry uri s) = (Ret (Some g), s2) →
  ∃ s3,
    handle_update rt uri s = (Ret (), OM_sweep uri s3)
    ∧ om_step s2 s3
    ∧ O_nat_binding
        (mk_nat_binding (gbd_bvi (gepg_bd g)) dir_INPUT IPV4 zone_INSIDE)
      ∈ om_asserted uri (st_om s3)
    ∧ O_nat_binding
        (mk_nat_binding (gbd_bvi (gepg_bd g)) dir_INPUT IPV6 zone_INSIDE)
      ∈ om_asserted uri (st_om s3)
    ∧ ∀ sn, sn ∈ getSubnetsForGroup (policy_manager rt) uri →
        subnet_asserted lib (gbd_bvi (gepg_bd g)) (gbd_bd (gepg_bd g))
          (grd_rd (gepg_rd g)) (policy_manager rt) sn
          (om_asserted uri (st_om s3)).
Proof.
  intros Hex Hgroup.
  destruct (for_each_render_subnet uri (gbd_bvi (gepg_bd g))
              (gbd_bd (gepg_bd g)) (grd_rd (gepg_rd g)) (policy_manager rt)
              (getSubnetsForGroup (policy_manager rt) uri)
              (modify_om
                 (om_insert uri
                    (O_nat_binding
                       (mk_nat_binding (gbd_bvi (gepg_bd g)) dir_INPUT IPV6
                                       zone_INSIDE)))
                 (modify_om
                    (om_insert uri
                       (O_nat_binding
                          (mk_nat_binding (gbd_bvi (gepg_bd g)) dir_INPUT IPV4
                                          zone_INSIDE)))
                    s2)))
    as ([] & s3 & Hloop & Hs3 & Hsubnets).
  exists s3. split.
  - apply handle_update_scope.
    unfold EndPointGroupManager.handle_update_body, bind. cbn [LOG].
    rewrite Hex. cbn [negb]. fold (pass_entry uri s). rewrite Hgroup.
    cbn [OM_write OM_commit]. exact Hloop.
  - split; [etransitivity; [|exact Hs3]; stepped|].
    split; [eapply asserted_step; [exact Hs3|asserted]|].
    split; [eapply asserted_step; [exact Hs3|asserted]|].
    exact Hsubnets.
Qed.

(** C4. In every pass of an existing group in which mk_group returns a
    group object, the NAT inside bindings for IPv4 and for IPv6 on the
    group's BVI are among the objects the key holds when handle_update
    returns.  Nothing about floating IPs is consulted. *)
Theorem nat_inside_bindings_unconditional (rt : Runtime) (uri : URI) s g s2 :
  groupExists (policy_manager rt) uri = true →
  mk_group rt uri uri (pass_entry uri s) = (Ret (Some g), s2) →
  ∃ s',
    handle_update rt uri s = (Ret (), s')
    ∧ O_nat_binding
        (mk_nat_binding (gbd_bvi (gepg_bd g)) dir_INPUT IPV4 zone_INSIDE)
      ∈ om_owned uri (st_om s')
    ∧ O_nat_binding
        (mk_nat_binding (gbd_bvi (gepg_bd g)) dir_INPUT IPV6 zone_INSIDE)
      ∈ om_owned uri (st_om s').
Proof.
  intros Hex Hgroup.
  destruct (handle_update_renders rt uri s g s2 Hex Hgroup)
    as (s3 & Hrun & _ & Hnb4 & Hnb6 & _).
  exists (OM_sweep uri s3). split; [done|].
  cbn. by rewrite om_owned_sweep.
Qed.

(** C5, as the code has it.  In every pass of an existing group in which
    mk_group returns a group object, each subnet of the group that has both
    a prefix length and an address gets the stitched-internal entry for its
    prefix in the group's routing domain and, when it has a router address,
    the binding of that address on the BVI and the bridge-domain ARP entry
    that maps it to the BVI's link address.  A subnet that lacks the prefix
    length or the address is passed over: its turn of the loop changes
    nothing. *)
Theorem subnets_rendered_when_complete (rt : Runtime) (uri : URI) s g s2 :
  groupExists (policy_manager rt) uri = true →
  mk_group rt uri uri (pass_entry uri s) = (Ret (Some g), s2) →
  (∃ s',
     handle_update rt uri s = (Ret (), s')
     ∧ ∀ sn, sn ∈ getSubnetsForGroup (policy_manager rt) uri →
         subnet_asserted lib (gbd_bvi (gepg_bd g)) (gbd_bd (gepg_bd g))
           (grd_rd (gepg_rd g)) (policy_manager rt) sn
           (om_owned uri (st_om s')))
  ∧ (∀ sn s0,
       getPrefixLen sn = None ∨ getAddress sn = None →
       render_subnet uri (gbd_bvi (gepg_bd g)) (gbd_bd (gepg_bd g))
         (grd_rd (gepg_rd g)) (policy_manager rt) sn s0
       = (Ret (), s0)).
Proof.
  intros Hex Hgroup. split.
  - destruct (handle_update_renders rt uri s g s2 Hex Hgroup)
      as (s3 & Hrun & _ & _ & _ & Hsubnets).
    exists (OM_sweep uri s3). split; [done|].
    intros sn Hsn. cbn. rewrite om_owned_sweep. by apply Hsubnets.
  - intros sn s0. apply render_subnet_skip.
Qed.

(** The link the uplink hands out does not depend on the state it is asked
    in: it is the VXLAN tunnel, or the sub-interface of the uplink. *)
Lemma mk_interface_link (u : Uplink.t) (key : key_t) (vnid : Z) link :
  (∀ s, (Uplink.mk_interface u key vnid s).1 = Ret (Some link)) →
  ∀ s, Uplink.mk_interface u key vnid s
       = (Ret (Some link), modify_om (om_insert key (O_interface link)) s)
       ∧ (∀ n t st rd l2, link ≠ Interface n t st rd l2).
Proof.
  intros Hlink s. specialize (Hlink s). unfold Uplink.mk_interface in *.
  destruct (Uplink.m_type u).
  - simpl in Hlink. injection Hlink as <-. done.
  - destruct (Uplink.m_uplink u) as [itf|]; [|done].
    simpl in Hlink. injection Hlink as <-. done.
Qed.

(** C7. In stitched mode (no spine proxy for the group's vnid) mk_group
    returns a group object that carries the link obtained from the uplink,
    and asserts the binding of that link into the group's bridge domain.
    The binding carries the pop-1 rewrite with the group's vnid when the
    type of the link is not VXLAN, and no rewrite when it is; no other
    binding of the link is asserted by the call. *)
Theorem stitched_link_pop_iff_not_vxlan
    (rt : Runtime) (key : key_t) (uri : URI) s fwd s1 link :
  get_fwd_info rt uri s = (Ret fwd, s1) →
  spine_proxy upl (uplink rt) (EndPointGroupManager.vnid fwd) = None →
  (∀ s2, (Uplink.mk_interface (uplink rt) key (EndPointGroupManager.vnid fwd)
            s2).1 = Ret (Some link)) →
  let bd := mk_bridge_domain (EndPointGroupManager.bdId fwd) learning_OFF in
  ∃ g s',
    mk_group rt key uri s = (Ret (Some g), s')
    ∧ gepg_itf g = Some link
    ∧ gbd_bd (gepg_bd g) = bd
    ∧ (type link ≠ type_VXLAN →
       O_l2_binding
         (mk_l2_binding link bd L2_VTR_POP_1 (EndPointGroupManager.vnid fwd))
       ∈ om_asserted key (st_om s'))
    ∧ (type link = type_VXLAN →
       O_l2_binding (mk_l2_binding link bd L2_VTR_DISABLED 0)
       ∈ om_asserted key (st_om s'))
    ∧ (∀ b, O_l2_binding b ∈ om_asserted key (st_om s') →
            l2b_itf b = link →
            O_l2_binding b ∈ om_asserted key (st_om s1)
            ∨ (l2b_bd b = bd
               ∧ (l2b_vtr_op b = L2_VTR_POP_1
                  ∧ l2b_vtr_tag b = EndPointGroupManager.vnid fwd
                  ↔ type link ≠ type_VXLAN))).
Proof.
  intros Hfwd Hsp Hlink bd.
  assert (Hshape : ∀ n t st rd l2, link ≠ Interface n t st rd l2)
    by apply (mk_interface_link _ _ _ _ Hlink s).
  cut (returns (mk_group_try rt key uri) s (λ a s',
         ∃ g, a = Some g ∧ gepg_itf g = Some link ∧ gbd_bd (gepg_bd g) = bd
         ∧ (type link ≠ type_VXLAN →
            O_l2_binding
              (mk_l2_binding link bd L2_VTR_POP_1
                             (EndPointGroupManager.vnid fwd))
            ∈ om_asserted key (st_om s'))
         ∧ (type link = type_VXLAN →
            O_l2_binding (mk_l2_binding link bd L2_VTR_DISABLED 0)
            ∈ om_asserted key (st_om s'))
         ∧ (∀ b, O_l2_binding b ∈ om_asserted key (st_om s') →
                 l2b_itf b = link →
                 O_l2_binding b ∈ om_asserted key (st_om s1)
                 ∨ (l2b_bd b = bd
                    ∧ (l2b_vtr_op b = L2_VTR_POP_1
                       ∧ l2b_vtr_tag b = EndPointGroupManager.vnid fwd
                       ↔ type link ≠ type_VXLAN))))).
  { intros (a & s' & Hrun & g & -> & Hg). exists g, s'. split; [|exact Hg].
    unfold EndPointGroupManager.mk_group, try_catch. by rewrite Hrun. }
  unfold EndPointGroupManager.mk_group_try, EndPointGroupManager.mk_bvi.
  mstep. eapply returns_eq; [exact Hfwd|].
  repeat mstep. rewrite Hsp. cbv beta iota. mstep.
  eapply returns_eq; [apply (mk_interface_link _ _ _ _ Hlink)|].
  repeat mstep.
  eexists. split; [reflexivity|]. split; [reflexivity|]. split; [reflexivity|].
  fold bd. split; [|split].
  - intros Htype. rewrite decide_True by done. asserted.
  - intros Htype. rewrite decide_False by (intros ?; congruence). asserted.
  - intros b Hb Hitf.
    repeat match type of Hb with
    | _ ∈ om_asserted _ (st_om (modify_om (om_insert _ _) _)) =>
        apply asserted_write_inv in Hb as [Hb|[_ Hb]];
          [|try discriminate Hb]
    end.
    + by left.
    + injection Hb as ->. simpl in Hitf.
      destruct (vr rt); simpl in Hitf;
        by destruct (Hshape _ _ _ _ _ (eq_sym Hitf)).
    + right. injection Hb as ->. case_decide as Htype; simpl.
      * split; [done|]. split; [intros _ Heq; by rewrite Heq in Htype|done].
      * split; [done|]. split; [intros [? _]; discriminate|].
        intros Hne. by destruct Hne.
Qed.

Lemma crashes_bind_l {A B} (c : M A) (k : A → M B) s :
  crashes c s → crashes (bind c k) s.
Proof.
  unfold crashes, bind. by destruct (c s) as [[a|e|] s'].
Qed.

Lemma crashes_try_catch {A} (c : M A) (h : exn → M A) s :
  crashes c s → crashes (try_catch c h) s.
Proof.
  unfold crashes, try_catch. by destruct (c s) as [[a|e|] s'].
Qed.

Lemma crashes_scoped {A} (c : M A) dtor s :
  crashes c s → crashes (scoped c dtor) s.
Proof.
  unfold crashes, scoped. by destruct (c s) as [[a|e|] s'].
Qed.

Ltac cstep :=
  cbv beta iota zeta;
  lazymatch goal with
  | |- crashes (bind (deref None) _) _ =>
      apply crashes_bind_l, crashes_deref_None
  | |- crashes (bind _ _) _ => apply crashes_bind
  | |- _ => mstep
  end.

Lemma mk_group_try_transport_crashes
    (rt : Runtime) (key : key_t) (uri : URI) v bdom sp s :
  getVnidForGroup (policy_manager rt) uri = Some v →
  getBDForGroup (policy_manager rt) uri = Some bdom →
  spine_proxy upl (uplink rt) v = Some sp →
  getBDVnidForGroup (policy_manager rt) uri = None
  ∨ getBDMulticastIPForGroup (policy_manager rt) uri = None →
  crashes (mk_group_try rt key uri) s.
Proof.
  intros Hv Hbd Hsp Hmissing.
  unfold EndPointGroupManager.mk_group_try, EndPointGroupManager.mk_bvi.
  apply crashes_bind.
  eapply returns_conseq; [by apply get_fwd_info_returns|].
  intros fwd s1 (Hvnid & _). cbv beta. rewrite Hvnid, Hsp.
  repeat cstep. unfold mk_v4, mk_v6, spine_tunnel. repeat cstep.
  assert (Hnone :
    match getBDVnidForGroup (policy_manager rt) uri,
          getBDMulticastIPForGroup (policy_manager rt) uri with
    | Some bd_vnid, Some bd_mcast => false
    | _, _ => true
    end = true).
  { destruct Hmissing as [-> | ->]; [done|].
    by destruct (getBDVnidForGroup _ _). }
  destruct (getBDVnidForGroup _ _), (getBDMulticastIPForGroup _ _);
    try discriminate Hnone;
    (cstep; destruct (getRDVnidForGroup _ _); by repeat cstep).
Qed.

(** C10, at the code.  In transport mode (a spine proxy exists for the
    group's vnid), when the policy model has no bridge-domain vnid or no
    bridge-domain multicast address for the group, mk_group leaves [gepg]
    empty and then dereferences it in OM::write(key, *gepg): neither
    mk_group nor handle_update returns. *)
Theorem transport_without_bd_vnid_dereferences_empty_gepg
    (rt : Runtime) (uri : URI) v bdom sp :
  groupExists (policy_manager rt) uri = true →
  getVnidForGroup (policy_manager rt) uri = Some v →
  getBDForGroup (policy_manager rt) uri = Some bdom →
  spine_proxy upl (uplink rt) v = Some sp →
  getBDVnidForGroup (policy_manager rt) uri = None
  ∨ getBDMulticastIPForGroup (policy_manager rt) uri = None →
  ∀ s, (∀ key, crashes (mk_group rt key uri) s)
       ∧ crashes (handle_update rt uri) s.
Proof.
  intros Hex Hv Hbd Hsp Hmissing s.
  assert (Hgroup : ∀ key s0, crashes (mk_group rt key uri) s0).
  { intros key s0. apply crashes_try_catch.
    by eapply mk_group_try_transport_crashes. }
  split; [done|].
  unfold EndPointGroupManager.handle_update, mark_n_sweep.
  apply crashes_scoped.
  unfold EndPointGroupManager.handle_update_body.
  repeat cstep. rewrite Hex. cbn [negb].
  apply crashes_bind_l, Hgroup.
Qed.

End epg_facts.

(** ** The theorems at the test fixture *)

Section fixture_facts.
Import Fixture.

Local Abbreviation render :=
  (EndPointGroupManager.handle_update lib0 upl_stitched fwd0).

(** The repository's test endpoint_group_add_del, first half: after the
    update of epg0 the bridge domain, the routing domain, the BVI and its
    binding, the uplink sub-interface with its tag-popping binding, the
    group and the subnet state are there. *)
Example test_endpoint_group_add :
  forallb
    (λ o, bool_decide
            (o ∈ om_owned epg0 (st_om (render (rt0 [subnetsfd0_1]) epg0 s0).2)))
    [ O_bridge_domain v_bd_epg0;
      O_route_domain v_rd;
      O_interface v_bvi_epg0;
      O_l2_binding (l2_binding_new v_bvi_epg0 v_bd_epg0);
      O_interface v_upl_epg0;
      O_l2_binding (mk_l2_binding v_upl_epg0 v_bd_epg0 L2_VTR_POP_1 0xA0A);
      O_gbp_endpoint_group v_epg0;
      O_bridge_domain_entry (mk_bridge_domain_entry v_bd_epg0 vMac v_bvi_epg0);
      O_l3_binding (mk_l3_binding v_bvi_epg0 (mk_prefix (V4 0x0A142C01) 32));
      O_bridge_domain_arp_entry
        (mk_bridge_domain_arp_entry v_bd_epg0 (V4 0x0A142C01) vMac);
      O_gbp_subnet
        (mk_gbp_subnet v_rd (mk_prefix (V4 0x0A142C00) 24) STITCHED_INTERNAL) ]
  = true.
Proof. by vm_compute. Qed.

(** Second half: once the group is withdrawn, the update leaves nothing. *)
Example test_endpoint_group_del :
  om_owned epg0 (st_om (render rt_gone epg0 s1).2) = [].
Proof. by vm_compute. Qed.

(** A second update with an unchanged policy asserts the same objects. *)
Example test_update_idempotent :
  om_owned epg0 (st_om (render (rt0 [subnetsfd0_1]) epg0 s1).2)
  = om_owned epg0 (st_om s1).
Proof. by vm_compute. Qed.

(** With a VXLAN uplink the link of the group is the tunnel, and its
    binding into the bridge domain carries no tag rewrite. *)
Example test_vxlan_link_not_popped :
  let vt := VxlanTunnel (V4 0x0A000001) (V4 0x0A000002) 0xA0A mode_STANDARD in
  let owned := om_owned epg0 (st_om (render rt_vxlan epg0 s0).2) in
  bool_decide (O_l2_binding (l2_binding_new vt v_bd_epg0) ∈ owned) = true
  ∧ bool_decide
      (O_l2_binding (mk_l2_binding vt v_bd_epg0 L2_VTR_POP_1 0xA0A) ∈ owned)
    = false.
Proof. by vm_compute. Qed.

Example test_getIntfTypeFromName :
  Uplink.getIntfTypeFromName "BondEthernet0" = type_BOND
  ∧ Uplink.getIntfTypeFromName "TenGigabitEthernet0/8/0" = type_ETHERNET
  ∧ Uplink.getIntfTypeFromName "tap0" = type_TAP
  ∧ Uplink.getIntfTypeFromName "opflex-itf" = type_AFPACKET.
Proof. by vm_compute. Qed.

Example test_strip_domain :
  Uplink.strip_domain "host.example.com" = "host"
  ∧ Uplink.strip_domain "host" = "host".
Proof. by vm_compute. Qed.

End fixture_facts.

Lemma handle_update_unresolved_is_deletion_witness :
  ∃ s',
    EndPointGroupManager.handle_update Fixture.lib0 Fixture.upl_stitched
      Fixture.fwd0 Fixture.rt_gone Fixture.epg0 Fixture.s1 = (Ret (), s')
    ∧ om_owned Fixture.epg0 (st_om s') = []
    ∧ O_gbp_endpoint_group Fixture.v_epg0
      ∈ om_owned Fixture.epg0 (st_om Fixture.s1).
Proof.
  destruct (handle_update_unresolved_is_deletion Fixture.lib0
              Fixture.upl_stitched Fixture.fwd0 Fixture.rt_gone Fixture.epg0
              Fixture.s1)
    as (s1' & s' & _ & _ & _ & Hrun & Howned & _).
  - left. reflexivity.
  - exists s'. split; [exact Hrun|]. split; [exact Howned|].
    vm_compute. do 9 apply list_elem_of_further. apply list_elem_of_here.
Defined.

Lemma no_forward_info_never_propagates_witness :
  ∃ s',
    EndPointGroupManager.handle_update Fixture.lib0 Fixture.upl_stitched
      Fixture.fwd0 (Fixture.rt0 []) Fixture.epg1 Fixture.s0 = (Ret (), s')
    ∧ om_owned Fixture.epg1 (st_om s') = [].
Proof.
  apply (no_forward_info_never_propagates Fixture.lib0 Fixture.upl_stitched
           Fixture.fwd0 (Fixture.rt0 []) Fixture.epg1).
  right. reflexivity.
Defined.

Lemma get_fwd_info_raises_iff_witness :
  returns (EndPointGroupManager.get_fwd_info Fixture.fwd0 (Fixture.rt0 [])
             Fixture.epg0) Fixture.s0
    (λ fwd _, EndPointGroupManager.vnid fwd = 0xA0A
              ∧ EndPointGroupManager.bdURI fwd = Some Fixture.bd0).
Proof.
  eapply returns_conseq.
  - apply (proj2 (get_fwd_info_raises_iff Fixture.fwd0 (Fixture.rt0 [])
                    Fixture.epg0 Fixture.s0)
             0xA0A (mk_BridgeDomain Fixture.bd0)); reflexivity.
  - intros fwd s' (Hvnid & Hbd & _). split; [exact Hvnid|exact Hbd].
Defined.

Lemma nat_inside_bindings_unconditional_witness :
  ∃ s',
    EndPointGroupManager.handle_update Fixture.lib0 Fixture.upl_stitched
      Fixture.fwd0 (Fixture.rt0 []) Fixture.epg0 Fixture.s0 = (Ret (), s')
    ∧ O_nat_binding
        (mk_nat_binding Fixture.v_bvi_epg0 dir_INPUT IPV4 zone_INSIDE)
      ∈ om_owned Fixture.epg0 (st_om s')
    ∧ O_nat_binding
        (mk_nat_binding Fixture.v_bvi_epg0 dir_INPUT IPV6 zone_INSIDE)
      ∈ om_owned Fixture.epg0 (st_om s').
Proof.
  apply (nat_inside_bindings_unconditional Fixture.lib0 Fixture.upl_stitched
           Fixture.fwd0 (Fixture.rt0 []) Fixture.epg0 Fixture.s0
           Fixture.v_epg0
           (EndPointGroupManager.mk_group Fixture.lib0 Fixture.upl_stitched
              Fixture.fwd0 (Fixture.rt0 []) Fixture.epg0 Fixture.epg0
              (pass_entry Fixture.epg0 Fixture.s0)).2).
  - reflexivity.
  - vm_compute. reflexivity.
Defined.

Lemma subnets_rendered_when_complete_witness :
  ∃ s',
    EndPointGroupManager.handle_update Fixture.lib0 Fixture.upl_stitched
      Fixture.fwd0 (Fixture.rt0 [Fixture.subnetsfd0_1]) Fixture.epg0
      Fixture.s0 = (Ret (), s')
    ∧ O_gbp_subnet
        (mk_gbp_subnet Fixture.v_rd
           (low Fixture.lib0
              (mk_prefix (from_string Fixture.lib0 "10.20.44.1") 24))
           STITCHED_INTERNAL)
      ∈ om_owned Fixture.epg0 (st_om s').
Proof.
  destruct (subnets_rendered_when_complete Fixture.lib0 Fixture.upl_stitched
              Fixture.fwd0 (Fixture.rt0 [Fixture.subnetsfd0_1]) Fixture.epg0
              Fixture.s0 Fixture.v_epg0
              (EndPointGroupManager.mk_group Fixture.lib0 Fixture.upl_stitched
                 Fixture.fwd0 (Fixture.rt0 [Fixture.subnetsfd0_1])
                 Fixture.epg0 Fixture.epg0
                 (pass_entry Fixture.epg0 Fixture.s0)).2)
    as [(s' & Hrun & Hsubnets) _].
  - reflexivity.
  - vm_compute. reflexivity.
  - exists s'. split; [exact Hrun|].
    apply (Hsubnets Fixture.subnetsfd0_1 (list_elem_of_here _ _) 24
             "10.20.44.1" eq_refl eq_refl).
Defined.

(** C5 as the spec has it fails: a subnet that has an address (and a router
    address) but no prefix length does not lack both, yet the render of its
    group, which builds the group object, asserts no routing entry and no
    address binding at all. *)
Lemma subnet_with_address_but_no_length_is_skipped :
  let rt := Fixture.rt0 [Fixture.subnet_no_len] in
  let run := EndPointGroupManager.handle_update Fixture.lib0
               Fixture.upl_stitched Fixture.fwd0 rt Fixture.epg0 Fixture.s0 in
  Fixture.subnet_no_len ∈ getSubnetsForGroup (policy_manager rt) Fixture.epg0
  ∧ getAddress Fixture.subnet_no_len = Some "10.20.45.0"
  ∧ getPrefixLen Fixture.subnet_no_len = None
  ∧ getRouterIpForSubnet (policy_manager rt) Fixture.subnet_no_len
    = Some (V4 0)
  ∧ (EndPointGroupManager.mk_group Fixture.lib0 Fixture.upl_stitched
       Fixture.fwd0 rt Fixture.epg0 Fixture.epg0
       (pass_entry Fixture.epg0 Fixture.s0)).1 = Ret (Some Fixture.v_epg0)
  ∧ run.1 = Ret ()
  ∧ filter Fixture.is_gbp_subnet (om_owned Fixture.epg0 (st_om run.2)) = []
  ∧ filter Fixture.is_l3_binding (om_owned Fixture.epg0 (st_om run.2)) = [].
Proof.
  cbv zeta. split; [apply list_elem_of_here|].
  repeat split; by vm_compute.
Qed.

Lemma stitched_link_pop_iff_not_vxlan_witness :
  ∃ g s',
    EndPointGroupManager.mk_group Fixture.lib0 Fixture.upl_stitched
      Fixture.fwd0 (Fixture.rt0 []) Fixture.epg0 Fixture.epg0 Fixture.s0
    = (Ret (Some g), s')
    ∧ gepg_itf g = Some Fixture.v_upl_epg0
    ∧ O_l2_binding
        (mk_l2_binding Fixture.v_upl_epg0 Fixture.v_bd_epg0 L2_VTR_POP_1 0xA0A)
      ∈ om_asserted Fixture.epg0 (st_om s').
Proof.
  destruct (stitched_link_pop_iff_not_vxlan Fixture.lib0 Fixture.upl_stitched
              Fixture.fwd0 (Fixture.rt0 []) Fixture.epg0 Fixture.epg0
              Fixture.s0 Fixture.fwd_epg0
              (EndPointGroupManager.get_fwd_info Fixture.fwd0 (Fixture.rt0 [])
                 Fixture.epg0 Fixture.s0).2
              Fixture.v_upl_epg0)
    as (g & s' & Hrun & Hitf & _ & Hpop & _).
  - vm_compute. reflexivity.
  - reflexivity.
  - intros s2. reflexivity.
  - exists g, s'. split; [exact Hrun|]. split; [exact Hitf|].
    apply Hpop. discriminate.
Defined.

Lemma transport_without_bd_vnid_dereferences_empty_gepg_witness :
  crashes (EndPointGroupManager.handle_update Fixture.lib0
             Fixture.upl_transport Fixture.fwd0 (Fixture.rt0 []) Fixture.epg0)
          Fixture.s0.
Proof.
  apply (transport_without_bd_vnid_dereferences_empty_gepg Fixture.lib0
           Fixture.upl_transport Fixture.fwd0 (Fixture.rt0 []) Fixture.epg0
           0xA0A (mk_BridgeDomain Fixture.bd0)
           (mk_SpineProxy (V4 0) (V4 0x0A000064) (V4 0x0A000065)
                          (V4 0x0A000066) 0xA0A));
    try reflexivity.
  left. reflexivity.
Defined.

(** * Further properties *)

(** ** Runs of assertions *)

Section inserts_facts.
Implicit Types (db : gmap key_t (list object_ref)) (key k : key_t)
               (o : om_object) (ws : list om_object).

Lemma om_inserts_app key ws1 ws2 db :
  om_inserts key (ws1 ++ ws2) db = om_inserts key ws2 (om_inserts key ws1 db).
Proof. apply foldl_app. Qed.

Lemma om_insert_lookup_ne key k o db :
  k ≠ key → om_insert key o db !! k = db !! k.
Proof. intros. unfold om_insert. case_decide; by rewrite lookup_insert_ne. Qed.

Lemma om_inserts_lookup_ne key k ws db :
  k ≠ key → om_inserts key ws db !! k = db !! k.
Proof.
  intros Hne. revert db. induction ws as [|o ws IH]; intros db; [done|].
  simpl. by rewrite IH, om_insert_lookup_ne.
Qed.

(** What is asserted after a run of assertions: what was asserted before,
    and the objects of the run. *)
Lemma om_asserted_inserts key k ws db o :
  o ∈ om_asserted k (om_inserts key ws db)
  ↔ o ∈ om_asserted k db ∨ (k = key ∧ o ∈ ws).
Proof.
  revert db. induction ws as [|w ws IH]; intros db; simpl.
  - split; [by left|]. intros [?|[_ H]]; [done|]. by apply elem_of_nil in H.
  - rewrite IH. split.
    + intros [H|[-> H]].
      * apply om_asserted_insert_inv in H as [H|[-> ->]]; [by left|].
        right. split; [done|]. apply list_elem_of_here.
      * right. split; [done|]. by apply list_elem_of_further.
    + intros [H|[-> H]].
      * left. by apply om_asserted_insert_mono.
      * apply elem_of_cons in H as [->|H]; [|by right].
        left. apply om_asserted_insert.
Qed.

End inserts_facts.

Section pass_facts.
Implicit Types (db : gmap key_t (list object_ref)) (key k : key_t)
               (o : om_object) (ws : list om_object).

Lemma om_find_om_insert key o db :
  om_find key (om_insert key o db)
  = if decide (o ∈ ref_obj <$> om_find key db)
    then clear_stale o <$> om_find key db
    else om_find key db ++ [mk_ref o false].
Proof. unfold om_insert. case_decide; apply om_find_insert. Qed.

Lemma fmap_id_on {A} (f : A → A) (l : list A) :
  (∀ x, x ∈ l → f x = x) → f <$> l = l.
Proof.
  induction l as [|x l IH]; intros Hf; [done|]. rewrite fmap_cons. f_equal.
  - apply Hf, list_elem_of_here.
  - apply IH. intros y Hy. by apply Hf, list_elem_of_further.
Qed.

(** Asserting again objects the key already holds only clears their stale
    flags, in place. *)
Lemma om_find_inserts_present key ws db :
  (∀ o, o ∈ ws → o ∈ ref_obj <$> om_find key db) →
  om_find key (om_inserts key ws db)
  = (λ r, if decide (ref_obj r ∈ ws) then mk_ref (ref_obj r) false else r)
      <$> om_find key db.
Proof.
  revert db. induction ws as [|w ws IH]; intros db Hws; simpl.
  - symmetry. by apply fmap_id_on.
  - assert (Hw : w ∈ ref_obj <$> om_find key db)
      by apply Hws, list_elem_of_here.
    rewrite IH.
    2:{ intros o Ho. rewrite om_find_om_insert, decide_True by done.
        rewrite <-list_fmap_compose.
        destruct (proj1 (list_elem_of_fmap _ _ _)
                    (Hws o (list_elem_of_further _ _ _ Ho))) as (r & -> & Hr).
        apply list_elem_of_fmap. exists r. split; [|done].
        simpl. unfold clear_stale. by case_decide. }
    rewrite om_find_om_insert, decide_True by done.
    rewrite <-list_fmap_compose. apply list_fmap_ext. intros i r _. simpl.
    unfold clear_stale. destruct (decide (ref_obj r = w)) as [Heq|Hneq]; simpl.
    + rewrite (decide_True (P := ref_obj r ∈ w :: ws))
        by (rewrite Heq; apply list_elem_of_here).
      rewrite Heq. by case_decide.
    + destruct (decide (ref_obj r ∈ ws)) as [Hin|Hnin].
      * rewrite decide_True; [done|]. by apply list_elem_of_further.
      * rewrite decide_False; [done|].
        intros [?|?]%elem_of_cons; congruence.
Qed.

Lemma om_pass_lookup_ne key k ws db :
  k ≠ key →
  om_sweep key (om_inserts key ws (om_mark key db)) !! k = db !! k.
Proof.
  intros. unfold om_sweep, om_mark.
  by rewrite lookup_insert_ne, om_inserts_lookup_ne, lookup_insert_ne.
Qed.

(** A pass that asserts the same objects as the pass before leaves the
    database as it found it. *)
Lemma om_pass_idempotent key ws db :
  let pass db := om_sweep key (om_inserts key ws (om_mark key db)) in
  pass (pass db) = pass db.
Proof.
  intros pass. apply map_eq. intros k.
  destruct (decide (k = key)) as [->|Hne].
  2:{ unfold pass. by rewrite !om_pass_lookup_ne. }
  set (L1 := om_find key (pass db)).
  assert (HL1 : L1 = filter (λ r, ref_stale r = false)
                       (om_find key (om_inserts key ws (om_mark key db))))
    by apply om_find_insert.
  assert (Hobjs : ∀ o, o ∈ ref_obj <$> L1 ↔ o ∈ ws).
  { intros o. rewrite HL1.
    change (o ∈ om_asserted key (om_inserts key ws (om_mark key db)) ↔ o ∈ ws).
    rewrite om_asserted_inserts, om_asserted_mark. split.
    - intros [H|[_ H]]; [by apply elem_of_nil in H|done].
    - intros H. by right. }
  assert (Hfresh : ∀ r, r ∈ L1 → ref_stale r = false).
  { intros r. rewrite HL1. by intros [? _]%list_elem_of_filter. }
  transitivity (Some L1).
  2:{ symmetry. unfold pass at 1, om_sweep. rewrite lookup_insert_eq.
      by rewrite HL1. }
  unfold pass at 1, om_sweep. rewrite lookup_insert_eq. f_equal.
  rewrite om_find_inserts_present.
  2:{ intros o Ho. unfold om_mark. rewrite om_find_insert.
      fold L1. rewrite <-list_fmap_compose. simpl. by apply Hobjs. }
  unfold om_mark. rewrite om_find_insert. fold L1.
  rewrite <-list_fmap_compose.
  assert (Hid : (λ r, if decide (ref_obj r ∈ ws)
                      then mk_ref (ref_obj r) false else r)
                ∘ (λ r, mk_ref (ref_obj r) true) <$> L1 = L1).
  { apply fmap_id_on. intros r Hr. simpl.
    rewrite decide_True by (apply Hobjs; by apply list_elem_of_fmap_2).
    specialize (Hfresh r Hr). destruct r as [o st]. simpl in *. by subst. }
  rewrite Hid, HL1. by rewrite list_filter_filter_l.
Qed.

End pass_facts.

(** ** Computations that only assert, log and allocate *)

Lemma ids_le_refl g : ids_le g g.
Proof. by intros cid uri id. Qed.

Lemma ids_le_trans g1 g2 g3 : ids_le g1 g2 → ids_le g2 g3 → ids_le g1 g3.
Proof. intros H12 H23 cid uri id H. by apply H23, H12. Qed.

Lemma ids_le_id_get cid uri g : ids_le g (id_get cid uri g).2.
Proof. intros c u id. apply id_allocated_get. Qed.

Lemma wrote_nil key s : wrote key [] [] (st_ids s) s = s.
Proof. destruct s. unfold wrote. simpl. by rewrite app_nil_r. Qed.

Lemma wrote_wrote key ws1 ws2 l1 l2 g1 g2 s :
  wrote key ws2 l2 g2 (wrote key ws1 l1 g1 s)
  = wrote key (ws1 ++ ws2) (l1 ++ l2) g2 s.
Proof.
  unfold wrote. simpl. by rewrite om_inserts_app, app_assoc.
Qed.

Lemma wrote_ids key ws logs g s : st_ids (wrote key ws logs g s) = g.
Proof. done. Qed.

Section stable_writer_facts.
Context {A B : Type}.
Implicit Types key : key_t.

(** A computation that does the same in every state. *)
Lemma sw_const key (c : M A) r ws logs :
  (∀ s, c s = (r, wrote key ws logs (st_ids s) s)) → stable_writer key c.
Proof.
  intros Hc g. exists r, ws, logs, g. split; [apply ids_le_refl|].
  split; intros; subst; apply Hc.
Qed.

Lemma sw_ret key (a : A) : stable_writer key (ret a).
Proof.
  apply (sw_const key _ (Ret a) [] []). intros s. by rewrite wrote_nil.
Qed.

Lemma sw_throw key e : stable_writer key (@throw A e).
Proof.
  apply (sw_const key _ (Throw e) [] []). intros s. by rewrite wrote_nil.
Qed.

Lemma sw_deref key (p : option A) : stable_writer key (deref p).
Proof.
  destruct p as [a|]; [apply sw_ret|].
  apply (sw_const key _ Crash [] []). intros s. by rewrite wrote_nil.
Qed.

Lemma sw_bind key (c : M A) (k : A → M B) :
  stable_writer key c → (∀ a, stable_writer key (k a)) →
  stable_writer key (bind c k).
Proof.
  intros Hc Hk g. destruct (Hc g) as (r1 & ws1 & l1 & g1 & Hg1 & Hc1 & Hc2).
  destruct r1 as [a|e|].
  - destruct (Hk a g1) as (r2 & ws2 & l2 & g2 & Hg2 & Hk1 & Hk2).
    exists r2, (ws1 ++ ws2), (l1 ++ l2), g2.
    split; [by eapply ids_le_trans|]. split.
    + intros s Hs. unfold bind. rewrite (Hc1 s Hs).
      rewrite Hk1 by done. by rewrite wrote_wrote.
    + intros g3 s Hg3 Hs. unfold bind.
      rewrite (Hc2 g3 s) by (done || by eapply ids_le_trans).
      rewrite (Hk2 g3) by done. by rewrite wrote_wrote.
  - exists (Throw e), ws1, l1, g1. split; [done|]. split.
    + intros s Hs. unfold bind. by rewrite (Hc1 s Hs).
    + intros g3 s Hg3 Hs. unfold bind. by rewrite (Hc2 g3 s).
  - exists Crash, ws1, l1, g1. split; [done|]. split.
    + intros s Hs. unfold bind. by rewrite (Hc1 s Hs).
    + intros g3 s Hg3 Hs. unfold bind. by rewrite (Hc2 g3 s).
Qed.

Lemma sw_try_catch key (c : M A) (h : exn → M A) :
  stable_writer key c → (∀ e, stable_writer key (h e)) →
  stable_writer key (try_catch c h).
Proof.
  intros Hc Hh g. destruct (Hc g) as (r1 & ws1 & l1 & g1 & Hg1 & Hc1 & Hc2).
  destruct r1 as [a|e|].
  - exists (Ret a), ws1, l1, g1. split; [done|]. split.
    + intros s Hs. unfold try_catch. by rewrite (Hc1 s Hs).
    + intros g3 s Hg3 Hs. unfold try_catch. by rewrite (Hc2 g3 s).
  - destruct (Hh e g1) as (r2 & ws2 & l2 & g2 & Hg2 & Hk1 & Hk2).
    exists r2, (ws1 ++ ws2), (l1 ++ l2), g2.
    split; [by eapply ids_le_trans|]. split.
    + intros s Hs. unfold try_catch. rewrite (Hc1 s Hs).
      rewrite Hk1 by done. by rewrite wrote_wrote.
    + intros g3 s Hg3 Hs. unfold try_catch.
      rewrite (Hc2 g3 s) by (done || by eapply ids_le_trans).
      rewrite (Hk2 g3) by done. by rewrite wrote_wrote.
  - exists Crash, ws1, l1, g1. split; [done|]. split.
    + intros s Hs. unfold try_catch. by rewrite (Hc1 s Hs).
    + intros g3 s Hg3 Hs. unfold try_catch. by rewrite (Hc2 g3 s).
Qed.

End stable_writer_facts.

Lemma sw_OM_write key o : stable_writer key (OM_write key o).
Proof.
  apply (sw_const key _ (Ret ()) [o] []). intros s.
  unfold OM_write, OM_commit, modify_om, wrote. simpl. by rewrite app_nil_r.
Qed.

Lemma sw_LOG key msg : stable_writer key (LOG msg).
Proof. by apply (sw_const key _ (Ret ()) [] [msg]). Qed.

Lemma sw_id_gen_get key cid uri : stable_writer key (id_gen_get cid uri).
Proof.
  intros g. exists (Ret (id_get cid uri g).1), [], [], (id_get cid uri g).2.
  split; [apply ids_le_id_get|]. split.
  - intros s <-. unfold id_gen_get, set_ids, wrote. simpl.
    by rewrite app_nil_r.
  - intros g2 s Hle <-. unfold id_gen_get.
    rewrite (Hle cid uri _ (id_get_allocates cid uri g)). simpl.
    unfold set_ids, wrote. simpl. by rewrite app_nil_r.
Qed.

Lemma sw_for_each {A} key (l : list A) (body : A → M unit) :
  (∀ a, stable_writer key (body a)) → stable_writer key (for_each l body).
Proof.
  intros Hbody. induction l as [|a l IH]; simpl.
  - apply sw_ret.
  - apply sw_bind; [apply Hbody|done].
Qed.

(** One statement at a time, the statement recognised by its syntax; a
    branch on policy data is followed into each of its arms. *)
Ltac sw :=
  repeat
    (cbv beta iota zeta;
     lazymatch goal with
     | |- stable_writer _ (bind _ _) => apply sw_bind; [|intros ?]
     | |- stable_writer _ (try_catch _ _) => apply sw_try_catch; [|intros ?]
     | |- stable_writer _ (OM_write _ _) => apply sw_OM_write
     | |- stable_writer _ (LOG _) => apply sw_LOG
     | |- stable_writer _ (id_gen_get _ _) => apply sw_id_gen_get
     | |- stable_writer _ (ret _) => apply sw_ret
     | |- stable_writer _ (throw _) => apply sw_throw
     | |- stable_writer _ (deref _) => apply sw_deref
     | |- stable_writer _ (match ?x with _ => _ end) => destruct x
     end).

(** ** The renderers only assert, log and allocate *)

Section writer_facts.
Variable lib : Library.
Variable upl : UplinkAccessors.
Variable ForwardInfo_new : EndPointGroupManager.ForwardInfo.

Local Abbreviation get_fwd_info :=
  (EndPointGroupManager.get_fwd_info ForwardInfo_new).
Local Abbreviation mk_mcast_tunnel := (EndPointGroupManager.mk_mcast_tunnel lib upl).
Local Abbreviation mk_bvi := EndPointGroupManager.mk_bvi.
Local Abbreviation mk_group_try :=
  (EndPointGroupManager.mk_group_try lib upl ForwardInfo_new).
Local Abbreviation mk_group :=
  (EndPointGroupManager.mk_group lib upl ForwardInfo_new).
Local Abbreviation render_subnet := (EndPointGroupManager.render_subnet lib).
Local Abbreviation handle_update_body :=
  (EndPointGroupManager.handle_update_body lib upl ForwardInfo_new).
Local Abbreviation handle_update :=
  (EndPointGroupManager.handle_update lib upl ForwardInfo_new).

Lemma sw_get_fwd_info key rt uri : stable_writer key (get_fwd_info rt uri).
Proof. unfold EndPointGroupManager.get_fwd_info. sw. Qed.

Lemma sw_mk_interface key u vnid :
  stable_writer key (Uplink.mk_interface u key vnid).
Proof. unfold Uplink.mk_interface. sw. Qed.

Lemma sw_spine_tunnel key sp remote :
  stable_writer key (spine_tunnel sp remote key).
Proof. unfold spine_tunnel. sw. Qed.

Lemma sw_mk_mcast_tunnel key rt vni maddr :
  stable_writer key (mk_mcast_tunnel rt key vni maddr).
Proof. unfold EndPointGroupManager.mk_mcast_tunnel. sw. Qed.

Lemma sw_mk_bvi key rt bd rd mac : stable_writer key (mk_bvi rt key bd rd mac).
Proof. unfold EndPointGroupManager.mk_bvi. sw. Qed.

Lemma sw_mk_group_try key rt uri : stable_writer key (mk_group_try rt key uri).
Proof.
  unfold EndPointGroupManager.mk_group_try.
  apply sw_bind; [apply sw_get_fwd_info|intros fwd].
  apply sw_bind; [apply sw_OM_write|intros _].
  apply sw_bind; [apply sw_OM_write|intros _].
  apply sw_bind; [apply sw_mk_bvi|intros bvi].
  apply sw_bind; [|intros gepg; sw].
  destruct (spine_proxy upl (uplink rt) (EndPointGroupManager.vnid fwd))
    as [sp|].
  - apply sw_bind; [apply sw_spine_tunnel|intros v4].
    apply sw_bind; [apply sw_spine_tunnel|intros v6].
    apply sw_bind; [apply sw_OM_write|intros _].
    apply sw_bind; [|intros g; sw].
    destruct (getBDVnidForGroup (policy_manager rt) uri) as [bd_vnid|];
      [|apply sw_ret].
    destruct (getBDMulticastIPForGroup (policy_manager rt) uri) as [bd_mcast|];
      [|apply sw_ret].
    apply sw_bind; [apply sw_mk_mcast_tunnel|intros vt_mc].
    apply sw_bind; [apply sw_OM_write|intros _].
    apply sw_bind; [apply sw_spine_tunnel|intros mac].
    sw.
  - apply sw_bind; [apply sw_mk_interface|intros encap_link].
    sw.
Qed.

Lemma sw_mk_group key rt uri : stable_writer key (mk_group rt key uri).
Proof.
  unfold EndPointGroupManager.mk_group.
  apply sw_try_catch; [apply sw_mk_group_try|intros e; sw].
Qed.

Lemma sw_render_subnet key bvi bd rd pm sn :
  stable_writer key (render_subnet key bvi bd rd pm sn).
Proof. unfold EndPointGroupManager.render_subnet. sw. Qed.

Lemma sw_handle_update_body rt uri :
  stable_writer uri (handle_update_body rt uri uri).
Proof.
  unfold EndPointGroupManager.handle_update_body.
  apply sw_bind; [apply sw_LOG|intros _].
  destruct (negb _); [apply sw_LOG|].
  apply sw_bind; [apply sw_mk_group|intros [gepg|]]; [|apply sw_ret].
  apply sw_bind; [apply sw_OM_write|intros _].
  apply sw_bind; [apply sw_OM_write|intros _].
  apply sw_for_each. intros sn. apply sw_render_subnet.
Qed.

End writer_facts.

(** ** Passes of handle_update *)

Section pass_update_facts.
Variable lib : Library.
Variable upl : UplinkAccessors.
Variable ForwardInfo_new : EndPointGroupManager.ForwardInfo.

Local Abbreviation get_fwd_info :=
  (EndPointGroupManager.get_fwd_info ForwardInfo_new).
Local Abbreviation handle_update_body :=
  (EndPointGroupManager.handle_update_body lib upl ForwardInfo_new).
Local Abbreviation handle_update :=
  (EndPointGroupManager.handle_update lib upl ForwardInfo_new).

(** A pass is: mark, a run of assertions that depends on the policy and on
    the ID generator only, and (unless the process died) sweep. *)
Lemma handle_update_pass rt uri g :
  ∃ r ws logs g',
    ids_le g g'
    ∧ ∀ g2 s, (g2 = g' ∧ st_ids s = g) ∨ (ids_le g' g2 ∧ st_ids s = g2) →
        handle_update rt uri s
        = (r, scope_exit uri r (wrote uri ws logs g2 (OM_mark uri s))).
Proof.
  destruct (sw_handle_update_body lib upl ForwardInfo_new rt uri g)
    as (r & ws & logs & g' & Hle & H1 & H2).
  exists r, ws, logs, g'. split; [done|]. intros g2 s Hs.
  assert (Hbody : handle_update_body rt uri uri (OM_mark uri s)
                  = (r, wrote uri ws logs g2 (OM_mark uri s))).
  { destruct Hs as [[-> Hs]|[Hg2 Hs]]; [by apply H1|by apply H2]. }
  unfold EndPointGroupManager.handle_update, mark_n_sweep, scoped.
  rewrite Hbody. by destruct r.
Qed.

(** X1: a second pass over a group whose policy has not changed returns as
    the first did and changes nothing but the log: the database, the ID
    generator, the lease and the task queue are as the first pass left
    them. *)
Theorem handle_update_second_pass_changes_nothing rt uri s :
  (handle_update rt uri s).1 ≠ Crash →
  ∃ logs,
    (handle_update rt uri (handle_update rt uri s).2).1
    = (handle_update rt uri s).1
    ∧ logged logs (handle_update rt uri s).2
             (handle_update rt uri (handle_update rt uri s).2).2.
Proof.
  destruct (handle_update_pass rt uri (st_ids s))
    as (r & ws & logs & g' & Hle & Hrun).
  rewrite (Hrun g' s) by (left; done). simpl. intros Hr.
  set (s1 := scope_exit uri r _).
  assert (Hids : st_ids s1 = g') by (unfold s1; by destruct r).
  rewrite (Hrun g' s1) by (right; split; [apply ids_le_refl|done]).
  exists logs. split; [done|]. simpl.
  assert (Hs1 : s1 = OM_sweep uri (wrote uri ws logs g' (OM_mark uri s)))
    by (unfold s1; by destruct r).
  assert (scope_exit uri r (wrote uri ws logs g' (OM_mark uri s1))
          = OM_sweep uri (wrote uri ws logs g' (OM_mark uri s1))) as ->
    by (by destruct r).
  unfold logged. rewrite Hs1. unfold OM_sweep, OM_mark, modify_om, wrote.
  simpl. f_equal. apply (om_pass_idempotent uri ws (st_om s)).
Qed.

(** X2: whatever the policy and however the pass ends, handle_update for a
    group touches no other key of the database, leaves the lease and the
    task queue alone, only adds to the log, and withdraws no ID. *)
Theorem handle_update_frame rt uri s :
  om_frame uri s (handle_update rt uri s).2
  ∧ st_lease (handle_update rt uri s).2 = st_lease s
  ∧ st_taskQueue (handle_update rt uri s).2 = st_taskQueue s
  ∧ st_log s `prefix_of` st_log (handle_update rt uri s).2
  ∧ ids_le (st_ids s) (st_ids (handle_update rt uri s).2).
Proof.
  destruct (handle_update_pass rt uri (st_ids s))
    as (r & ws & logs & g' & Hle & Hrun).
  rewrite (Hrun g' s) by (left; done). simpl.
  assert (Hfr : ∀ k, k ≠ uri →
    st_om (scope_exit uri r (wrote uri ws logs g' (OM_mark uri s))) !! k
    = st_om s !! k).
  { intros k Hk. destruct r; simpl;
      rewrite ?(om_pass_lookup_ne uri k ws (st_om s) Hk); try done.
    unfold om_mark. by rewrite om_inserts_lookup_ne, lookup_insert_ne. }
  split; [exact Hfr|].
  destruct r; simpl; (split; [done|]); (split; [done|]);
    (split; [by eexists|done]).
Qed.

(** X3: what a group's key holds after a pass depends on the policy and on
    the ID generator, not on what the key held before: everything an
    earlier pass left and this one did not assert again is gone. *)
Theorem handle_update_forgets_previous_content rt uri s s0 :
  st_ids s = st_ids s0 →
  (handle_update rt uri s).1 ≠ Crash →
  (handle_update rt uri s0).1 = (handle_update rt uri s).1
  ∧ ∀ o, o ∈ om_owned uri (st_om (handle_update rt uri s).2)
         ↔ o ∈ om_owned uri (st_om (handle_update rt uri s0).2).
Proof.
  intros Hids.
  destruct (handle_update_pass rt uri (st_ids s))
    as (r & ws & logs & g' & Hle & Hrun).
  rewrite (Hrun g' s) by (left; done).
  rewrite (Hrun g' s0) by (left; done). simpl. intros Hr.
  split; [done|]. intros o.
  assert (Hown : ∀ s, o ∈ om_owned uri
      (st_om (scope_exit uri r (wrote uri ws logs g' (OM_mark uri s))))
      ↔ o ∈ ws).
  { intros s'.
    assert (scope_exit uri r (wrote uri ws logs g' (OM_mark uri s'))
            = OM_sweep uri (wrote uri ws logs g' (OM_mark uri s'))) as ->
      by (by destruct r).
    simpl. unfold om_owned, om_sweep. rewrite om_find_insert.
    change (o ∈ om_asserted uri (om_inserts uri ws (om_mark uri (st_om s')))
            ↔ o ∈ ws).
    rewrite om_asserted_inserts, om_asserted_mark. split.
    - intros [H|[_ H]]; [by apply elem_of_nil in H|done].
    - intros H. by right. }
  by rewrite !Hown.
Qed.

(** X4: get_fwd_info changes nothing but the ID generator, from which it
    withdraws nothing; asked again for the same group it gives the same
    answer (the same forwarding information, or the same exception) and
    allocates no further ID. *)
Theorem get_fwd_info_repeatable rt uri s :
  ∃ g',
    (get_fwd_info rt uri s).2 = set_ids g' s
    ∧ ids_le (st_ids s) g'
    ∧ get_fwd_info rt uri (set_ids g' s)
      = ((get_fwd_info rt uri s).1, set_ids g' s).
Proof.
  destruct (sw_get_fwd_info ForwardInfo_new uri rt uri (st_ids s))
    as (r & ws & logs & g' & Hle & H1 & H2).
  assert (Hids : ∀ s, (get_fwd_info rt uri s).2
                      = set_ids (st_ids (get_fwd_info rt uri s).2) s).
  { intros s'. unfold EndPointGroupManager.get_fwd_info.
    destruct (getVnidForGroup _ _); [|by destruct s'].
    destruct (getBDForGroup _ _); [|by destruct s'].
    destruct (getRDForGroup _ _); by destruct s'. }
  exists g'. specialize (Hids s). rewrite (H1 s eq_refl) in Hids |- *.
  simpl in Hids. split; [exact Hids|]. split; [done|].
  rewrite (H2 g' (set_ids g' s) (ids_le_refl _) eq_refl). simpl. f_equal.
  unfold wrote, set_ids in *. simpl in *.
  injection Hids as Hom Hlog. by rewrite Hom, Hlog.
Qed.

End pass_update_facts.

Lemma handle_update_second_pass_changes_nothing_witness :
  let render := EndPointGroupManager.handle_update Fixture.lib0
                  Fixture.upl_stitched Fixture.fwd0
                  (Fixture.rt0 [Fixture.subnetsfd0_1]) Fixture.epg0 in
  ∃ logs,
    (render (render Fixture.s0).2).1 = (render Fixture.s0).1
    ∧ logged logs (render Fixture.s0).2 (render (render Fixture.s0).2).2.
Proof.
  apply (handle_update_second_pass_changes_nothing Fixture.lib0
           Fixture.upl_stitched Fixture.fwd0
           (Fixture.rt0 [Fixture.subnetsfd0_1]) Fixture.epg0 Fixture.s0).
  vm_compute. discriminate.
Defined.

Lemma handle_update_forgets_previous_content_witness :
  let render := EndPointGroupManager.handle_update Fixture.lib0
                  Fixture.upl_stitched Fixture.fwd0
                  (Fixture.rt0 [Fixture.subnetsfd0_1]) Fixture.epg0 in
  O_route_domain (mk_route_domain 77)
    ∈ om_owned Fixture.epg0 (st_om Fixture.s_left_over)
  ∧ (render Fixture.s0).1 = (render Fixture.s_left_over).1
  ∧ ∀ o, o ∈ om_owned Fixture.epg0 (st_om (render Fixture.s_left_over).2)
         ↔ o ∈ om_owned Fixture.epg0 (st_om (render Fixture.s0).2).
Proof.
  split; [vm_compute; apply list_elem_of_here|].
  apply (handle_update_forgets_previous_content Fixture.lib0
           Fixture.upl_stitched Fixture.fwd0
           (Fixture.rt0 [Fixture.subnetsfd0_1]) Fixture.epg0
           Fixture.s_left_over Fixture.s0).
  - reflexivity.
  - vm_compute. discriminate.
Defined.

(** ** The parts of a group *)

Section group_facts.
Variable lib : Library.
Variable upl : UplinkAccessors.
Variable ForwardInfo_new : EndPointGroupManager.ForwardInfo.

Local Abbreviation mk_mcast_tunnel :=
  (EndPointGroupManager.mk_mcast_tunnel lib upl).
Local Abbreviation mk_bvi := EndPointGroupManager.mk_bvi.
Local Abbreviation mk_group_try :=
  (EndPointGroupManager.mk_group_try lib upl ForwardInfo_new).
Local Abbreviation mk_group :=
  (EndPointGroupManager.mk_group lib upl ForwardInfo_new).
Local Abbreviation handle_update :=
  (EndPointGroupManager.handle_update lib upl ForwardInfo_new).

Ltac run :=
  cbv beta iota zeta;
  lazymatch goal with
  | |- crashes (bind (deref None) _) _ =>
      apply crashes_bind_l, crashes_deref_None
  | |- crashes (bind (bind (deref None) _) _) _ =>
      apply crashes_bind_l, crashes_bind_l, crashes_deref_None
  | |- crashes (bind (bind (bind (deref None) _) _) _) _ =>
      apply crashes_bind_l, crashes_bind_l, crashes_bind_l, crashes_deref_None
  | |- crashes (bind _ _) _ => apply crashes_bind
  | |- _ => mstep
  end.

(** X5: mk_bvi always returns.  The BVI it builds is named after the
    bridge domain's ID and routed in the routing domain; its MAC is the one
    passed in, else the virtual router's, else none.  The BVI, its binding
    into the bridge domain, and an L2 FIB entry of the bridge domain for
    the BVI's MAC are asserted under the key, and nothing is withdrawn. *)
Theorem mk_bvi_mac_precedence r key bd rd mac s :
  returns (mk_bvi r key bd rd mac) s (λ bvi s',
    bvi = Interface ("bvi-" +:+ pretty (bd_id bd)) type_BVI admin_UP (Some rd)
            (match mac with
             | Some m => Some m
             | None => vr_mac <$> vr r
             end)
    ∧ O_interface bvi ∈ om_asserted key (st_om s')
    ∧ O_l2_binding (mk_l2_binding bvi bd L2_VTR_DISABLED 0)
      ∈ om_asserted key (st_om s')
    ∧ O_bridge_domain_entry
        (mk_bridge_domain_entry bd (default 0 (l2_address bvi)) bvi)
      ∈ om_asserted key (st_om s')
    ∧ om_step s s').
Proof.
  unfold EndPointGroupManager.mk_bvi. repeat mstep.
  split; [by destruct mac, (vr r)|].
  split; [asserted|]. split; [asserted|]. split; [asserted|]. stepped.
Qed.



(** X8: in stitched mode (no spine proxy for the group's vnid), for a group
    whose forwarding information is resolved, mk_group fails exactly when
    the uplink is in VLAN mode and has not been configured: the
    sub-interface is then built on an empty uplink pointer.  The update of
    such a group dies with it. *)
Theorem mk_group_stitched_crashes_iff
    (rt : Runtime) (key : key_t) (uri : URI) v bdom s :
  getVnidForGroup (policy_manager rt) uri = Some v →
  getBDForGroup (policy_manager rt) uri = Some bdom →
  spine_proxy upl (uplink rt) v = None →
  (crashes (mk_group rt key uri) s
   ↔ Uplink.m_type (uplink rt) = Uplink.VLAN
     ∧ Uplink.m_uplink (uplink rt) = None)
  ∧ (¬ crashes (mk_group rt key uri) s →
     ∃ g, (mk_group rt key uri s).1 = Ret (Some g))
  ∧ (groupExists (policy_manager rt) uri = true → key = uri →
     crashes (mk_group rt key uri) s → crashes (handle_update rt uri) s).
Proof.
  intros Hv Hbd Hsp.
  assert (Hfwd : ∀ s0, returns
            (EndPointGroupManager.get_fwd_info ForwardInfo_new rt uri) s0
            (λ fwd _, EndPointGroupManager.vnid fwd = v)).
  { intros s0. eapply returns_conseq;
      [by apply (get_fwd_info_returns ForwardInfo_new rt uri s0 v bdom)|].
    by intros fwd s1 (Hvnid & _). }
  assert (Hbad : ∀ s0, Uplink.m_type (uplink rt) = Uplink.VLAN →
            Uplink.m_uplink (uplink rt) = None →
            crashes (mk_group rt key uri) s0).
  { intros s0 Hty Hup. apply crashes_try_catch.
    unfold EndPointGroupManager.mk_group_try, EndPointGroupManager.mk_bvi.
    apply crashes_bind. eapply returns_conseq; [apply Hfwd|].
    intros fwd s1 Hvnid. cbv beta in Hvnid |- *. rewrite Hvnid, Hsp.
    unfold Uplink.mk_interface. rewrite Hty, Hup. by repeat run. }
  assert (Hgood : (Uplink.m_type (uplink rt) = Uplink.VLAN
                   ∧ Uplink.m_uplink (uplink rt) = None → False) →
            ∃ g, (mk_group rt key uri s).1 = Ret (Some g)).
  { intros Hok.
    cut (returns (mk_group_try rt key uri) s (λ a _, ∃ g, a = Some g)).
    { intros (a & s' & Hrun & g & ->). exists g.
      unfold EndPointGroupManager.mk_group, try_catch. by rewrite Hrun. }
    unfold EndPointGroupManager.mk_group_try, EndPointGroupManager.mk_bvi.
    mstep. eapply returns_conseq; [apply Hfwd|].
    intros fwd s1 Hvnid. cbv beta in Hvnid |- *. rewrite Hvnid, Hsp.
    repeat mstep. unfold Uplink.mk_interface.
    destruct (Uplink.m_type (uplink rt)).
    - repeat mstep. by eexists.
    - destruct (Uplink.m_uplink (uplink rt)) as [itf|]; [|by destruct Hok].
      repeat mstep. by eexists. }
  split; [split|split].
  - intros Hcrash.
    destruct (Uplink.m_type (uplink rt)) eqn:Hty.
    + destruct Hgood as [g Hg]; [by intros [? _]|].
      unfold crashes in Hcrash. congruence.
    + destruct (Uplink.m_uplink (uplink rt)) eqn:Hup; [|done].
      destruct Hgood as [g Hg]; [by intros [_ ?]|].
      unfold crashes in Hcrash. congruence.
  - intros [Hty Hup]. by apply Hbad.
  - intros Hnc. apply Hgood. intros [Hty Hup]. apply Hnc. by apply Hbad.
  - intros Hex -> Hcrash.
    assert (Hty : Uplink.m_type (uplink rt) = Uplink.VLAN
                  ∧ Uplink.m_uplink (uplink rt) = None).
    { destruct (Uplink.m_type (uplink rt)) eqn:Hty.
      - destruct Hgood as [g Hg]; [by intros [? _]|].
        unfold crashes in Hcrash. congruence.
      - destruct (Uplink.m_uplink (uplink rt)) eqn:Hup; [|done].
        destruct Hgood as [g Hg]; [by intros [_ ?]|].
        unfold crashes in Hcrash. congruence. }
    destruct Hty as [Hty Hup].
    unfold EndPointGroupManager.handle_update, mark_n_sweep.
    apply crashes_scoped.
    unfold EndPointGroupManager.handle_update_body.
    repeat run. rewrite Hex. cbn [negb].
    apply crashes_bind_l. by apply Hbad.
Qed.

End group_facts.


Lemma mk_group_stitched_crashes_iff_witness :
  crashes (EndPointGroupManager.handle_update Fixture.lib0
             Fixture.upl_stitched Fixture.fwd0 Fixture.rt_fresh Fixture.epg0)
          Fixture.s0
  ∧ ∃ g, (EndPointGroupManager.mk_group Fixture.lib0 Fixture.upl_stitched
            Fixture.fwd0 (Fixture.rt0 []) Fixture.epg0 Fixture.epg0
            Fixture.s0).1 = Ret (Some g).
Proof.
  split.
  - destruct (mk_group_stitched_crashes_iff Fixture.lib0 Fixture.upl_stitched
                Fixture.fwd0 Fixture.rt_fresh Fixture.epg0 Fixture.epg0
                0xA0A (mk_BridgeDomain Fixture.bd0) Fixture.s0
                eq_refl eq_refl eq_refl)
      as (Hiff & _ & Hupd).
    apply Hupd; [reflexivity|reflexivity|].
    apply Hiff. split; reflexivity.
  - destruct (mk_group_stitched_crashes_iff Fixture.lib0 Fixture.upl_stitched
                Fixture.fwd0 (Fixture.rt0 []) Fixture.epg0 Fixture.epg0
                0xA0A (mk_BridgeDomain Fixture.bd0) Fixture.s0
                eq_refl eq_refl eq_refl)
      as (_ & Hgood & _).
    apply Hgood. vm_compute. discriminate.
Defined.

(** ** The uplink keeps to its key *)

Section confined_facts.
Context {A B : Type}.
Implicit Types key : key_t.

Lemma confined_const key (c : M A) r : (∀ s, c s = (r, s)) → confined key c.
Proof. intros Hc s. rewrite Hc. by split. Qed.

Lemma confined_ret key (a : A) : confined key (ret a).
Proof. by apply (confined_const key _ (Ret a)). Qed.

Lemma confined_deref key (p : option A) : confined key (deref p).
Proof.
  destruct p; [apply confined_ret|]. by apply (confined_const key _ Crash).
Qed.

Lemma confined_bind key (c : M A) (k : A → M B) :
  confined key c → (∀ a, confined key (k a)) → confined key (bind c k).
Proof.
  intros Hc Hk s. specialize (Hc s). unfold bind.
  destruct (c s) as [[a|e|] s1]; simpl in Hc; [|done..].
  destruct Hc as (Hf1 & Hs1 & Hi1). destruct (Hk a s1) as (Hf2 & Hs2 & Hi2).
  split; [|split].
  - intros k' Hk'. by rewrite Hf2, Hf1.
  - by etransitivity.
  - congruence.
Qed.

End confined_facts.

Lemma confined_OM_commit key o : confined key (OM_commit key o).
Proof.
  intros s. split; [|split; [apply om_step_write|done]].
  intros k Hk. simpl. by apply om_insert_lookup_ne.
Qed.

Lemma confined_OM_write key o : confined key (OM_write key o).
Proof. apply confined_OM_commit. Qed.

Lemma confined_LOG key msg : confined key (LOG msg).
Proof. intros s. by split. Qed.

Lemma confined_get_lease key : confined key get_lease.
Proof. intros s. by split. Qed.

Lemma confined_enslave sifs acc :
  confined Uplink.UPLINK_KEY (Uplink.enslave sifs acc).
Proof.
  revert acc. induction sifs as [|sif rest IH]; intros acc; simpl.
  - apply confined_ret.
  - apply confined_bind; [apply confined_OM_write|intros _; apply IH].
Qed.

Ltac confined :=
  repeat
    (cbv beta iota zeta;
     lazymatch goal with
     | |- confined _ (bind _ _) => apply confined_bind; [|intros ?]
     | |- confined _ (OM_write _ _) => apply confined_OM_write
     | |- confined _ (OM_commit _ _) => apply confined_OM_commit
     | |- confined _ (LOG _) => apply confined_LOG
     | |- confined _ get_lease => apply confined_get_lease
     | |- confined _ (Uplink.enslave _ _) => apply confined_enslave
     | |- confined _ (ret _) => apply confined_ret
     | |- confined _ (deref _) => apply confined_deref
     | |- confined _ (match ?x with _ => _ end) => destruct x
     end).

Section uplink_confined.
Variable lib : Library.

Lemma confined_configure_tap u pfx :
  confined Uplink.UPLINK_KEY (Uplink.configure_tap lib u pfx).
Proof. unfold Uplink.configure_tap. confined. Qed.

(** X9: what the uplink does to the state, it does under its own key.
    configure, whatever the lease, and the handling of a DHCP event,
    whenever it runs, change what no group's key holds, withdraw nothing,
    allocate no ID, and leave the lease and the task queue alone. *)
Theorem uplink_keeps_to_its_key u fqdn lease :
  confined Uplink.UPLINK_KEY (Uplink.configure lib u fqdn)
  ∧ confined Uplink.UPLINK_KEY (Uplink.handle_dhcp_event_i lib u lease)
  ∧ confined Uplink.UPLINK_KEY
      (Uplink.run_task lib (bind_handle_dhcp_event_i lease) u).
Proof.
  assert (Hi : confined Uplink.UPLINK_KEY
                 (Uplink.handle_dhcp_event_i lib u lease)).
  { unfold Uplink.handle_dhcp_event_i.
    apply confined_bind; [apply confined_LOG|intros _].
    apply confined_bind; [apply confined_configure_tap|intros _].
    apply confined_ret. }
  split; [|by split].
  unfold Uplink.configure.
  apply confined_bind; [confined|intros u1].
  do 7 (apply confined_bind; [confined|intros ?]).
  apply confined_bind; [apply confined_get_lease|intros [l|]]; [|confined].
  case_decide; [|confined].
  apply confined_bind; [apply confined_LOG|intros _].
  apply confined_bind; [apply confined_configure_tap|intros _].
  apply confined_ret.
Qed.

End uplink_confined.

(** ** What configure writes *)

Lemma bind_eq {A B} (c : M A) (k : A → M B) s a s1 r s2 :
  c s = (Ret a, s1) → k a s1 = (r, s2) → bind c k s = (r, s2).
Proof. intros Hc Hk. unfold bind. by rewrite Hc. Qed.

Lemma OM_commit_wrote key o ws logs g s :
  OM_commit key o (wrote key ws logs g s)
  = (Ret (), wrote key (ws ++ [o]) logs g s).
Proof.
  unfold OM_commit, modify_om, wrote. simpl. by rewrite om_inserts_app.
Qed.

Lemma OM_write_wrote key o ws logs g s :
  OM_write key o (wrote key ws logs g s)
  = (Ret (), wrote key (ws ++ [o]) logs g s).
Proof. apply OM_commit_wrote. Qed.

Lemma LOG_wrote key msg ws logs g s :
  LOG msg (wrote key ws logs g s)
  = (Ret (), wrote key ws (logs ++ [msg]) g s).
Proof. unfold LOG, add_log, wrote. simpl. by rewrite app_assoc. Qed.

Lemma get_lease_wrote key ws logs g s :
  get_lease (wrote key ws logs g s)
  = (Ret (st_lease s), wrote key ws logs g s).
Proof. done. Qed.

Lemma enslave_run sifs acc :
  ∃ members,
    (∀ ws logs g s,
       Uplink.enslave sifs acc (wrote Uplink.UPLINK_KEY ws logs g s)
       = (Ret members,
          wrote Uplink.UPLINK_KEY
                (ws ++ (O_interface ∘ slave_interface <$> sifs)) logs g s))
    ∧ ∀ bm, bm ∈ members
            ↔ bm ∈ acc
              ∨ ∃ sif, sif ∈ sifs
                  ∧ bm = mk_bond_member (slave_interface sif) member_ACTIVE
                                        rate_SLOW.
Proof.
  revert acc. induction sifs as [|sif rest IH]; intros acc.
  - exists acc. split; [intros; simpl; by rewrite app_nil_r|].
    intros bm. split; [by left|]. intros [?|(sif & Hin & _)]; [done|].
    by apply elem_of_nil in Hin.
  - set (bm0 := mk_bond_member (slave_interface sif) member_ACTIVE rate_SLOW).
    destruct (IH (if decide (bm0 ∈ acc) then acc else acc ++ [bm0]))
      as (members & Hrun & Hmem).
    exists members. split.
    + intros ws logs g s. cbn [Uplink.enslave].
      eapply bind_eq; [apply OM_write_wrote|].
      fold (slave_interface sif). fold bm0. rewrite Hrun.
      by rewrite <-app_assoc.
    + intros bm. rewrite Hmem. split.
      * intros [Hin|(sif' & Hin & ->)].
        -- case_decide; [by left|].
           apply elem_of_app in Hin as [?|Hin]; [by left|].
           apply list_elem_of_singleton in Hin as ->.
           right. exists sif. split; [apply list_elem_of_here|done].
        -- right. exists sif'. split; [by apply list_elem_of_further|done].
      * intros [Hin|(sif' & Hin & ->)].
        -- left. case_decide; [done|]. apply elem_of_app. by left.
        -- apply elem_of_cons in Hin as [->|Hin].
           ++ left. case_decide; [done|]. apply elem_of_app. right.
              by apply list_elem_of_singleton.
           ++ right. by exists sif'.
Qed.

(** A run of statements from a state in which the writes so far are
    listed: each statement adds its own. *)
Ltac ev :=
  cbv beta iota zeta;
  lazymatch goal with
  | |- bind _ _ _ = _ => eapply bind_eq; [ev|ev]
  | |- OM_write _ _ (wrote _ _ _ _ _) = _ => apply OM_write_wrote
  | |- OM_commit _ _ (wrote _ _ _ _ _) = _ => apply OM_commit_wrote
  | |- LOG _ (wrote _ _ _ _ _) = _ => apply LOG_wrote
  | |- get_lease (wrote _ _ _ _ _) = _ => apply get_lease_wrote
  | |- ret _ _ = _ => reflexivity
  | |- deref (Some _) _ = _ => reflexivity
  | |- _ => idtac
  end.

Section configure_facts.
Variable lib : Library.

(** The objects configure_tap asserts for a prefix, in order. *)
Local Abbreviation tap_objects up vlan pfx :=
  (let itf := TapInterface "tuntap-0" type_TAP admin_UP pfx in
   let subitf := SubInterface up admin_UP vlan in
   [ O_interface itf;
     O_l3_binding (mk_l3_binding subitf pfx);
     O_ip_unnumbered (mk_ip_unnumbered itf subitf);
     O_arp_proxy_config
       (mk_arp_proxy_config (to_v4 lib (pfx_address (low lib pfx)))
                            (to_v4 lib (pfx_address (high lib pfx))));
     O_arp_proxy_binding (mk_arp_proxy_binding itf) ]).

Lemma configure_tap_run u up pfx ws logs g s :
  Uplink.m_uplink u = Some up →
  Uplink.configure_tap lib u pfx (wrote Uplink.UPLINK_KEY ws logs g s)
  = (Ret (),
     wrote Uplink.UPLINK_KEY (ws ++ tap_objects up (Uplink.m_vlan u) pfx)
           logs g s).
Proof.
  intros Hup. unfold Uplink.configure_tap. rewrite Hup.
  etransitivity; [ev|]. by rewrite <-!app_assoc.
Qed.

(** configure as one run of assertions under the uplink's key. *)
Lemma configure_run u fqdn s :
  let up := uplink_interface u in
  let subitf := SubInterface up admin_UP (Uplink.m_vlan u) in
  let u1 := Uplink.set_m_uplink u (Some up) in
  ∃ members,
    (∀ bm, bm ∈ members
           ↔ ∃ sif, sif ∈ Uplink.slave_ifaces u
               ∧ bm = mk_bond_member (slave_interface sif) member_ACTIVE
                                     rate_SLOW)
    ∧ let first :=
        if decide (type_BOND = Uplink.getIntfTypeFromName (Uplink.m_iface u))
        then O_interface up
             :: (O_interface ∘ slave_interface <$> Uplink.slave_ifaces u)
             ++ (if decide (members = []) then []
                 else [O_bond_group_binding (mk_bond_group_binding up members)])
        else [O_interface up] in
      let base :=
        first
        ++ [ O_route_domain (mk_route_domain 0);
             O_route_domain (mk_route_domain 0);
             O_lldp_global (mk_lldp_global fqdn 5 2);
             O_lldp_binding (mk_lldp_binding up "uplink-interface");
             O_interface subitf;
             O_dhcp_client
               (mk_dhcp_client subitf (Uplink.strip_domain fqdn)
                               (l2_address up) true) ] in
      let waiting :=
        (Ret u1,
         wrote Uplink.UPLINK_KEY base ["DHCP awaiting lease"] (st_ids s) s) in
      Uplink.configure lib u fqdn s
      = match st_lease s with
        | Some l =>
            if decide (lease_state l ≠ DISCOVER)
            then (Ret (Uplink.set_m_vxlan_src u1
                         (pfx_address (host_prefix l))),
                  wrote Uplink.UPLINK_KEY
                        (base ++ tap_objects up (Uplink.m_vlan u)
                                             (host_prefix l))
                        ["DHCP present: "] (st_ids s) s)
            else waiting
        | None => waiting
        end.
Proof.
  intros up subitf u1.
  destruct (enslave_run (Uplink.slave_ifaces u) []) as (members & Hrun & Hmem).
  exists members. split.
  { intros bm. rewrite Hmem. split; [|by right].
    intros [Hin|?]; [by apply elem_of_nil in Hin|done]. }
  intros first base waiting.
  assert (Hfirst : ∀ (k : Uplink.t → M Uplink.t) r s2,
    k u1 (wrote Uplink.UPLINK_KEY first [] (st_ids s) s) = (r, s2) →
    bind
      (if decide (type_BOND = Uplink.getIntfTypeFromName (Uplink.m_iface u))
       then
         let bitf := BondInterface (Uplink.m_iface u) admin_UP bond_LACP
                                   lb_L2 in
         OM_write Uplink.UPLINK_KEY (O_interface bitf) ;;;
         slave_itfs <- Uplink.enslave (Uplink.slave_ifaces u) [] ;;
         (if decide (slave_itfs = []) then ret ()
          else OM_write Uplink.UPLINK_KEY
                 (O_bond_group_binding
                    (mk_bond_group_binding bitf slave_itfs))) ;;;
         ret (Uplink.set_m_uplink u (Some bitf))
       else
         let itf := Interface (Uplink.m_iface u)
                      (Uplink.getIntfTypeFromName (Uplink.m_iface u))
                      admin_UP None None in
         OM_write Uplink.UPLINK_KEY (O_interface itf) ;;;
         ret (Uplink.set_m_uplink u (Some itf))) k s = (r, s2)).
  { intros k r s2 Hk. rewrite <-(wrote_nil Uplink.UPLINK_KEY s) at 1.
    unfold first, u1, up, uplink_interface in *. case_decide.
    - eapply bind_eq; [|exact Hk].
      eapply bind_eq; [apply OM_write_wrote|]. cbv beta.
      eapply bind_eq; [apply Hrun|]. cbv beta.
      eapply bind_eq; [|reflexivity].
      destruct (decide (members = [])); cbn [app]; rewrite ?app_nil_r;
        [reflexivity|apply OM_write_wrote].
    - eapply bind_eq; [|exact Hk]. by ev. }
  unfold Uplink.configure.
  destruct (st_lease s) as [l|] eqn:Hl;
    [destruct (decide (lease_state l ≠ DISCOVER)) as [Hst|Hst]|];
    unfold waiting; apply Hfirst;
    cbn [Uplink.m_uplink Uplink.set_m_uplink u1 Uplink.m_vlan];
    fold up; fold subitf.
  - etransitivity; [ev; rewrite Hl, (decide_True _ _ Hst); ev|].
    + by apply configure_tap_run.
    + unfold base. by rewrite <-!app_assoc.
  - etransitivity; [ev; rewrite Hl, (decide_False _ _ Hst); ev|].
    unfold base. by rewrite <-!app_assoc.
  - etransitivity; [ev; rewrite Hl; ev|].
    unfold base. by rewrite <-!app_assoc.
Qed.

Lemma getIntfTypeFromName_range name :
  Uplink.getIntfTypeFromName name
  ∈ [type_BOND; type_ETHERNET; type_TAP; type_AFPACKET].
Proof.
  unfold Uplink.getIntfTypeFromName.
  repeat (destruct (Uplink.contains _ name);
          [rewrite !elem_of_cons; by auto 6|]).
  rewrite !elem_of_cons. by auto 6.
Qed.

Lemma handle_dhcp_event_i_run u up lease s :
  Uplink.m_uplink u = Some up →
  Uplink.handle_dhcp_event_i lib u lease s
  = (Ret (Uplink.set_m_vxlan_src u (pfx_address (host_prefix lease))),
     wrote Uplink.UPLINK_KEY
           (tap_objects up (Uplink.m_vlan u) (host_prefix lease))
           ["DHCP Event: "] (st_ids s) s).
Proof.
  intros Hup. rewrite <-(wrote_nil Uplink.UPLINK_KEY s) at 1.
  unfold Uplink.handle_dhcp_event_i.
  eapply bind_eq; [apply LOG_wrote|]. cbv beta.
  eapply bind_eq; [by apply configure_tap_run|]. done.
Qed.

(** X10: configure always returns, whatever the uplink's name, its slaves
    and the lease.  It records as the uplink's interface the one it built
    from the name and changes nothing else of the uplink but, possibly,
    the tunnel source.  From then on neither mk_interface nor the handling
    of a DHCP event meets an empty uplink pointer: both return, for every
    key, vnid and lease and in every state. *)
Theorem configure_makes_uplink_usable u fqdn s :
  returns (Uplink.configure lib u fqdn) s (λ u' _,
    Uplink.m_uplink u' = Some (uplink_interface u)
    ∧ Uplink.set_m_vxlan_src u' (Uplink.m_vxlan_src u)
      = Uplink.set_m_uplink u (Some (uplink_interface u))
    ∧ (∀ key vnid s2,
         returns (Uplink.mk_interface u' key vnid) s2 (λ link _,
           link ≠ None))
    ∧ (∀ lease s2,
         returns (Uplink.handle_dhcp_event_i lib u' lease) s2 (λ u'' _,
           u'' = Uplink.set_m_vxlan_src u' (pfx_address (host_prefix lease))))).
Proof.
  destruct (configure_run u fqdn s) as (members & _ & Hrun).
  cbv zeta in Hrun.
  assert (Hpost : ∀ u', Uplink.m_uplink u' = Some (uplink_interface u) →
    (∀ key vnid s2,
       returns (Uplink.mk_interface u' key vnid) s2 (λ link _, link ≠ None))
    ∧ (∀ lease s2,
         returns (Uplink.handle_dhcp_event_i lib u' lease) s2 (λ u'' _,
           u'' = Uplink.set_m_vxlan_src u'
                   (pfx_address (host_prefix lease))))).
  { intros u' Hup. split.
    - intros key vnid s2. unfold Uplink.mk_interface. rewrite Hup.
      destruct (Uplink.m_type u'); by repeat mstep.
    - intros lease s2. eexists _, _.
      split; [by apply handle_dhcp_event_i_run|done]. }
  unfold returns. rewrite Hrun.
  destruct (st_lease s) as [l|]; [case_decide|];
    (eexists _, _; split; [reflexivity|]);
    (split; [done|]); (split; [by destruct u|]); by apply Hpost.
Qed.

(** X11: when the DHCP client holds no lease at the time configure runs, or
    one that is still in DISCOVER, configure applies none: the tunnel
    source stays as it was, the last thing logged is that the lease is
    awaited, and no TAP interface and none of its addressing is asserted
    that was not asserted before. *)
Theorem configure_without_lease_waits u fqdn s :
  (∀ l, st_lease s = Some l → lease_state l = DISCOVER) →
  returns (Uplink.configure lib u fqdn) s (λ u' s',
    Uplink.m_vxlan_src u' = Uplink.m_vxlan_src u
    ∧ st_log s' = st_log s ++ ["DHCP awaiting lease"]
    ∧ ∀ k o, tap_object o = true →
        o ∈ om_asserted k (st_om s') → o ∈ om_asserted k (st_om s)).
Proof.
  intros Hlease.
  destruct (configure_run u fqdn s) as (members & _ & Hrun).
  cbv zeta in Hrun. unfold returns. rewrite Hrun.
  destruct (st_lease s) as [l|] eqn:Hl;
    [rewrite decide_False by (intros Hne; apply Hne; by apply Hlease)|];
    (eexists _, _; split; [reflexivity|]);
    (split; [by destruct u|]); (split; [done|]);
    intros k o Htap Hin; cbn [st_om wrote] in Hin;
    (apply om_asserted_inserts in Hin as [?|[_ Hin]]; [done|]);
    exfalso; apply elem_of_app in Hin as [Hin|Hin].
  all: try (rewrite !elem_of_cons in Hin;
            destruct Hin as [->|[->|[->|[->|[->|[->|Hin]]]]]];
            [done..|by apply elem_of_nil in Hin]).
  all: unfold uplink_interface in Hin; case_decide.
  all: try (apply list_elem_of_singleton in Hin as ->; done).
  all: apply elem_of_cons in Hin as [->|Hin]; [done|].
  all: apply elem_of_app in Hin as [Hin|Hin].
  all: try (apply list_elem_of_fmap in Hin as (sif & -> & _); done).
  all: case_decide; [by apply elem_of_nil in Hin|].
  all: apply list_elem_of_singleton in Hin as ->; done.
Qed.


(** X13: in VXLAN mode the tunnel of a group runs from the address of the
    last lease to the remote set from the configuration.  After
    set(uplink, vlan, name, remote, port) and configure, once the task
    queue has run the work item of a DHCP event, mk_interface asserts
    under the group's key, and returns, the tunnel from the lease's
    address to [remote] with the group's vnid. *)
Theorem vxlan_tunnel_source_is_lease_address
    u iface vlan encap_name remote port fqdn s :
  returns
    (Uplink.configure lib (Uplink.set_vxlan u iface vlan encap_name remote port)
                      fqdn) s
    (λ u1 _, ∀ lease s2,
       returns (Uplink.run_task lib (bind_handle_dhcp_event_i lease) u1) s2
         (λ u2 _, ∀ key vnid s3,
            let vt := VxlanTunnel (pfx_address (host_prefix lease)) remote
                                  vnid mode_STANDARD in
            Uplink.mk_interface u2 key vnid s3
            = (Ret (Some vt), modify_om (om_insert key (O_interface vt)) s3))).
Proof.
  set (u0 := Uplink.set_vxlan u iface vlan encap_name remote port).
  destruct (configure_run u0 fqdn s) as (members & _ & Hrun).
  cbv zeta in Hrun. unfold returns at 1. rewrite Hrun. clear Hrun.
  assert (Hpost : ∀ u1,
    Uplink.m_uplink u1 = Some (uplink_interface u0) →
    Uplink.m_type u1 = Uplink.VXLAN → Uplink.m_vxlan_dst u1 = remote →
    ∀ lease s2,
      returns (Uplink.run_task lib (bind_handle_dhcp_event_i lease) u1) s2
        (λ u2 _, ∀ key vnid s3,
           let vt := VxlanTunnel (pfx_address (host_prefix lease)) remote
                                 vnid mode_STANDARD in
           Uplink.mk_interface u2 key vnid s3
           = (Ret (Some vt), modify_om (om_insert key (O_interface vt)) s3))).
  { intros u1 Hup Hty Hdst lease s2. eexists _, _.
    split; [by apply handle_dhcp_event_i_run|].
    intros key vnid s3. unfold Uplink.mk_interface.
    cbn [Uplink.m_type Uplink.set_m_vxlan_src Uplink.m_vxlan_src
         Uplink.m_vxlan_dst].
    by rewrite Hty, Hdst. }
  destruct (st_lease s) as [l|];
    [destruct (decide (lease_state l ≠ DISCOVER))|];
    (eexists _, _; split; [reflexivity|]); by apply Hpost.
Qed.

(** X14: in VLAN mode the link of a group is a sub-interface of the
    uplink, and its binding always pops the tag.  After
    set(uplink, vlan, name) and configure, mk_interface asserts and returns
    the sub-interface of the uplink's interface tagged with the vnid; the
    type of that link is the type the uplink's name stands for, which is
    never VXLAN. *)
Theorem vlan_link_is_never_vxlan u iface vlan encap_name fqdn s :
  returns
    (Uplink.configure lib (Uplink.set_vlan u iface vlan encap_name) fqdn) s
    (λ u1 _, ∀ key vnid s2,
       let sb := SubInterface
                   (uplink_interface (Uplink.set_vlan u iface vlan encap_name))
                   admin_UP vnid in
       Uplink.mk_interface u1 key vnid s2
       = (Ret (Some sb), modify_om (om_insert key (O_interface sb)) s2)
       ∧ type sb = Uplink.getIntfTypeFromName iface
       ∧ type sb ≠ type_VXLAN).
Proof.
  set (u0 := Uplink.set_vlan u iface vlan encap_name).
  destruct (configure_run u0 fqdn s) as (members & _ & Hrun).
  cbv zeta in Hrun. unfold returns. rewrite Hrun. clear Hrun.
  assert (Hty : type (uplink_interface u0) = Uplink.getIntfTypeFromName iface).
  { unfold uplink_interface. cbn [u0 Uplink.set_vlan Uplink.m_iface].
    case_decide; [|done]. by cbn [type]. }
  assert (Hpost : ∀ u1,
    Uplink.m_uplink u1 = Some (uplink_interface u0) →
    Uplink.m_type u1 = Uplink.VLAN →
    ∀ key vnid s2,
      let sb := SubInterface (uplink_interface u0) admin_UP vnid in
      Uplink.mk_interface u1 key vnid s2
      = (Ret (Some sb), modify_om (om_insert key (O_interface sb)) s2)
      ∧ type sb = Uplink.getIntfTypeFromName iface
      ∧ type sb ≠ type_VXLAN).
  { intros u1 Hup Hmode key vnid s2. cbv zeta. split; [|split].
    - unfold Uplink.mk_interface. by rewrite Hmode, Hup.
    - by cbn [type].
    - cbn [type]. rewrite Hty. intros Heq.
      pose proof (getIntfTypeFromName_range iface) as Hr. rewrite Heq in Hr.
      rewrite !elem_of_cons in Hr.
      repeat (destruct Hr as [Hr|Hr]; [discriminate Hr|]).
      by apply elem_of_nil in Hr. }
  destruct (st_lease s) as [l|];
    [destruct (decide (lease_state l ≠ DISCOVER))|];
    (eexists _, _; split; [reflexivity|]); by apply Hpost.
Qed.

End configure_facts.

Lemma configure_without_lease_waits_witness :
  returns (Uplink.configure Fixture.lib0 Fixture.uplink_fresh
             "host.example.com") Fixture.s0
    (λ u' s', Uplink.m_vxlan_src u' = V4 0
              ∧ st_log s' = ["DHCP awaiting lease"]).
Proof.
  eapply returns_conseq.
  - apply (configure_without_lease_waits Fixture.lib0 Fixture.uplink_fresh
             "host.example.com" Fixture.s0).
    intros l Hl. discriminate Hl.
  - intros u' s' (Hsrc & Hlog & _). split; [exact Hsrc|exact Hlog].
Defined.

(** ** Names *)

Lemma append_nil_l s : EmptyString +:+ s = s.
Proof. done. Qed.

Lemma append_cons c s1 s2 : String c s1 +:+ s2 = String c (s1 +:+ s2).
Proof. done. Qed.

Lemma prefix_append sub s :
  String.prefix sub s = true ↔ ∃ post, s = sub +:+ post.
Proof.
  revert s. induction sub as [|c sub IH]; intros s.
  - split; [by exists s|by destruct s].
  - destruct s as [|c' s]; [split; [done|by intros [? ?]]|].
    cbn [String.prefix]. destruct (Ascii.ascii_dec c c') as [->|Hne].
    + rewrite IH. split.
      * intros [post ->]. by exists post.
      * intros [post [= ->]]. by exists post.
    + split; [done|]. intros [post [= ? _]]. congruence.
Qed.

Lemma contains_substring sub s :
  Uplink.contains sub s = true ↔ substring sub s.
Proof.
  split.
  - induction s as [|c s IH]; cbn [Uplink.contains].
    + destruct (String.prefix sub EmptyString) eqn:Hp; [|done]. intros _.
      apply prefix_append in Hp as [post ->]. by exists EmptyString, post.
    + destruct (String.prefix sub (String c s)) eqn:Hp.
      * intros _. apply prefix_append in Hp as [post ->]. by exists EmptyString, post.
      * intros (pre & post & ->)%IH. by exists (String c pre), post.
  - intros (pre & post & ->). induction pre as [|c pre IH].
    + assert (Hp : String.prefix sub (sub +:+ post) = true)
        by (apply prefix_append; by exists post).
      rewrite append_nil_l.
      destruct (sub +:+ post); cbn [Uplink.contains]; by rewrite Hp.
    + rewrite append_cons. cbn [Uplink.contains]. rewrite IH.
      by destruct (String.prefix _ _).
Qed.

(** X15: the interface type is read off the name by the first of "Bond",
    "Ethernet" and "tap" that occurs in it, in that order of precedence
    and whatever else the name holds; a name with none of them is that of
    an af-packet interface. *)
Theorem getIntfTypeFromName_precedence name :
  (Uplink.getIntfTypeFromName name = type_BOND ↔ substring "Bond" name)
  ∧ (Uplink.getIntfTypeFromName name = type_ETHERNET
     ↔ ¬ substring "Bond" name ∧ substring "Ethernet" name)
  ∧ (Uplink.getIntfTypeFromName name = type_TAP
     ↔ ¬ substring "Bond" name ∧ ¬ substring "Ethernet" name
       ∧ substring "tap" name)
  ∧ (Uplink.getIntfTypeFromName name = type_AFPACKET
     ↔ ¬ substring "Bond" name ∧ ¬ substring "Ethernet" name
       ∧ ¬ substring "tap" name).
Proof.
  unfold Uplink.getIntfTypeFromName.
  rewrite <-!contains_substring.
  destruct (Uplink.contains "Bond" name), (Uplink.contains "Ethernet" name),
    (Uplink.contains "tap" name); repeat split; try done; intuition congruence.
Qed.

(** X16: the host name handed to the DHCP client is the fully qualified
    name up to its first dot: it holds no dot, and it is the whole name or
    is followed in it by a dot. *)
Theorem strip_domain_up_to_first_dot fqdn :
  ¬ substring "." (Uplink.strip_domain fqdn)
  ∧ (Uplink.strip_domain fqdn = fqdn
     ∨ ∃ rest, fqdn = Uplink.strip_domain fqdn +:+ "." +:+ rest).
Proof.
  induction fqdn as [|c s [IHno IHpre]]; cbn [Uplink.strip_domain].
  - split; [|by left]. intros ([|??] & post & Heq); discriminate Heq.
  - destruct (Ascii.eqb_spec c (Ascii.ascii_of_nat 46)) as [->|Hne].
    + split; [intros ([|??] & post & Heq); discriminate Heq|].
      right. by exists s.
    + split.
      * intros ([|c' pre] & post & Heq).
        -- rewrite append_nil_l, append_cons in Heq.
           injection Heq as -> _. by apply Hne.
        -- rewrite append_cons in Heq.
           injection Heq as -> Heq. apply IHno. by exists pre, post.
      * destruct IHpre as [->|[rest Hrest]]; [by left|].
        right. exists rest. rewrite append_cons. by rewrite <-Hrest.
Qed.

(** ** VPPRenderer *)

Section renderer_facts.
Variable lib : Library.
Variable tr : Translators.
Variable xconnect_to_string : VPPRenderer.xconnect_t → string.

Local Abbreviation setProperties :=
  (VPPRenderer.setProperties lib tr xconnect_to_string).
Local Abbreviation run_op := (run_op lib tr xconnect_to_string).

(** X17: agentLevelToVom maps different agent log levels to different
    levels of VOM's logger; FATAL is VOM's CRITICAL. *)
Theorem agentLevelToVom_injective l1 l2 :
  VPPRenderer.agentLevelToVom l1 = VPPRenderer.agentLevelToVom l2 → l1 = l2.
Proof. by destruct l1, l2. Qed.

Global Instance config_step_preorder : PreOrder config_step.
Proof.
  split.
  - by split.
  - intros r1 r2 r3 [H1 L1] [H2 L2]. split; congruence.
Qed.

Lemma config_step_LOG msg r : config_step r (VPPRenderer.LOG msg r).
Proof. by split. Qed.

Lemma config_step_with_uplink f r : config_step r (VPPRenderer.with_uplink f r).
Proof. by split. Qed.

Lemma config_step_do_call c r :
  is_lifecycle c = false → config_step r (VPPRenderer.do_call c r).
Proof.
  intros Hc. split; [done|]. unfold lifecycle. simpl.
  rewrite filter_app, filter_cons_False by (by rewrite Hc).
  by rewrite filter_nil, app_nil_r.
Qed.

Lemma config_step_foldl {A} (f : VPPRenderer.t → A → VPPRenderer.t) l r :
  (∀ r a, config_step r (f r a)) → config_step r (foldl f r l).
Proof.
  intros Hf. revert r. induction l as [|a l IH]; intros r; simpl; [done|].
  etransitivity; [apply Hf|apply IH].
Qed.

Lemma config_step_setProperties p r : config_step r (setProperties p r).
Proof.
  unfold VPPRenderer.setProperties.
  repeat
    (cbv zeta;
     lazymatch goal with
     | |- config_step ?r ?r => reflexivity
     | |- config_step _ (if decide _ then _ else _) => case_decide
     | |- config_step _ (match ?x with _ => _ end) => destruct x
     | |- config_step _ (VPPRenderer.do_call _ _) =>
         etransitivity; [|by apply config_step_do_call]
     | |- config_step _ (VPPRenderer.LOG _ _) =>
         etransitivity; [|apply config_step_LOG]
     | |- config_step _ (VPPRenderer.with_uplink _ _) =>
         etransitivity; [|apply config_step_with_uplink]
     | |- config_step _ (foldl _ _ _) =>
         etransitivity; [|apply config_step_foldl; intros ? ?]
     end).
Qed.

(** X18: however the agent interleaves start, stop and configuration, the
    manager is started and stopped in turn.  From a renderer that has not
    been started, the calls that reach the manager's start,
    registerModbListeners and stop are a number of complete runs (start,
    register, stop), followed by start and register exactly when the
    renderer is left started: the manager is never started twice in a row,
    never stopped unless started, and listeners are registered once per
    start. *)
Theorem start_stop_alternate (ops : list renderer_op) (r0 : VPPRenderer.t) :
  VPPRenderer.started r0 = false →
  lifecycle (VPPRenderer.calls r0) = [] →
  ∃ n,
    lifecycle (VPPRenderer.calls (foldl run_op r0 ops))
    = manager_runs n
      ++ (if VPPRenderer.started (foldl run_op r0 ops)
          then [VPPRenderer.VppManager_start;
                VPPRenderer.VppManager_registerModbListeners]
          else []).
Proof.
  intros Hst Hcalls.
  cut (∀ r n,
         lifecycle (VPPRenderer.calls r)
         = manager_runs n
           ++ (if VPPRenderer.started r
               then [VPPRenderer.VppManager_start;
                     VPPRenderer.VppManager_registerModbListeners]
               else []) →
         ∃ n',
           lifecycle (VPPRenderer.calls (foldl run_op r ops))
           = manager_runs n'
             ++ (if VPPRenderer.started (foldl run_op r ops)
                 then [VPPRenderer.VppManager_start;
                       VPPRenderer.VppManager_registerModbListeners]
                 else [])).
  { intros Hinv. apply (Hinv r0 O). by rewrite Hst, Hcalls. }
  induction ops as [|o ops IH]; intros r n Hr; simpl; [by exists n|].
  destruct o as [| |p]; simpl.
  - unfold VPPRenderer.start. destruct (VPPRenderer.started r) eqn:Hs.
    + apply (IH r n). by rewrite Hs.
    + apply (IH _ n). unfold lifecycle in *. simpl.
      rewrite <-app_assoc, filter_app, Hr. by rewrite app_nil_r.
  - unfold VPPRenderer.stop. destruct (VPPRenderer.started r) eqn:Hs; simpl.
    + apply (IH _ (S n)). unfold lifecycle in *. simpl.
      rewrite filter_app, Hr. simpl. by rewrite app_nil_r, <-app_assoc.
    + apply (IH r n). by rewrite Hs.
  - apply (IH _ n).
    destruct (config_step_setProperties p r) as [-> ->]. exact Hr.
Qed.


Lemma uplink_foldl {A} (f : VPPRenderer.t → A → VPPRenderer.t) l r :
  (∀ r a, VPPRenderer.uplink (f r a) = VPPRenderer.uplink r) →
  VPPRenderer.uplink (foldl f r l) = VPPRenderer.uplink r.
Proof.
  intros Hf. revert r. induction l as [|a l IH]; intros r; simpl; [done|].
  by rewrite IH, Hf.
Qed.








Lemma set_inserts_elem l names n :
  n ∈ set_inserts l names ↔ n ∈ l ∨ n ∈ names.
Proof.
  unfold set_inserts. revert l.
  induction names as [|m names IH]; intros l; simpl.
  - split; [by left|]. intros [?|H]; [done|]. by apply elem_of_nil in H.
  - rewrite IH. case_decide as Hm.
    + split.
      * intros [?|?]; [by left|]. right. by apply list_elem_of_further.
      * intros [?|[->|?]%elem_of_cons]; auto.
    + rewrite elem_of_app, list_elem_of_singleton, elem_of_cons. tauto.
Qed.

Lemma set_inserts_present l names :
  (∀ n, n ∈ names → n ∈ l) → set_inserts l names = l.
Proof.
  unfold set_inserts. induction names as [|m names IH]; intros Hin; simpl.
  - done.
  - rewrite decide_True by apply Hin, list_elem_of_here.
    apply IH. intros n Hn. by apply Hin, list_elem_of_further.
Qed.

Lemma set_inserts_idempotent l names :
  set_inserts (set_inserts l names) names = set_inserts l names.
Proof.
  apply set_inserts_present. intros n Hn. apply set_inserts_elem. by right.
Qed.

Lemma uplink_slaves_loop l r :
  VPPRenderer.uplink
    (foldl (λ r (s : string * ptree),
              VPPRenderer.LOG (data s.2)
                (VPPRenderer.with_uplink
                   (λ u, Uplink.insert_slave_ifaces u (data s.2)) r)) r l)
  = let u := VPPRenderer.uplink r in
    Uplink.mk (Uplink.m_type u) (Uplink.m_vxlan_src u) (Uplink.m_vxlan_dst u)
      (Uplink.m_iface u) (Uplink.m_vlan u) (Uplink.m_uplink u)
      (set_inserts (Uplink.slave_ifaces u)
                   ((λ kv : string * ptree, data kv.2) <$> l))
      (Uplink.dhcp_options u).
Proof.
  revert r. induction l as [|s l IH]; intros r; simpl.
  - by destruct (VPPRenderer.uplink r).
  - by rewrite IH.
Qed.

Lemma uplink_options_loop l r :
  VPPRenderer.uplink
    (foldl (λ r (d : string * ptree),
              VPPRenderer.LOG (data d.2)
                (VPPRenderer.with_uplink
                   (λ u, Uplink.insert_dhcp_options u (data d.2)) r)) r l)
  = let u := VPPRenderer.uplink r in
    Uplink.mk (Uplink.m_type u) (Uplink.m_vxlan_src u) (Uplink.m_vxlan_dst u)
      (Uplink.m_iface u) (Uplink.m_vlan u) (Uplink.m_uplink u)
      (Uplink.slave_ifaces u)
      (set_inserts (Uplink.dhcp_options u)
                   ((λ kv : string * ptree, data kv.2) <$> l)).
Proof.
  revert r. induction l as [|s l IH]; intros r; simpl.
  - by destruct (VPPRenderer.uplink r).
  - by rewrite IH.
Qed.

(** What setProperties leaves in the uplink, from the uplink it finds. *)
Lemma setProperties_uplink p r :
  let u := VPPRenderer.uplink r in
  VPPRenderer.uplink (setProperties p r)
  = match get_child_optional VPPRenderer.ENCAP_VLAN p with
    | Some vlan =>
        Uplink.mk Uplink.VLAN (Uplink.m_vxlan_src u) (Uplink.m_vxlan_dst u)
          (VPPRenderer.get_string VPPRenderer.UPLINK_IFACE EmptyString vlan)
          (VPPRenderer.get_uint16 tr VPPRenderer.UPLINK_VLAN 0 vlan)
          (Uplink.m_uplink u)
          (set_inserts (Uplink.slave_ifaces u)
                       (child_data VPPRenderer.UPLINK_SLAVES vlan))
          (set_inserts (Uplink.dhcp_options u)
                       (child_data VPPRenderer.DHCP_OPTIONS vlan))
    | None =>
        match get_child_optional VPPRenderer.ENCAP_VXLAN p with
        | Some vxlan =>
            Uplink.mk Uplink.VXLAN (Uplink.m_vxlan_src u)
              (from_string lib
                 (VPPRenderer.get_string VPPRenderer.REMOTE_IP EmptyString vxlan))
              (VPPRenderer.get_string VPPRenderer.UPLINK_IFACE EmptyString vxlan)
              (VPPRenderer.get_uint16 tr VPPRenderer.UPLINK_VLAN 0 vxlan)
              (Uplink.m_uplink u) (Uplink.slave_ifaces u)
              (Uplink.dhcp_options u)
        | None => u
        end
    end.
Proof.
  intros u. unfold VPPRenderer.setProperties. cbv zeta.
  assert (Hx : ∀ r0 (x : string * ptree),
    VPPRenderer.uplink
      match get_child_optional VPPRenderer.EAST x.2 with
      | Some east =>
          match get_child_optional VPPRenderer.WEST x.2 with
          | Some west =>
              let xcon_east :=
                VPPRenderer.mk_xconnect
                  (VPPRenderer.get_string VPPRenderer.IFACE EmptyString east)
                  (VPPRenderer.get_uint16 tr VPPRenderer.VLAN 0 east)
                  (VPPRenderer.get_string VPPRenderer.IP EmptyString east) in
              let xcon_west :=
                VPPRenderer.mk_xconnect
                  (VPPRenderer.get_string VPPRenderer.IFACE EmptyString west)
                  (VPPRenderer.get_uint16 tr VPPRenderer.VLAN 0 west)
                  (VPPRenderer.get_string VPPRenderer.IP EmptyString west) in
              VPPRenderer.LOG (xconnect_to_string xcon_west)
                (VPPRenderer.LOG (xconnect_to_string xcon_east)
                   (VPPRenderer.do_call
                      (VPPRenderer.insert_xconnect xcon_east xcon_west) r0))
          | None => r0
          end
      | None => r0
      end = VPPRenderer.uplink r0).
  { intros r0 x.
    by destruct (get_child_optional VPPRenderer.EAST x.2),
                (get_child_optional VPPRenderer.WEST x.2). }
  destruct (decide _); cbn [VPPRenderer.uplink VPPRenderer.do_call].
  all: destruct (get_child_optional VPPRenderer.CROSS_CONNECT p);
    [rewrite (uplink_foldl _ _ _ Hx)|].
  all: destruct (get_child_optional VPPRenderer.VIRTUAL_ROUTER p);
    cbn [VPPRenderer.uplink VPPRenderer.do_call].
  all: unfold child_data;
    destruct (get_child_optional VPPRenderer.ENCAP_VLAN p) as [vlan|];
    [destruct (get_child_optional VPPRenderer.DHCP_OPTIONS vlan),
              (get_child_optional VPPRenderer.UPLINK_SLAVES vlan)
    |destruct (get_child_optional VPPRenderer.ENCAP_VXLAN p)];
    rewrite ?uplink_options_loop, ?uplink_slaves_loop; cbv zeta;
    rewrite ?uplink_slaves_loop; try done.
  all: by destruct r as [? []].
Qed.


(** X21: configuration is merged, not accumulated: handing the renderer
    the same configuration a second time leaves the uplink as the first time
    left it. *)
Theorem setProperties_twice_same_uplink p r :
  VPPRenderer.uplink (setProperties p (setProperties p r))
  = VPPRenderer.uplink (setProperties p r).
Proof.
  rewrite (setProperties_uplink p (setProperties p r)). cbv zeta.
  rewrite (setProperties_uplink p r). cbv zeta.
  destruct (get_child_optional VPPRenderer.ENCAP_VLAN p) as [vlan|];
    [|by destruct (get_child_optional VPPRenderer.ENCAP_VXLAN p)].
  cbn [Uplink.m_vxlan_src Uplink.m_vxlan_dst Uplink.m_uplink
       Uplink.slave_ifaces Uplink.dhcp_options].
  by rewrite !set_inserts_idempotent.
Qed.

End renderer_facts.

Lemma agentLevelToVom_injective_witness :
  VPPRenderer.FATAL = VPPRenderer.FATAL.
Proof.
  apply (agentLevelToVom_injective VPPRenderer.FATAL VPPRenderer.FATAL).
  reflexivity.
Defined.

Lemma start_stop_alternate_witness :
  let ops := [op_start; op_start; op_setProperties Fixture.config0; op_stop;
              op_stop; op_start] in
  ∃ n,
    lifecycle
      (VPPRenderer.calls
         (foldl (run_op Fixture.lib0 Fixture.tr0 Fixture.xconnect_to_string0)
                Fixture.renderer0 ops))
    = manager_runs n
      ++ (if VPPRenderer.started
               (foldl (run_op Fixture.lib0 Fixture.tr0
                              Fixture.xconnect_to_string0)
                      Fixture.renderer0 ops)
          then [VPPRenderer.VppManager_start;
                VPPRenderer.VppManager_registerModbListeners]
          else []).
Proof.
  apply (start_stop_alternate Fixture.lib0 Fixture.tr0
           Fixture.xconnect_to_string0); reflexivity.
Defined.



(** ** MockCmdQ *)

Section mock_facts.
Implicit Types (heap : gmap nat MockCmdQ.cmd) (c : nat) (h : Z).

Lemma handle_cmd_eq c h heap :
  MockCmdQ.handle_cmd c (h, heap)
  = (if is_create heap c then MockCmdQ.next_handle h else h,
     alter (λ cm,
              MockCmdQ.set_succeeded
                (if is_create heap c
                 then MockCmdQ.set_item (MockCmdQ.next_handle h,
                                         MockCmdQ.rc_OK) cm
                 else cm)) c heap).
Proof.
  unfold MockCmdQ.handle_cmd, is_create.
  destruct (heap !! c) as [[[] it su]|] eqn:Hc; simpl.
  - rewrite lookup_alter_eq, Hc. simpl. f_equal.
    rewrite alter_alter_eq. by apply alter_ext.
  - rewrite Hc. simpl. f_equal.
    rewrite alter_alter_eq. by apply alter_ext.
  - rewrite Hc. simpl. done.
  - rewrite Hc. simpl. done.
Qed.

Lemma next_handle_range h :
  0 ≤ MockCmdQ.next_handle h < 2 ^ 32.
Proof. unfold MockCmdQ.next_handle. apply Z.mod_pos_bound. lia. Qed.

Lemma is_create_ext heap heap' :
  (∀ c, MockCmdQ.kind <$> heap' !! c = MockCmdQ.kind <$> heap !! c) →
  ∀ c, is_create heap' c = is_create heap c.
Proof. intros H c. unfold is_create. by rewrite H. Qed.

Lemma creates_ext heap heap' cmds :
  (∀ c, MockCmdQ.kind <$> heap' !! c = MockCmdQ.kind <$> heap !! c) →
  creates heap' cmds = creates heap cmds.
Proof.
  intros H. unfold creates. f_equal. f_equal. apply list_filter_iff.
  intros c. by rewrite (is_create_ext _ _ H).
Qed.

Lemma creates_cons heap c cmds :
  creates heap (c :: cmds)
  = (if is_create heap c then 1 else 0) + creates heap cmds.
Proof.
  unfold creates. destruct (is_create heap c) eqn:Hc.
  - rewrite filter_cons_True by done. simpl length. lia.
  - rewrite filter_cons_False by (by rewrite Hc). lia.
Qed.

Lemma write_loop_spec cmds h heap :
  0 ≤ h < 2 ^ 32 →
  let st' := MockCmdQ.write_loop cmds (h, heap) in
  st'.1 = (h + creates heap cmds) mod 2 ^ 32
  ∧ (∀ c, MockCmdQ.kind <$> st'.2 !! c = MockCmdQ.kind <$> heap !! c)
  ∧ (∀ c, c ∉ cmds → st'.2 !! c = heap !! c)
  ∧ (∀ c, c ∈ cmds →
          MockCmdQ.succeeded <$> st'.2 !! c = (λ _, true) <$> heap !! c)
  ∧ (∀ c, is_create heap c = false →
          MockCmdQ.item <$> st'.2 !! c = MockCmdQ.item <$> heap !! c)
  ∧ (∀ pre c post, cmds = pre ++ c :: post → c ∉ post →
       is_create heap c = true →
       MockCmdQ.item <$> st'.2 !! c
       = Some (Some ((h + creates heap (pre ++ [c])) mod 2 ^ 32,
                     MockCmdQ.rc_OK))).
Proof.
  revert h heap. induction cmds as [|c0 cmds IH]; intros h heap Hh; cbv zeta.
  - simpl. split; [|split; [done|split; [done|split]]].
    + unfold creates. simpl. rewrite Z.add_0_r, Z.mod_small; lia.
    + intros c Hc. by apply elem_of_nil in Hc.
    + split; [done|]. by intros [|??] ???.
  - cbn [MockCmdQ.write_loop]. rewrite handle_cmd_eq.
    set (h1 := if is_create heap c0 then MockCmdQ.next_handle h else h).
    set (f := λ cm, MockCmdQ.set_succeeded
                      (if is_create heap c0
                       then MockCmdQ.set_item (MockCmdQ.next_handle h,
                                               MockCmdQ.rc_OK) cm
                       else cm)).
    set (heap1 := alter f c0 heap).
    assert (Hh1 : 0 ≤ h1 < 2 ^ 32).
    { unfold h1. destruct (is_create heap c0); [apply next_handle_range|done]. }
    assert (Hkind1 : ∀ c, MockCmdQ.kind <$> heap1 !! c
                          = MockCmdQ.kind <$> heap !! c).
    { intros c. unfold heap1. destruct (decide (c = c0)) as [->|Hne].
      - rewrite lookup_alter_eq. destruct (heap !! c0) as [cm|]; [|done].
        simpl. unfold f. by destruct (is_create heap c0).
      - by rewrite lookup_alter_ne. }
    assert (Hsum : ∀ k,
      (h1 + k) mod 2 ^ 32
      = (h + ((if is_create heap c0 then 1 else 0) + k)) mod 2 ^ 32).
    { intros k. unfold h1, MockCmdQ.next_handle.
      destruct (is_create heap c0); [|done].
      rewrite Z.add_mod_idemp_l by lia. f_equal. lia. }
    destruct (IH h1 heap1 Hh1) as (Hhandle & Hkind & Hout & Hsucc & Hitem & Hord).
    split; [|split; [|split; [|split; [|split]]]].
    + rewrite Hhandle, (creates_ext _ _ _ Hkind1), creates_cons. apply Hsum.
    + intros c. by rewrite Hkind, Hkind1.
    + intros c Hc. apply not_elem_of_cons in Hc as [Hne Hc].
      rewrite Hout by done. unfold heap1. by rewrite lookup_alter_ne.
    + intros c Hc. destruct (decide (c ∈ cmds)) as [Hin|Hnin].
      * rewrite Hsucc by done. unfold heap1.
        destruct (decide (c = c0)) as [->|Hne].
        -- rewrite lookup_alter_eq. by destruct (heap !! c0).
        -- by rewrite lookup_alter_ne.
      * apply elem_of_cons in Hc as [->|?]; [|done].
        rewrite Hout by done. unfold heap1. rewrite lookup_alter_eq.
        by destruct (heap !! c0).
    + intros c Hc. rewrite Hitem by (by rewrite (is_create_ext _ _ Hkind1)).
      unfold heap1. destruct (decide (c = c0)) as [->|Hne].
      * rewrite lookup_alter_eq. destruct (heap !! c0) as [cm|]; [|done].
        simpl. unfold f. by rewrite Hc.
      * by rewrite lookup_alter_ne.
    + intros pre c post Heq Hpost Hcreate. destruct pre as [|c' pre].
      * injection Heq as <- <-.
        rewrite Hout by done. unfold heap1. rewrite lookup_alter_eq.
        assert (is_Some (heap !! c0)) as [cm Hcm].
        { unfold is_create in Hcreate. by destruct (heap !! c0). }
        rewrite Hcm. simpl. unfold f. rewrite Hcreate. simpl.
        do 3 f_equal. unfold MockCmdQ.next_handle. f_equal.
        rewrite creates_cons, Hcreate. unfold creates. simpl. lia.
      * injection Heq as <- ->.
        rewrite (Hord pre c post eq_refl Hpost)
          by (by rewrite (is_create_ext _ _ Hkind1)).
        do 3 f_equal. rewrite (creates_ext _ _ _ Hkind1).
        rewrite <-app_comm_cons, creates_cons. apply Hsum.
Qed.

(** X22: write() of the mock queue empties the queue and reports OK.
    Every command that was queued has succeeded() called on it and keeps
    its type; commands that were not queued are untouched.  The create
    commands (af-packet and sub-interface) are given handles in the order
    in which they were queued, counting up from the queue's handle and
    wrapping at 2^32; other commands are given none.  The queue's handle
    ends advanced by the number of create commands written. *)
Theorem write_drains_in_order (q : MockCmdQ.t) heap :
  0 ≤ MockCmdQ.handle q < 2 ^ 32 →
  let rc := (MockCmdQ.write q heap).1.1 in
  let q' := (MockCmdQ.write q heap).1.2 in
  let heap' := (MockCmdQ.write q heap).2 in
  rc = MockCmdQ.rc_OK
  ∧ MockCmdQ.m_cmds q' = []
  ∧ MockCmdQ.handle q'
    = (MockCmdQ.handle q + creates heap (MockCmdQ.m_cmds q)) mod 2 ^ 32
  ∧ (∀ c, MockCmdQ.kind <$> heap' !! c = MockCmdQ.kind <$> heap !! c)
  ∧ (∀ c, c ∉ MockCmdQ.m_cmds q → heap' !! c = heap !! c)
  ∧ (∀ c, c ∈ MockCmdQ.m_cmds q →
          MockCmdQ.succeeded <$> heap' !! c = (λ _, true) <$> heap !! c)
  ∧ (∀ c, is_create heap c = false →
          MockCmdQ.item <$> heap' !! c = MockCmdQ.item <$> heap !! c)
  ∧ (∀ pre c post, MockCmdQ.m_cmds q = pre ++ c :: post → c ∉ post →
       is_create heap c = true →
       MockCmdQ.item <$> heap' !! c
       = Some (Some ((MockCmdQ.handle q + creates heap (pre ++ [c]))
                       mod 2 ^ 32,
                     MockCmdQ.rc_OK))).
Proof.
  intros Hh. cbv zeta. unfold MockCmdQ.write.
  pose proof (write_loop_spec (MockCmdQ.m_cmds q) (MockCmdQ.handle q) heap Hh)
    as Hspec. cbv zeta in Hspec.
  destruct (MockCmdQ.write_loop _ _) as [h' heap'].
  simpl in *. destruct Hspec as (? & ? & ? & ? & ? & ?). done.
Qed.

(** X23: enqueueing a batch of commands is enqueueing them one by one, in
    the order of the batch, and leaves the batch empty; neither way of
    enqueueing touches the queue's handle. *)
Theorem enqueue_all_is_fifo cmds (q : MockCmdQ.t) :
  MockCmdQ.enqueue_all cmds q
  = (foldl (λ q c, MockCmdQ.enqueue c q) q cmds, [])
  ∧ (MockCmdQ.enqueue_all cmds q).1
    = MockCmdQ.mk (MockCmdQ.handle q) (MockCmdQ.m_cmds q ++ cmds).
Proof.
  revert q. induction cmds as [|c cmds IH]; intros q; simpl.
  - rewrite app_nil_r. by destruct q.
  - destruct (IH (MockCmdQ.mk (MockCmdQ.handle q) (MockCmdQ.m_cmds q ++ [c])))
      as [-> ->].
    split; [done|]. simpl. by rewrite <-app_assoc.
Qed.

End mock_facts.

Lemma write_drains_in_order_witness :
  let heap' := (MockCmdQ.write Fixture.mock_q Fixture.mock_heap).2 in
  MockCmdQ.handle (MockCmdQ.write Fixture.mock_q Fixture.mock_heap).1.2 = 1
  ∧ MockCmdQ.item <$> heap' !! 0%nat = Some (Some (0, MockCmdQ.rc_OK))
  ∧ MockCmdQ.item <$> heap' !! 2%nat = Some (Some (1, MockCmdQ.rc_OK))
  ∧ MockCmdQ.item <$> heap' !! 1%nat = Some None.
Proof.
  destruct (write_drains_in_order Fixture.mock_q Fixture.mock_heap)
    as (_ & _ & Hhandle & _ & _ & _ & Hother & Hcreate).
  { vm_compute. split; [discriminate|reflexivity]. }
  split; [exact Hhandle|]. split; [|split].
  - apply (Hcreate [] 0%nat [1; 2]%nat eq_refl); [|reflexivity].
    apply not_elem_of_cons. split; [discriminate|].
    apply not_elem_of_cons. split; [discriminate|apply not_elem_of_nil].
  - apply (Hcreate [0; 1]%nat 2%nat [] eq_refl); [|reflexivity].
    apply not_elem_of_nil.
  - apply (Hother 1%nat). reflexivity.
Defined.

(** ** What a pass leaves under a group's key *)

Section writes_only_facts.
Context {A B : Type}.
Implicit Types (key : key_t) (P : om_object → Prop).

Lemma wo_same key P (c : M A) :
  (∀ s, st_om (c s).2 = st_om s) → writes_only key P c.
Proof. intros Hc s k o. rewrite Hc. by left. Qed.

Lemma wo_ret key P (a : A) : writes_only key P (ret a).
Proof. by apply wo_same. Qed.

Lemma wo_throw key P e : writes_only key P (@throw A e).
Proof. by apply wo_same. Qed.

Lemma wo_deref key P (p : option A) : writes_only key P (deref p).
Proof. apply wo_same. by destruct p. Qed.

Lemma wo_bind key P (c : M A) (k : A → M B) :
  writes_only key P c → (∀ a, writes_only key P (k a)) →
  writes_only key P (bind c k).
Proof.
  intros Hc Hk s k' o. specialize (Hc s k' o). unfold bind.
  destruct (c s) as [[a|e|] s1]; simpl in *; [|done..].
  intros [Hin|?]%Hk; [by apply Hc|by right].
Qed.

Lemma wo_try_catch key P (c : M A) (h : exn → M A) :
  writes_only key P c → (∀ e, writes_only key P (h e)) →
  writes_only key P (try_catch c h).
Proof.
  intros Hc Hh s k' o. specialize (Hc s k' o). unfold try_catch.
  destruct (c s) as [[a|e|] s1]; simpl in *; [done| |done].
  intros [Hin|?]%Hh; [by apply Hc|by right].
Qed.

End writes_only_facts.

Lemma wo_OM_write key (P : om_object → Prop) o :
  P o → writes_only key P (OM_write key o).
Proof.
  intros HP s k o' Hin. apply asserted_write_inv in Hin as [?|[-> ->]]; auto.
Qed.

Lemma wo_LOG key P msg : writes_only key P (LOG msg).
Proof. by apply wo_same. Qed.

Lemma wo_id_gen_get key P cid uri : writes_only key P (id_gen_get cid uri).
Proof. by apply wo_same. Qed.

Lemma wo_for_each {A} key P (l : list A) (body : A → M unit) :
  (∀ a, writes_only key P (body a)) → writes_only key P (for_each l body).
Proof.
  intros Hbody. induction l as [|a l IH]; simpl.
  - apply wo_ret.
  - apply wo_bind; [apply Hbody|done].
Qed.

Ltac wo :=
  repeat
    (cbv beta iota zeta;
     lazymatch goal with
     | |- writes_only _ _ (bind _ _) => apply wo_bind; [|intros ?]
     | |- writes_only _ _ (try_catch _ _) => apply wo_try_catch; [|intros ?]
     | |- writes_only _ _ (OM_write _ _) => apply wo_OM_write
     | |- writes_only _ _ (LOG _) => apply wo_LOG
     | |- writes_only _ _ (id_gen_get _ _) => apply wo_id_gen_get
     | |- writes_only _ _ (ret _) => apply wo_ret
     | |- writes_only _ _ (throw _) => apply wo_throw
     | |- writes_only _ _ (deref _) => apply wo_deref
     | |- writes_only _ _ (for_each _ _) => apply wo_for_each; intros ?
     | |- writes_only _ _ (match ?x with _ => _ end) => destruct x eqn:?
     end).

Lemma wo_bind_deref {A B} key (P : om_object → Prop) (p : option A)
    (k : A → M B) :
  (∀ a, p = Some a → writes_only key P (k a)) →
  writes_only key P (bind (deref p) k).
Proof.
  intros Hk. destruct p as [a|].
  - intros s. apply (Hk a eq_refl s).
  - intros s k' o. by left.
Qed.

Section links_facts.
Variable lib : Library.
Variable upl : UplinkAccessors.
Variable ForwardInfo_new : EndPointGroupManager.ForwardInfo.

Local Abbreviation handle_update_body :=
  (EndPointGroupManager.handle_update_body lib upl ForwardInfo_new).
Local Abbreviation handle_update :=
  (EndPointGroupManager.handle_update lib upl ForwardInfo_new).

Lemma wo_handle_update_body rt uri :
  writes_only uri (on_uplink (uplink rt)) (handle_update_body rt uri uri).
Proof.
  unfold EndPointGroupManager.handle_update_body,
    EndPointGroupManager.mk_group, EndPointGroupManager.mk_group_try,
    EndPointGroupManager.get_fwd_info, EndPointGroupManager.mk_bvi,
    EndPointGroupManager.mk_mcast_tunnel, EndPointGroupManager.render_subnet,
    mk_v4, mk_v6, mk_mac, spine_tunnel, Uplink.mk_interface.
  repeat
    (cbv beta iota zeta;
     lazymatch goal with
     | |- writes_only _ _ (bind (deref _) _) =>
         apply wo_bind_deref; intros ? ?
     | |- writes_only _ _ (bind _ _) => apply wo_bind; [|intros ?]
     | |- writes_only _ _ (try_catch _ _) => apply wo_try_catch; [|intros ?]
     | |- writes_only _ _ (OM_write _ _) => apply wo_OM_write
     | |- writes_only _ _ (LOG _) => apply wo_LOG
     | |- writes_only _ _ (id_gen_get _ _) => apply wo_id_gen_get
     | |- writes_only _ _ (ret _) => apply wo_ret
     | |- writes_only _ _ (throw _) => apply wo_throw
     | |- writes_only _ _ (deref _) => apply wo_deref
     | |- writes_only _ _ (for_each _ _) => apply wo_for_each; intros ?
     | |- writes_only _ _ (match ?x with _ => _ end) => destruct x eqn:?
     end).
  all: try done.
  all: try (by destruct (vr rt)).
Qed.

(** X24: after an update the encapsulation links a group holds are on the
    uplink as it is now.  Every VXLAN tunnel of the uplink's kind that the
    group's key holds runs from the uplink's present source to its present
    remote, and every sub-interface it holds is on the uplink's present
    interface: a link built on an earlier lease or an earlier uplink does
    not survive the pass. *)
Theorem group_links_follow_uplink rt uri s :
  (handle_update rt uri s).1 ≠ Crash →
  ∀ o, o ∈ om_owned uri (st_om (handle_update rt uri s).2) →
       on_uplink (uplink rt) o.
Proof.
  unfold EndPointGroupManager.handle_update, mark_n_sweep, scoped.
  pose proof (wo_handle_update_body rt uri (OM_mark uri s) uri) as Hwo.
  destruct (handle_update_body rt uri uri (OM_mark uri s)) as [[[]|e|] s'];
    simpl in *; intros Hr o; [| |done].
  all: rewrite om_owned_sweep; intros [Hin|[_ ?]]%Hwo; [|done].
  all: by rewrite om_asserted_mark in Hin; apply elem_of_nil in Hin.
Qed.

End links_facts.

Lemma group_links_follow_uplink_witness :
  let old := O_interface (VxlanTunnel (V4 0x0A000001) (V4 0x0A000002) 0xA0A
                                      mode_STANDARD) in
  old ∈ om_owned Fixture.epg0 (st_om Fixture.s_vxlan)
  ∧ old ∉ om_owned Fixture.epg0
            (st_om (EndPointGroupManager.handle_update Fixture.lib0
                      Fixture.upl_stitched Fixture.fwd0 Fixture.rt_vxlan_moved
                      Fixture.epg0 Fixture.s_vxlan).2).
Proof.
  cbv zeta. split.
  - vm_compute. do 5 apply list_elem_of_further. apply list_elem_of_here.
  - intros Hin.
    destruct (group_links_follow_uplink Fixture.lib0 Fixture.upl_stitched
                Fixture.fwd0 Fixture.rt_vxlan_moved Fixture.epg0
                Fixture.s_vxlan) with (2 := Hin) as [Hsrc _].
    + vm_compute. discriminate.
    + discriminate Hsrc.
Defined.

(** ** Groups of one bridge domain *)

Section sharing_facts.
Variable ForwardInfo_new : EndPointGroupManager.ForwardInfo.

Local Abbreviation get_fwd_info :=
  (EndPointGroupManager.get_fwd_info ForwardInfo_new).

Lemma id_gen_get_allocated cid uri id s Q :
  id_allocated cid uri id (st_ids s) → Q id s →
  returns (id_gen_get cid uri) s Q.
Proof.
  intros Hid HQ. exists id, s. unfold id_gen_get. rewrite Hid. simpl.
  split; [|done]. by destruct s.
Qed.

(** X25: groups in one bridge domain are rendered into one bridge domain.
    When the policy gives two groups the same bridge domain, the
    forwarding information of the second carries the bridge-domain ID that
    the first was given, so that the bridge domain and the BVI built from
    it are the same objects for both. *)
Theorem groups_share_bridge_domain rt uri1 uri2 v1 v2 bd s :
  getVnidForGroup (policy_manager rt) uri1 = Some v1 →
  getVnidForGroup (policy_manager rt) uri2 = Some v2 →
  getBDForGroup (policy_manager rt) uri1 = Some bd →
  getBDForGroup (policy_manager rt) uri2 = Some bd →
  returns (get_fwd_info rt uri1) s (λ fwd1 s1,
    returns (get_fwd_info rt uri2) s1 (λ fwd2 _,
      EndPointGroupManager.bdURI fwd2 = EndPointGroupManager.bdURI fwd1
      ∧ EndPointGroupManager.bdId fwd2 = EndPointGroupManager.bdId fwd1
      ∧ mk_bridge_domain (EndPointGroupManager.bdId fwd2) learning_OFF
        = mk_bridge_domain (EndPointGroupManager.bdId fwd1) learning_OFF)).
Proof.
  intros Hv1 Hv2 Hbd1 Hbd2.
  eapply returns_conseq;
    [by apply (get_fwd_info_returns ForwardInfo_new rt uri1 s v1 bd)|].
  intros fwd1 s1 (_ & Huri & Hid & _). cbv beta.
  unfold EndPointGroupManager.get_fwd_info. rewrite Hv2, Hbd2.
  assert (Hbd : ∀ f s2,
    id_allocated BridgeDomain_CLASS_ID (BridgeDomain_getURI bd)
                 (EndPointGroupManager.bdId fwd1) (st_ids s2) →
    returns
      (u <- deref (EndPointGroupManager.bdURI
                     (EndPointGroupManager.set_bdURI f
                        (Some (BridgeDomain_getURI bd)))) ;;
       id <- id_gen_get BridgeDomain_CLASS_ID u ;;
       ret (EndPointGroupManager.set_bdId
              (EndPointGroupManager.set_bdURI f
                 (Some (BridgeDomain_getURI bd))) id)) s2
      (λ fwd2 _,
         EndPointGroupManager.bdURI fwd2 = EndPointGroupManager.bdURI fwd1
         ∧ EndPointGroupManager.bdId fwd2 = EndPointGroupManager.bdId fwd1
         ∧ mk_bridge_domain (EndPointGroupManager.bdId fwd2) learning_OFF
           = mk_bridge_domain (EndPointGroupManager.bdId fwd1) learning_OFF)).
  { intros f s2 Hal. cbn [EndPointGroupManager.bdURI
                          EndPointGroupManager.set_bdURI].
    do 3 mstep. apply (id_gen_get_allocated _ _ _ _ _ Hal). mstep.
    by rewrite Huri. }
  destruct (getRDForGroup (policy_manager rt) uri2) as [rd|].
  - cbv zeta. cbn [EndPointGroupManager.rdURI EndPointGroupManager.set_rdURI].
    do 4 mstep. apply Hbd. cbn [st_ids set_ids].
    by apply id_allocated_get.
  - do 2 mstep. by apply Hbd.
Qed.

End sharing_facts.

Lemma groups_share_bridge_domain_witness :
  let pm := mk_PolicyManager
              (λ _, true)
              (λ u, if decide (u = Fixture.epg0) then Some 0xA0A
                    else Some 0xA0B)
              (λ _, None)
              (λ _, Some (mk_BridgeDomain Fixture.bd0))
              (λ _, None) (λ _, None) (λ _, None) (λ _, [])
              Fixture.router_ip in
  let rt := mk_Runtime pm Fixture.uplink_vlan None in
  returns (EndPointGroupManager.get_fwd_info Fixture.fwd0 rt Fixture.epg0)
    Fixture.s0 (λ fwd1 s1,
      returns (EndPointGroupManager.get_fwd_info Fixture.fwd0 rt Fixture.epg1)
        s1 (λ fwd2 _,
          EndPointGroupManager.bdId fwd2 = EndPointGroupManager.bdId fwd1)).
Proof.
  cbv zeta. eapply returns_conseq.
  - apply (groups_share_bridge_domain Fixture.fwd0 _ Fixture.epg0 Fixture.epg1
             0xA0A 0xA0B (mk_BridgeDomain Fixture.bd0) Fixture.s0);
      reflexivity.
  - intros fwd1 s1 (fwd2 & s2 & Hrun & _ & Hid & _). cbv beta.
    exists fwd2, s2. split; [exact Hrun|exact Hid].
Defined.

